(** * Persistent shell sessions: a shallow embedding of [ShellSessionManager]

    The development models the server-side shell session manager
    (class [ShellSessionManager], the second module of
    [server/utils/claude-config.js]): the registry of sessions keyed by
    project path, the output buffer of every session, the single WebSocket
    bound to a session, the replay on attach, the URL detector applied to
    everything sent, the idle sweep and the termination paths.

    JavaScript strings are sequences of UTF-16 code units; they are modelled
    as [list N].  Objects that the code shares by reference (session
    records captured by the [onData] closure and by the kill timer, PTY
    handles, WebSockets) live in explicit stores and are named by their
    address.  What the manager asks of a PTY or a socket is recorded on
    the object (text written, signals sent, messages handed to [send]);
    what the outside does (output, exit, the passing of time, new
    connections) comes in as events.  Console logging is left out,
    [pty.spawn] is taken to return a handle, and [resize] of a handle
    throws, as node-pty does, when the size is not positive.

    Around the manager the development also models what it calls and
    what calls it: [generateClaudeEnvVars] (the first module of the same
    file) as a function of the environment and of the two settings files,
    and the listeners that [handleShellConnection] of [server/index.js]
    puts on a WebSocket of the [/shell] endpoint. *)

From Stdlib Require Import ZArith NArith List String Ascii Lia DecimalString.
From stdpp Require Import base option list gmap.

Local Open Scope N_scope.

(** ** Strings *)

(** An ASCII literal as a sequence of code units. *)
Definition js (s : string) : list N :=
  map N_of_ascii (list_ascii_of_string s).

(** [String(n)] for a non-negative integer below 1e21: its decimal digits. *)
Definition numberToString (n : nat) : list N :=
  js (NilZero.string_of_uint (Nat.to_uint n)).

(** [s.startsWith(p)], code unit by code unit, after mapping both through
    [canon] (the identity for a case-sensitive comparison). *)
Fixpoint startsWithBy (canon : N → N) (p s : list N) : bool :=
  match p, s with
  | [], _ => true
  | _ :: _, [] => false
  | a :: p', b :: s' => (canon a =? canon b) && startsWithBy canon p' s'
  end.

(** [hay.indexOf(needle)]: the first position where [needle] occurs. *)
Fixpoint indexOf (needle hay : list N) : option nat :=
  if startsWithBy id needle hay then Some 0%nat
  else match hay with
       | [] => None
       | _ :: hay' => S <$> indexOf needle hay'
       end.

(** [hay.includes(needle)]. *)
Definition includes (needle hay : list N) : bool :=
  bool_decide (is_Some (indexOf needle hay)).

(** The replacement text of [String.prototype.replace] with a string
    pattern (ECMAScript GetSubstitution with no capture groups): [$$] is a
    dollar sign, [$&] the matched text, [$`] the text before the match and
    [$'] the text after it; any other [$] stands for itself. *)
Fixpoint getSubstitution (matched before after tmpl : list N) : list N :=
  match tmpl with
  | 36 :: 36 :: t => 36 :: getSubstitution matched before after t
  | 36 :: 38 :: t => matched ++ getSubstitution matched before after t
  | 36 :: 96 :: t => before ++ getSubstitution matched before after t
  | 36 :: 39 :: t => after ++ getSubstitution matched before after t
  | c :: t => c :: getSubstitution matched before after t
  | [] => []
  end.

(** [s.replace(needle, tmpl)] with a string [needle]: only the first
    occurrence is replaced. *)
Definition replaceString (s needle tmpl : list N) : list N :=
  match indexOf needle s with
  | None => s
  | Some i =>
      let before := take i s in
      let after := drop (i + length needle)%nat s in
      before ++ getSubstitution needle before after tmpl ++ after
  end.

(** [projectPath.replace(/[/\\]/g, '_')]: every slash and backslash
    becomes an underscore. *)
Definition replaceSeparators (s : list N) : list N :=
  map (λ c, if (c =? 47) || (c =? 92) then 95 else c) s.

(** ** The regular expressions of the URL detector *)

Module Regex.

(** The fragment of the regular expression syntax that the six patterns
    of [sendToWebSocket] use.  Repetition is only applied to character
    classes, and there is one capture group. *)
Inductive regex :=
| Lit (s : list N)
| Alt (a b : regex)
| Seq (a b : regex)
| Opt (a : regex)
| Star (cls : N → bool)
| Plus (cls : N → bool)
| Group (a : regex).

(** Canonicalisation under the [i] flag (no [u] flag): a code unit is
    compared through its upper-case form, and a non-ASCII code unit never
    canonicalises to an ASCII one.  On the ASCII pattern characters used
    here this is ASCII case folding. *)
Definition canonicalize (ignoreCase : bool) (c : N) : N :=
  if ignoreCase && (97 <=? c) && (c <=? 122) then c - 32 else c.

(** Greedy [cls*] followed by the continuation [k], giving characters
    back one at a time when [k] fails. *)
Fixpoint star {R} (cls : N → bool) (s : list N)
    (k : list N → option R) : option R :=
  match s with
  | c :: s' =>
      if cls c then
        match star cls s' k with
        | Some r => Some r
        | None => k s
        end
      else k s
  | [] => k []
  end.

(** Backtracking matcher in continuation-passing style: [rmatch ic r s
    cap k] matches [r] at the start of [s] and hands the rest of the
    input and the capture to [k]; alternatives are tried left to right
    and quantifiers are greedy, as in ECMAScript. *)
Fixpoint rmatch {R} (ic : bool) (r : regex) (s : list N)
    (cap : option (list N))
    (k : list N → option (list N) → option R) : option R :=
  match r with
  | Lit l =>
      if startsWithBy (canonicalize ic) l s
      then k (drop (length l) s) cap else None
  | Alt a b =>
      match rmatch ic a s cap k with
      | Some x => Some x
      | None => rmatch ic b s cap k
      end
  | Seq a b => rmatch ic a s cap (λ rest cap', rmatch ic b rest cap' k)
  | Opt a =>
      match rmatch ic a s cap k with
      | Some x => Some x
      | None => k s cap
      end
  | Star cls => star cls s (λ rest, k rest cap)
  | Plus cls =>
      match s with
      | c :: s' => if cls c then star cls s' (λ rest, k rest cap) else None
      | [] => None
      end
  | Group a =>
      rmatch ic a s cap
        (λ rest _, k rest (Some (take (length s - length rest)%nat s)))
  end.

(** A match of [r] anchored at the start of [s]: the length of the
    matched text and the text of group 1. *)
Definition matchHere (ic : bool) (r : regex) (s : list N)
    : option (nat * list N) :=
  rmatch ic r s None
    (λ rest cap, Some ((length s - length rest)%nat, default [] cap)).

(** The loop [while ((match = pattern.exec(data)) !== null)] for a
    pattern with the [g] flag and [lastIndex] 0 at the start: every
    match, left to right, each search resuming where the previous match
    ended.  [skip] counts the characters still covered by the previous
    match.  The result lists [match[0]] and [match[1]].  (None of the
    patterns matches the empty string, so no search succeeds at the end
    of the input.) *)
Fixpoint execAll (ic : bool) (r : regex) (s : list N) (skip : nat)
    : list (list N * list N) :=
  match s with
  | [] => []
  | _ :: s' =>
      match skip with
      | S n => execAll ic r s' n
      | O =>
          match matchHere ic r s with
          | Some (len, g1) => (take len s, g1) :: execAll ic r s' (len - 1)
          | None => execAll ic r s' 0
          end
      end
  end.

End Regex.

(** [\s]: the ECMAScript white space and line terminator code units. *)
Definition isSpace (c : N) : bool :=
  (c =? 9) || (c =? 10) || (c =? 11) || (c =? 12) || (c =? 13) || (c =? 32)
  || (c =? 160) || (c =? 0x1680) || ((0x2000 <=? c) && (c <=? 0x200a))
  || (c =? 0x2028) || (c =? 0x2029) || (c =? 0x202f) || (c =? 0x205f)
  || (c =? 0x3000) || (c =? 0xfeff).

(** [[^\s\x1b\x07]]. *)
Definition isUrlChar (c : N) : bool :=
  negb (isSpace c || (c =? 0x1b) || (c =? 0x07)).

(** [(https?:\/\/[^\s\x1b\x07]+)], the capture group shared by the six
    patterns. *)
Definition urlGroup : Regex.regex :=
  Regex.Group
    (Regex.Seq (Regex.Lit (js "http"))
       (Regex.Seq (Regex.Opt (Regex.Lit (js "s")))
          (Regex.Seq (Regex.Lit (js "://")) (Regex.Plus isUrlChar)))).

Record Pattern := {
  source : list N;        (* the text between the slashes *)
  ignoreCase : bool;      (* the [i] flag *)
  re : Regex.regex
}.

Definition xdgOpenPattern : Pattern :=
  {| source := js "(?:xdg-open|open|start)\s+(https?:\/\/[^\s\x1b\x07]+)";
     ignoreCase := false;
     re := Regex.Seq
             (Regex.Alt (Regex.Lit (js "xdg-open"))
                (Regex.Alt (Regex.Lit (js "open")) (Regex.Lit (js "start"))))
             (Regex.Seq (Regex.Plus isSpace) urlGroup) |}.

Definition openUrlPattern : Pattern :=
  {| source := js "OPEN_URL:\s*(https?:\/\/[^\s\x1b\x07]+)";
     ignoreCase := false;
     re := Regex.Seq (Regex.Lit (js "OPEN_URL:"))
             (Regex.Seq (Regex.Star isSpace) urlGroup) |}.

Definition openingPattern : Pattern :=
  {| source := js "Opening\s+(https?:\/\/[^\s\x1b\x07]+)";
     ignoreCase := true;
     re := Regex.Seq (Regex.Lit (js "Opening"))
             (Regex.Seq (Regex.Plus isSpace) urlGroup) |}.

Definition visitPattern : Pattern :=
  {| source := js "Visit:\s*(https?:\/\/[^\s\x1b\x07]+)";
     ignoreCase := true;
     re := Regex.Seq (Regex.Lit (js "Visit:"))
             (Regex.Seq (Regex.Star isSpace) urlGroup) |}.

Definition viewAtPattern : Pattern :=
  {| source := js "View at:\s*(https?:\/\/[^\s\x1b\x07]+)";
     ignoreCase := true;
     re := Regex.Seq (Regex.Lit (js "View at:"))
             (Regex.Seq (Regex.Star isSpace) urlGroup) |}.

Definition browseToPattern : Pattern :=
  {| source := js "Browse to:\s*(https?:\/\/[^\s\x1b\x07]+)";
     ignoreCase := true;
     re := Regex.Seq (Regex.Lit (js "Browse to:"))
             (Regex.Seq (Regex.Star isSpace) urlGroup) |}.

(** The array [patterns] of [sendToWebSocket]. *)
Definition patterns : list Pattern :=
  [ xdgOpenPattern; openUrlPattern; openingPattern; visitPattern;
    viewAtPattern; browseToPattern ].

(** ** Messages on the wire *)

(** The two JSON messages the manager sends: [{type: 'url_open', url}] and
    [{type: 'output', data}]. *)
Inductive WsMessage :=
| UrlOpen (url : list N)
| Output (data : list N).

(** The globe emoji U+1F310 (a surrogate pair) and the rest of the
    replacement text for an [OPEN_URL] marker. *)
Definition openingInBrowser (url : list N) : list N :=
  [0xd83c; 0xdf10] ++ js " Opening in browser: " ++ url.

(** The body of [sendToWebSocket] once the socket is known to be open: for
    every pattern, in order, and every match of it in [data], a [url_open]
    message is sent, and a match of the [OPEN_URL] pattern is rewritten in
    the outgoing text; then the text goes out as one [output] message.
    The state threaded through the loops is the list of messages sent so
    far and [outputData]. *)
Definition scanPattern (data : list N) (st : list WsMessage * list N)
    (p : Pattern) : list WsMessage * list N :=
  foldl
    (λ '(sent, outputData) '(m0, url),
       (sent ++ [UrlOpen url],
        if includes (js "OPEN_URL") (source p)
        then replaceString outputData m0 (openingInBrowser url)
        else outputData))
    st (Regex.execAll (ignoreCase p) (re p) data 0).

Definition scanUrls (data : list N) : list WsMessage * list N :=
  foldl (scanPattern data) ([], data) patterns.

(** What [sendToWebSocket(ws, data)] sends on an open socket. *)
Definition wireMessages (data : list N) : list WsMessage :=
  let '(sent, outputData) := scanUrls data in sent ++ [Output outputData].

(** The text of the single [output] message among [wireMessages data]. *)
Definition outputText (data : list N) : list N := (scanUrls data).2.

(** ** Objects shared by reference *)

(** Session records, PTY handles and WebSockets are named by their
    address (a [nat]) in the store they live in. *)

(** [ws.readyState]; [ws.OPEN] is the constant [OPEN]. *)
Inductive ReadyState := CONNECTING | OPEN | CLOSING | CLOSED.

Global Instance ReadyState_eq_dec : EqDecision ReadyState.
Proof. solve_decision. Defined.

(** A WebSocket as the manager uses it: its state and, as a ghost log, the
    messages handed to [ws.send] so far. *)
Record WebSocket := {
  readyState : ReadyState;
  sent : list WsMessage
}.

(** A node-pty handle.  [written], [signals] and the size record what the
    manager asked of the process; [exited] is set when the process has
    reported its exit.  [dataListener] and [exitListener] hold the
    variables captured by the two closures that [getOrCreateSession]
    registers: the session record for [onData], the session key for
    [onExit]. *)
Record Pty := {
  file : list N;
  args : list (list N);
  env : list (list N * list N);
  ptyCols : Z;
  ptyRows : Z;
  written : list (list N);
  signals : list (option (list N));
  exited : bool;
  dataListener : option nat;
  exitListener : option (list N)
}.

(** One entry of [outputBuffer]. *)
Record BufferEntry := {
  data : list N;
  timestamp : Z
}.

(** [SessionData], field by field as the object literal in
    [getOrCreateSession] builds it.  [ptyProcess] and [currentWs] are
    references. *)
Record SessionData := {
  ptyProcess : nat;
  outputBuffer : list BufferEntry;
  projectPath : list N;
  sessionId : option (list N);
  reconnectedSessionId : option (list N);
  createdAt : Z;
  lastActiveAt : Z;
  isConnected : bool;
  currentWs : option nat;
  cols : Z;
  rows : Z
}.

(** A pending [setTimeout] of [killSession]: when it is due, and the
    [sessionKey] and [session] its closure captured. *)
Record KillTimer := {
  due : Z;
  timerKey : list N;
  timerSession : nat
}.

(** The state of the server as far as the manager can see or change it. *)
Record World := {
  now : Z;                          (* the clock, in milliseconds *)
  processEnv : list (list N * list N); (* process.env and the Claude settings *)
  sessions : gmap (list N) nat;     (* this.sessions *)
  heap : list SessionData;          (* session records *)
  ptys : list Pty;                  (* PTY handles spawned so far *)
  sockets : list WebSocket;         (* WebSockets accepted so far *)
  timers : list KillTimer           (* pending kill timers, oldest first *)
}.

(** *** Field updates *)

Definition withOutputBuffer (b : list BufferEntry) (s : SessionData) :=
  {| ptyProcess := ptyProcess s; outputBuffer := b;
     projectPath := projectPath s; sessionId := sessionId s;
     reconnectedSessionId := reconnectedSessionId s;
     createdAt := createdAt s; lastActiveAt := lastActiveAt s;
     isConnected := isConnected s; currentWs := currentWs s;
     cols := cols s; rows := rows s |}.

Definition withLastActiveAt (t : Z) (s : SessionData) :=
  {| ptyProcess := ptyProcess s; outputBuffer := outputBuffer s;
     projectPath := projectPath s; sessionId := sessionId s;
     reconnectedSessionId := reconnectedSessionId s;
     createdAt := createdAt s; lastActiveAt := t;
     isConnected := isConnected s; currentWs := currentWs s;
     cols := cols s; rows := rows s |}.

Definition withConnection (c : bool) (ws : option nat) (s : SessionData) :=
  {| ptyProcess := ptyProcess s; outputBuffer := outputBuffer s;
     projectPath := projectPath s; sessionId := sessionId s;
     reconnectedSessionId := reconnectedSessionId s;
     createdAt := createdAt s; lastActiveAt := lastActiveAt s;
     isConnected := c; currentWs := ws;
     cols := cols s; rows := rows s |}.

Definition withSize (c r : Z) (s : SessionData) :=
  {| ptyProcess := ptyProcess s; outputBuffer := outputBuffer s;
     projectPath := projectPath s; sessionId := sessionId s;
     reconnectedSessionId := reconnectedSessionId s;
     createdAt := createdAt s; lastActiveAt := lastActiveAt s;
     isConnected := isConnected s; currentWs := currentWs s;
     cols := c; rows := r |}.

Definition withNow (t : Z) (w : World) :=
  {| now := t; processEnv := processEnv w; sessions := sessions w;
     heap := heap w; ptys := ptys w; sockets := sockets w;
     timers := timers w |}.

Definition withSessions (m : gmap (list N) nat) (w : World) :=
  {| now := now w; processEnv := processEnv w; sessions := m;
     heap := heap w; ptys := ptys w; sockets := sockets w;
     timers := timers w |}.

Definition withHeap (h : list SessionData) (w : World) :=
  {| now := now w; processEnv := processEnv w; sessions := sessions w;
     heap := h; ptys := ptys w; sockets := sockets w; timers := timers w |}.

Definition withPtys (p : list Pty) (w : World) :=
  {| now := now w; processEnv := processEnv w; sessions := sessions w;
     heap := heap w; ptys := p; sockets := sockets w; timers := timers w |}.

Definition withSockets (s : list WebSocket) (w : World) :=
  {| now := now w; processEnv := processEnv w; sessions := sessions w;
     heap := heap w; ptys := ptys w; sockets := s; timers := timers w |}.

Definition withTimers (t : list KillTimer) (w : World) :=
  {| now := now w; processEnv := processEnv w; sessions := sessions w;
     heap := heap w; ptys := ptys w; sockets := sockets w; timers := t |}.

(** ** The state monad of the event loop

    Every method of the manager and every callback runs to completion on
    the single JavaScript thread, so each is a function from the state
    before to a result and the state after. *)

Definition M (A : Type) : Type := World → A * World.

Global Instance M_ret : MRet M := λ A x w, (x, w).
Global Instance M_bind : MBind M :=
  λ A B f m w, let '(x, w') := m w in f x w'.

Definition gets {A} (f : World → A) : M A := λ w, (f w, w).
Definition modify (f : World → World) : M () := λ w, ((), f w).

(** The state after running [m]. *)
Definition exec {A} (m : M A) (w : World) : World := (m w).2.
(** The value [m] returns. *)
Definition eval {A} (m : M A) (w : World) : A := (m w).1.

(** Run [f] on every element of a list, left to right ([for ... of]). *)
Fixpoint forEach {A} (f : A → M ()) (l : list A) : M () :=
  match l with
  | [] => mret ()
  | x :: l' => f x;; forEach f l'
  end.

(** *** Calls that throw

    One call of the manager can fail: [ptyProcess.resize], which
    node-pty refuses for a size that is not positive.  The methods that
    call it end with the same error, and the listeners of a socket catch
    it.  Such a computation returns an [Outcome]: its value, or the
    message of the error thrown. *)
Inductive Outcome (A : Type) : Type :=
| Returned (a : A)
| Thrown (message : list N).

Global Arguments Returned {A} a.
Global Arguments Thrown {A} message.

(** [m], then [f] on what it returned; an error ends the sequence. *)
Definition andThen {A B} (m : M (Outcome A)) (f : A → M (Outcome B))
    : M (Outcome B) :=
  r ← m;
  match r with
  | Returned a => f a
  | Thrown e => mret (Thrown e)
  end.

(** *** Primitive operations on the stores

    A reference held by the program always points to a live object; the
    operations below do nothing when given an address outside its store,
    which does not happen for a reference the program created itself. *)

(** [new Date()] and [Date.now()]. *)
Definition dateNow : M Z := gets now.

Definition readSession (l : nat) : M (option SessionData) :=
  gets (λ w, heap w !! l).

Definition updateSession (l : nat) (f : SessionData → SessionData) : M () :=
  modify (λ w, withHeap (alter f l (heap w)) w).

Definition allocSession (s : SessionData) : M nat :=
  λ w, (length (heap w), withHeap (heap w ++ [s]) w).

Definition updatePty (p : nat) (f : Pty → Pty) : M () :=
  modify (λ w, withPtys (alter f p (ptys w)) w).

(** [pty.spawn(file, args, {cols, rows, env})]. *)
Definition ptySpawn (f : list N) (a : list (list N)) (c r : Z)
    (e : list (list N * list N)) : M nat :=
  λ w, (length (ptys w),
        withPtys (ptys w ++ [ {| file := f; args := a; env := e;
                                 ptyCols := c; ptyRows := r;
                                 written := []; signals := [];
                                 exited := false;
                                 dataListener := None;
                                 exitListener := None |} ]) w).

(** The handle after [write(d)]. *)
Definition wrote (d : list N) (y : Pty) : Pty :=
  {| file := file y; args := args y; env := env y;
     ptyCols := ptyCols y; ptyRows := ptyRows y;
     written := written y ++ [d]; signals := signals y;
     exited := exited y; dataListener := dataListener y;
     exitListener := exitListener y |}.

(** The handle after [resize(c, r)]. *)
Definition resized (c r : Z) (y : Pty) : Pty :=
  {| file := file y; args := args y; env := env y;
     ptyCols := c; ptyRows := r;
     written := written y; signals := signals y;
     exited := exited y; dataListener := dataListener y;
     exitListener := exitListener y |}.

(** The handle after the calls of [kill] listed in [sigs]; [None] is a
    call without argument, which node-pty sends as its default signal. *)
Definition signalledWith (sigs : list (option (list N))) (y : Pty) : Pty :=
  {| file := file y; args := args y; env := env y;
     ptyCols := ptyCols y; ptyRows := ptyRows y;
     written := written y; signals := signals y ++ sigs;
     exited := exited y; dataListener := dataListener y;
     exitListener := exitListener y |}.

(** [ptyProcess.write(d)]. *)
Definition ptyWrite (p : nat) (d : list N) : M () :=
  updatePty p (wrote d).

(** The message of the error node-pty throws from [resize]. *)
Definition resizeError : list N :=
  js "resizing must be done using positive cols and rows".

(** [ptyProcess.resize(c, r)]: node-pty checks the size first and
    throws, leaving the terminal as it is, unless both numbers are
    positive.  Sizes are integers here, so the rest of its check (a size
    that is no number, or infinite) has no case. *)
Definition ptyResize (p : nat) (c r : Z) : M (Outcome ()) :=
  if ((0 <? c) && (0 <? r))%Z
  then updatePty p (resized c r);; mret (Returned ())
  else mret (Thrown resizeError).

(** [ptyProcess.kill(signal)]. *)
Definition ptyKill (p : nat) (sig : option (list N)) : M () :=
  updatePty p (signalledWith [sig]).

(** [ptyProcess.onData(cb)] where [cb] closes over the session record. *)
Definition ptyOnData (p : nat) (sessionData : nat) : M () :=
  updatePty p (λ y,
    {| file := file y; args := args y; env := env y;
       ptyCols := ptyCols y; ptyRows := ptyRows y;
       written := written y; signals := signals y;
       exited := exited y; dataListener := Some sessionData;
       exitListener := exitListener y |}).

(** [ptyProcess.onExit(cb)] where [cb] closes over the session key. *)
Definition ptyOnExit (p : nat) (sessionKey : list N) : M () :=
  updatePty p (λ y,
    {| file := file y; args := args y; env := env y;
       ptyCols := ptyCols y; ptyRows := ptyRows y;
       written := written y; signals := signals y;
       exited := exited y; dataListener := dataListener y;
       exitListener := Some sessionKey |}).

Definition markExited (p : nat) : M () :=
  updatePty p (λ y,
    {| file := file y; args := args y; env := env y;
       ptyCols := ptyCols y; ptyRows := ptyRows y;
       written := written y; signals := signals y;
       exited := true; dataListener := dataListener y;
       exitListener := exitListener y |}).

(** The socket [s] after [ms] have been sent on it. *)
Definition pushSent (ms : list WsMessage) (s : WebSocket) : WebSocket :=
  {| readyState := readyState s; sent := sent s ++ ms |}.

(** [ws.send(msg)]. *)
Definition wsSend (ws : nat) (m : WsMessage) : M () :=
  modify (λ w, withSockets (alter (pushSent [m]) ws (sockets w)) w).

(** The socket after [ws.close()]: an open socket starts closing; a
    socket that is closing or closed stays as it is. *)
Definition closing (s : WebSocket) : WebSocket :=
  {| readyState := match readyState s with
                   | CLOSED => CLOSED
                   | _ => CLOSING
                   end;
     sent := sent s |}.

(** [ws.close()]. *)
Definition wsClose (ws : nat) : M () :=
  modify (λ w, withSockets (alter closing ws (sockets w)) w).

(** ** The manager *)

Module ShellSessionManager.

(** [generateSessionKey(projectPath)]. *)
Definition generateSessionKey (projectPath : list N) : list N :=
  js "project-" ++ replaceSeparators projectPath.

(** A value used as a condition: [null] and the empty string are falsy. *)
Definition truthy (s : option (list N)) : bool :=
  match s with
  | Some (_ :: _) => true
  | _ => false
  end.

(** [sendToWebSocket(ws, data)]. *)
Definition sendToWebSocket (ws : nat) (d : list N) : M () :=
  sock ← gets (λ w, sockets w !! ws);
  match sock with
  | Some s =>
      if bool_decide (readyState s ≠ OPEN) then mret ()
      else forEach (wsSend ws) (wireMessages d)
  | None => mret ()
  end.

(** The two separators of [replayRecentOutput]. *)
Definition restoringMarker (n : nat) : list N :=
  [13; 10; 27] ++ js "[2m--- Restoring previous output ("
  ++ numberToString n ++ js " entries) ---" ++ [27] ++ js "[0m" ++ [13; 10].

Definition endMarker : list N :=
  [13; 10; 27] ++ js "[2m--- End previous output ---" ++ [27] ++ js "[0m"
  ++ [13; 10].

(** [replayRecentOutput(session, ws)]. *)
Definition replayRecentOutput (session : nat) (ws : nat) : M () :=
  sd ← readSession session;
  match sd with
  | Some s =>
      if bool_decide (length (outputBuffer s) = 0%nat) then mret ()
      else
        sendToWebSocket ws (restoringMarker (length (outputBuffer s)));;
        forEach (λ item, sendToWebSocket ws (data item)) (outputBuffer s);;
        sendToWebSocket ws endMarker
  | None => mret ()
  end.

(** [sessionData.outputBuffer.push(e)]. *)
Definition pushEntry (e : BufferEntry) (s : SessionData) : SessionData :=
  withOutputBuffer (outputBuffer s ++ [e]) s.

(** [if (outputBuffer.length > 1000) outputBuffer =
    outputBuffer.slice(-800)]; the buffer is never shorter than 800 when
    the test succeeds, so [slice(-800)] drops [length - 800] entries. *)
Definition trimBuffer (s : SessionData) : SessionData :=
  if bool_decide (1000 < length (outputBuffer s))%nat
  then withOutputBuffer
         (drop (length (outputBuffer s) - 800)%nat (outputBuffer s)) s
  else s.

(** The listener given to [ptyProcess.onData]; [sessionData] is the
    record the closure captured. *)
Definition onDataListener (sessionData : nat) (d : list N) : M () :=
  t ← dateNow;
  updateSession sessionData (pushEntry {| data := d; timestamp := t |});;
  updateSession sessionData trimBuffer;;
  sd ← readSession sessionData;
  match sd with
  | Some s =>
      match isConnected s, currentWs s with
      | true, Some ws => sendToWebSocket ws d
      | _, _ => mret ()
      end
  | None => mret ()
  end.

(** The listener given to [ptyProcess.onExit]; [sessionKey] is the key
    the closure captured. *)
Definition onExitListener (sessionKey : list N) (exitCode : Z) : M () :=
  modify (λ w, withSessions (delete sessionKey (sessions w)) w).

(** [generateClaudeEnvVars()] reads the environment and two settings
    files; its result is spread into the environment of the process
    after [process.env].  Both are state of the host, held in
    [processEnv]. *)
Definition generateClaudeEnvVars : M (list (list N * list N)) :=
  gets processEnv.

(** The part of [getOrCreateSession] that runs after
    [await generateClaudeEnvVars()] has returned: the process is spawned,
    the record built, the listeners registered and the key set.  The
    variables it uses were fixed before the [await]; the registry is not
    looked at again. *)
Definition createSession (sessionKey projectPath : list N)
    (sessionId : option (list N)) (cols rows : Z) (startCommand : list N)
    : M (nat * bool) :=
  claudeEnvVars ← generateClaudeEnvVars;
  ptyProcess ← ptySpawn (js "bash")
    [js "-c";
     js "cd " ++ [34] ++ projectPath ++ [34] ++ js " && " ++ startCommand]
    cols rows
    (claudeEnvVars ++
       [(js "TERM", js "xterm-256color");
        (js "COLORTERM", js "truecolor");
        (js "FORCE_COLOR", js "3")]);
  t ← dateNow;
  sessionData ← allocSession
    {| ptyProcess := ptyProcess;
       outputBuffer := [];
       projectPath := projectPath;
       sessionId := sessionId;
       reconnectedSessionId := sessionId;
       createdAt := t;
       lastActiveAt := t;
       isConnected := false;
       currentWs := None;
       cols := cols;
       rows := rows |};
  ptyOnData ptyProcess sessionData;;
  ptyOnExit ptyProcess sessionKey;;
  modify (λ w, withSessions (<[sessionKey := sessionData]> (sessions w)) w);;
  mret (sessionData, true).

(** The command line of the new process, fixed before the [await]. *)
Definition startCommandFor (sessionId : option (list N)) : list N :=
  if truthy sessionId
  then js "claude --resume " ++ default [] sessionId
  else js "claude".

(** [getOrCreateSession(projectPath, sessionId, cols, rows)], for a call
    that nothing interleaves with: the method is [async] and, when the
    key is free, suspends once, at [await generateClaudeEnvVars()],
    between the test of the registry and [createSession].  A caller that
    awaits each call before making the next one, with no other event in
    between, sees the two halves run back to back, as here.  On a
    registered key the method stamps [lastActiveAt] and then resizes the
    process, with no [try] around the call: when [resize] throws, the
    promise is rejected with that error. *)
Definition getOrCreateSession (projectPath : list N)
    (sessionId : option (list N)) (cols rows : Z)
    : M (Outcome (nat * bool)) :=
  let sessionKey := generateSessionKey projectPath in
  found ← gets (λ w, sessions w !! sessionKey);
  match found with
  | Some session =>
      t ← dateNow;
      updateSession session (withLastActiveAt t);;
      sd ← readSession session;
      andThen
        match sd with
        | Some s => ptyResize (ptyProcess s) cols rows
        | None => mret (Returned ())
        end
        (λ _, mret (Returned (session, false)))
  | None =>
      created ← createSession sessionKey projectPath sessionId cols rows
                  (startCommandFor sessionId);
      mret (Returned created)
  end.

(** [attachWebSocket(projectPath, ws)]. *)
Definition attachWebSocket (projectPath : list N) (ws : nat) : M bool :=
  let sessionKey := generateSessionKey projectPath in
  found ← gets (λ w, sessions w !! sessionKey);
  match found with
  | None => mret false
  | Some session =>
      sd ← readSession session;
      match sd with
      | Some s =>
          match isConnected s, currentWs s with
          | true, Some old => wsClose old
          | _, _ => mret ()
          end
      | None => mret ()
      end;;
      t ← dateNow;
      updateSession session (λ s,
        withLastActiveAt t (withConnection true (Some ws) s));;
      replayRecentOutput session ws;;
      mret true
  end.

(** [detachWebSocket(projectPath)]. *)
Definition detachWebSocket (projectPath : list N) : M bool :=
  let sessionKey := generateSessionKey projectPath in
  found ← gets (λ w, sessions w !! sessionKey);
  match found with
  | Some session =>
      t ← dateNow;
      updateSession session (λ s,
        withLastActiveAt t (withConnection false None s));;
      mret true
  | None => mret false
  end.

(** [writeToSession(projectPath, data)]. *)
Definition writeToSession (projectPath : list N) (d : list N) : M bool :=
  let sessionKey := generateSessionKey projectPath in
  found ← gets (λ w, sessions w !! sessionKey);
  match found with
  | Some session =>
      sd ← readSession session;
      match sd with
      | Some s =>
          ptyWrite (ptyProcess s) d;;
          t ← dateNow;
          updateSession session (withLastActiveAt t);;
          mret true
      | None => mret false
      end
  | None => mret false
  end.

(** [resizeSession(projectPath, cols, rows)]. *)
Definition resizeSession (projectPath : list N) (cols rows : Z)
    : M (Outcome bool) :=
  let sessionKey := generateSessionKey projectPath in
  found ← gets (λ w, sessions w !! sessionKey);
  match found with
  | Some session =>
      sd ← readSession session;
      match sd with
      | Some s =>
          andThen (ptyResize (ptyProcess s) cols rows) (λ _,
            t ← dateNow;
            updateSession session (λ s,
              withLastActiveAt t (withSize cols rows s));;
            mret (Returned true))
      | None => mret (Returned false)
      end
  | None => mret (Returned false)
  end.

(** The callback [killSession] hands to [setTimeout]; [sessionKey] and
    [session] are the variables it captured. *)
Definition killTimerCallback (sessionKey : list N) (session : nat) : M () :=
  present ← gets (λ w, bool_decide (is_Some (sessions w !! sessionKey)));
  if (present : bool) then
    sd ← readSession session;
    match sd with
    | Some s => ptyKill (ptyProcess s) (Some (js "SIGKILL"))
    | None => mret ()
    end
  else mret ().

(** [setTimeout(cb, 5000)] for that callback. *)
Definition setKillTimeout (sessionKey : list N) (session : nat) : M () :=
  modify (λ w, withTimers
    (timers w ++ [ {| due := (now w + 5000)%Z; timerKey := sessionKey;
                      timerSession := session |} ]) w).

(** [killSession(projectPath, force)]. *)
Definition killSession (projectPath : list N) (force : bool) : M bool :=
  let sessionKey := generateSessionKey projectPath in
  found ← gets (λ w, sessions w !! sessionKey);
  match found with
  | None => mret true
  | Some session =>
      sd ← readSession session;
      match sd with
      | Some s =>
          if force then ptyKill (ptyProcess s) (Some (js "SIGKILL"))
          else
            ptyWrite (ptyProcess s) (js "exit" ++ [13]);;
            setKillTimeout sessionKey session
      | None => mret ()
      end;;
      modify (λ w, withSessions (delete sessionKey (sessions w)) w);;
      mret true
  end.

(** The object [getSessionStatus] returns when the session exists. *)
Record StatusFields := {
  st_isConnected : bool;
  st_createdAt : Z;
  st_lastActiveAt : Z;
  st_projectPath : list N;
  st_sessionId : option (list N);
  st_reconnectedSessionId : option (list N);
  st_processId : nat;
  st_bufferSize : nat;
  st_cols : Z;
  st_rows : Z
}.

(** The result of [getSessionStatus]: [{exists: false, sessionKey}] or
    [{exists: true, sessionKey, ...}]. *)
Inductive SessionStatus :=
| Missing (sessionKey : list N)
| Existing (sessionKey : list N) (fields : StatusFields).

Definition exists_ (st : SessionStatus) : bool :=
  match st with
  | Missing _ => false
  | Existing _ _ => true
  end.

Definition connected (st : SessionStatus) : bool :=
  match st with
  | Missing _ => false
  | Existing _ f => st_isConnected f
  end.

(** [getSessionStatus(projectPath)]; the argument is called [path] here
    to keep it apart from the field.  The process id reported is the
    identity of the PTY handle. *)
Definition getSessionStatus (path : list N) : M SessionStatus :=
  let sessionKey := generateSessionKey path in
  found ← gets (λ w, sessions w !! sessionKey);
  match found with
  | None => mret (Missing sessionKey)
  | Some session =>
      sd ← readSession session;
      match sd with
      | Some s =>
          mret (Existing sessionKey
            {| st_isConnected := isConnected s;
               st_createdAt := createdAt s;
               st_lastActiveAt := lastActiveAt s;
               st_projectPath := projectPath s;
               st_sessionId := sessionId s;
               st_reconnectedSessionId := reconnectedSessionId s;
               st_processId := ptyProcess s;
               st_bufferSize := length (outputBuffer s);
               st_cols := cols s;
               st_rows := rows s |})
      | None => mret (Missing sessionKey)
      end
  end.

(** Whether the sweep selects a session: idle for more than two hours
    and not connected. *)
Definition inactive (twoHoursAgo : Z) (s : SessionData) : bool :=
  (lastActiveAt s <? twoHoursAgo)%Z && negb (isConnected s).

(** [cleanupInactiveSessions()].  The first loop visits the entries of
    the map; the map of the model lists them in an order of its own, which
    only changes the order in which distinct processes are signalled. *)
Definition cleanupInactiveSessions : M () :=
  t ← dateNow;
  let twoHoursAgo := (t - 2 * 60 * 60 * 1000)%Z in
  sessionsToDelete ← gets (λ w,
    omap (λ '(key, session),
            s ← heap w !! session;
            if inactive twoHoursAgo s then Some key else None)
         (map_to_list (sessions w)));
  forEach (λ key,
    found ← gets (λ w, sessions w !! key);
    match found with
    | Some session =>
        sd ← readSession session;
        match sd with
        | Some s => ptyKill (ptyProcess s) None
        | None => mret ()
        end
    | None => mret ()
    end;;
    modify (λ w, withSessions (delete key (sessions w)) w))
    sessionsToDelete.

End ShellSessionManager.

(** ** The environment: callbacks and the passing of time *)

Import ShellSessionManager.

Global Arguments js : simpl never.
Global Arguments numberToString : simpl never.
Global Arguments wireMessages : simpl never.
Global Arguments outputText : simpl never.
Global Arguments generateSessionKey : simpl never.
Global Arguments restoringMarker : simpl never.
Global Arguments endMarker : simpl never.

(** The server at start-up: [new ShellSessionManager()] with an empty map,
    nothing spawned and nobody connected. *)
Definition init (t : Z) (e : list (list N * list N)) : World :=
  {| now := t; processEnv := e; sessions := ∅; heap := []; ptys := [];
     sockets := []; timers := [] |}.

(** A PTY delivers a chunk of output: its [onData] listener runs, unless
    the process has already exited. *)
Definition emitData (p : nat) (d : list N) : M () :=
  y ← gets (λ w, ptys w !! p);
  match y with
  | Some y =>
      if exited y then mret ()
      else match dataListener y with
           | Some sessionData => onDataListener sessionData d
           | None => mret ()
           end
  | None => mret ()
  end.

(** A PTY process exits: its [onExit] listener runs, once. *)
Definition emitExit (p : nat) (exitCode : Z) : M () :=
  y ← gets (λ w, ptys w !! p);
  match y with
  | Some y =>
      if exited y then mret ()
      else
        markExited p;;
        match exitListener y with
        | Some sessionKey => onExitListener sessionKey exitCode
        | None => mret ()
        end
  | None => mret ()
  end.

(** Time passes: the clock moves forward by [dt] milliseconds and the kill
    timers that have become due run, oldest first. *)
Definition advanceTime (dt : Z) : M () :=
  modify (λ w, withNow (now w + Z.max 0 dt)%Z w);;
  t ← dateNow;
  pending ← gets timers;
  modify (withTimers (filter (λ k, t < due k)%Z pending));;
  forEach (λ k, killTimerCallback (timerKey k) (timerSession k))
    (filter (λ k, due k ≤ t)%Z pending).

(** The WebSocket server accepts a connection: a new open socket. *)
Definition acceptSocket : M nat :=
  λ w, (length (sockets w),
        withSockets (sockets w ++ [ {| readyState := OPEN; sent := [] |} ]) w).

(** A socket has finished closing (the peer went away, or the closing
    handshake completed). *)
Definition socketClosed (ws : nat) : M () :=
  modify (λ w, withSockets
    (alter (λ s, {| readyState := CLOSED; sent := sent s |}) ws (sockets w))
    w).

(** A call of [getOrCreateSession] that found the key free and was
    suspended resumes, whatever has happened to the registry since.  The
    first half of such a call changes nothing, so the resumption alone
    stands for the whole interleaved call. *)
Definition resumeCreate (projectPath : list N) (sessionId : option (list N))
    (cols rows : Z) : M (nat * bool) :=
  createSession (generateSessionKey projectPath) projectPath sessionId
    cols rows (startCommandFor sessionId).

(** Everything that can happen to the manager: a call of one of its
    methods, or a callback from a PTY, a timer or the socket server.
    [EGetOrCreate] is a call of [getOrCreateSession] that runs without
    interleaving, [EResumeCreate] the second half of one that was
    interleaved with other events.  [EAttach] stands for a call with a
    socket the server has accepted: with any other number it is no
    event. *)
Inductive Event :=
| EGetOrCreate (projectPath : list N) (sessionId : option (list N))
    (cols rows : Z)
| EResumeCreate (projectPath : list N) (sessionId : option (list N))
    (cols rows : Z)
| EAttach (projectPath : list N) (ws : nat)
| EDetach (projectPath : list N)
| EWrite (projectPath : list N) (d : list N)
| EResize (projectPath : list N) (cols rows : Z)
| EKill (projectPath : list N) (force : bool)
| EStatus (projectPath : list N)
| ECleanup
| EData (p : nat) (d : list N)
| EExit (p : nat) (exitCode : Z)
| ETime (dt : Z)
| EAccept
| EClosed (ws : nat).

Definition step (e : Event) : M () :=
  match e with
  | EGetOrCreate p sid c r => getOrCreateSession p sid c r;; mret ()
  | EResumeCreate p sid c r => resumeCreate p sid c r;; mret ()
  | EAttach p ws =>
      accepted ← gets (λ w, bool_decide (ws < length (sockets w))%nat);
      if (accepted : bool) then attachWebSocket p ws;; mret () else mret ()
  | EDetach p => detachWebSocket p;; mret ()
  | EWrite p d => writeToSession p d;; mret ()
  | EResize p c r => resizeSession p c r;; mret ()
  | EKill p f => killSession p f;; mret ()
  | EStatus p => getSessionStatus p;; mret ()
  | ECleanup => cleanupInactiveSessions
  | EData p d => emitData p d
  | EExit p c => emitExit p c
  | ETime dt => advanceTime dt
  | EAccept => acceptSocket;; mret ()
  | EClosed ws => socketClosed ws
  end.

(** The state after a sequence of events, from [w]. *)
Definition run (es : list Event) (w : World) : World :=
  exec (forEach step es) w.

(** The states the server can be in. *)
Definition reachable (w : World) : Prop :=
  ∃ t e es, w = run es (init t e).

(** ** Derived notions used in the statements *)

(** The buffer after the listener has pushed [e] and trimmed. *)
Definition appendOutput (buf : list BufferEntry) (e : BufferEntry)
    : list BufferEntry :=
  let b := buf ++ [e] in
  if bool_decide (1000 < length b)%nat then drop (length b - 800)%nat b else b.

(** The state after [ms] have been sent on socket [ws]. *)
Definition deliver (ws : nat) (ms : list WsMessage) (w : World) : World :=
  withSockets (alter (pushSent ms) ws (sockets w)) w.

(** Whether socket [ws] exists and is open. *)
Definition isOpen (ws : nat) (w : World) : bool :=
  match sockets w !! ws with
  | Some s => bool_decide (readyState s = OPEN)
  | None => false
  end.

(** What [replayRecentOutput] puts on the wire for a buffer. *)
Definition replayMessages (buf : list BufferEntry) : list WsMessage :=
  match buf with
  | [] => []
  | _ :: _ =>
      wireMessages (restoringMarker (length buf))
      ++ flat_map (λ item, wireMessages (data item)) buf
      ++ wireMessages endMarker
  end.

(** The texts of the [output] messages among [ms], in order. *)
Definition outputsOf (ms : list WsMessage) : list (list N) :=
  omap (λ m, match m with Output d => Some d | UrlOpen _ => None end) ms.

(** The state after the first half of [attachWebSocket]: the previous
    socket, if any, told to close. *)
Definition closePrevious (s : SessionData) (w : World) : World :=
  match isConnected s, currentWs s with
  | true, Some old => withSockets (alter closing old (sockets w)) w
  | _, _ => w
  end.

(** A text without the letter h, in either case: no URL can start in
    it. *)
Definition noH (s : list N) : Prop := Forall (λ c, c ≠ 104 ∧ c ≠ 72) s.

(** The buffer after a run of output chunks, all stamped [t]. *)
Definition appendAll (t : Z) (buf : list BufferEntry) (ds : list (list N)) :=
  foldl (λ b d, appendOutput b {| data := d; timestamp := t |}) buf ds.

(** Hoare-style preservation of an invariant by a computation. *)
Definition preserves {A} (I : World → Prop) (m : M A) : Prop :=
  ∀ w, I w → I (exec m w).

(** [Q] holds of every session record. *)
Definition heapAll (Q : SessionData → Prop) (w : World) : Prop :=
  ∀ l s, heap w !! l = Some s → Q s.

(** Every buffer on the heap holds at most 1000 entries. *)
Definition buffersBounded : World → Prop :=
  heapAll (λ s, length (outputBuffer s) ≤ 1000)%nat.

(** The sockets bound to a session: the one [currentWs] refers to while
    the session is connected. *)
Definition boundTransports (s : SessionData) : list nat :=
  match isConnected s, currentWs s with
  | true, Some ws => [ws]
  | _, _ => []
  end.

(** The flag [isConnected] and the reference [currentWs] agree. *)
Definition connectionConsistent : World → Prop :=
  heapAll (λ s, isConnected s = true ↔ is_Some (currentWs s)).

(** The PTY after [n] calls of [kill()] without argument. *)
Definition signalled (n : nat) (y : Pty) : Pty :=
  signalledWith (replicate n None) y.

(** The body of the second loop of [cleanupInactiveSessions]. *)
Definition sweepOne (key : list N) : M () :=
  found ← gets (λ w, sessions w !! key);
  match found with
  | Some session =>
      sd ← readSession session;
      match sd with
      | Some s => ptyKill (ptyProcess s) None
      | None => mret ()
      end
  | None => mret ()
  end;;
  modify (λ w, withSessions (delete key (sessions w)) w).

(** The keys the first loop collects. *)
Definition sessionsToDelete (w : World) : list (list N) :=
  omap (λ '(key, session),
          s ← heap w !! session;
          if inactive (now w - 2 * 60 * 60 * 1000)%Z s then Some key else None)
       (map_to_list (sessions w)).

(** The replay as the specification words it: whatever the number of
    buffered entries, the socket receives the opening marker, the
    entries in order and the closing marker. *)
Definition replayBracketed (w : World) (P : list N) (b : nat) : Prop :=
  ∀ l s sb,
    sessions w !! generateSessionKey P = Some l →
    heap w !! l = Some s →
    isConnected s = false →
    sockets w !! b = Some sb →
    readyState sb = OPEN →
    ∃ sb', sockets (exec (attachWebSocket P b) w) !! b = Some sb'
      ∧ outputsOf (drop (length (sent sb)) (sent sb'))
        = restoringMarker (length (outputBuffer s))
          :: map (λ item, outputText (data item)) (outputBuffer s)
          ++ [endMarker].



(** The sweep as the specification words it: the process of every
    session it removes has been force-killed, which in this code is
    [kill('SIGKILL')], as in [killSession(path, true)]. *)
Definition sweepForceKills (w : World) : Prop :=
  ∀ k l s,
    sessions w !! k = Some l →
    heap w !! l = Some s →
    isConnected s = false →
    (lastActiveAt s < now w - 2 * 60 * 60 * 1000)%Z →
    let w' := exec cleanupInactiveSessions w in
    sessions w' !! k = None
    ∧ ∃ y, ptys w' !! ptyProcess s = Some y
           ∧ Some (js "SIGKILL") ∈ signals y.

(** Detaching as the specification words it: the record afterwards is
    the record before with the socket reference and the connection flag
    cleared, and nothing else changed. *)
Definition detachClearsOnly (w : World) (P : list N) : Prop :=
  ∀ l s,
    sessions w !! generateSessionKey P = Some l →
    heap w !! l = Some s →
    heap (exec (detachWebSocket P) w) !! l
    = Some (withConnection false None s).

(** Every reference held in the state points into its store. *)
Definition wellFormed (w : World) : Prop :=
  (∀ k l, sessions w !! k = Some l → l < length (heap w))%nat
  ∧ (∀ l s, heap w !! l = Some s →
       ptyProcess s < length (ptys w)
       ∧ ∀ ws, currentWs s = Some ws → ws < length (sockets w))%nat
  ∧ (∀ p y l, ptys w !! p = Some y → dataListener y = Some l →
       l < length (heap w))%nat
  ∧ (∀ t, t ∈ timers w → timerSession t < length (heap w))%nat.

(** [w'] differs from [w] only in ways that create no reference: stores
    may have grown by objects that refer to nothing, records keep their
    PTY and keep or drop their socket, handles keep their listener,
    registry entries and timers may have gone. *)
Definition benign (w w' : World) : Prop :=
  length (heap w') = length (heap w)
  ∧ (length (ptys w) ≤ length (ptys w'))%nat
  ∧ (length (sockets w) ≤ length (sockets w'))%nat
  ∧ (∀ l s', heap w' !! l = Some s' →
       ∃ s, heap w !! l = Some s ∧ ptyProcess s' = ptyProcess s
            ∧ (currentWs s' = currentWs s ∨ currentWs s' = None))
  ∧ (∀ p y', ptys w' !! p = Some y' →
       dataListener y' = None
       ∨ ∃ y, ptys w !! p = Some y ∧ dataListener y' = dataListener y)
  ∧ (∀ k l, sessions w' !! k = Some l → sessions w !! k = Some l)
  ∧ (∀ t, t ∈ timers w' → t ∈ timers w).

(** A computation all of whose effects are benign. *)
Definition Benign {A} (m : M A) : Prop := ∀ w, benign w (exec m w).

(** ** Sample runs *)

(** A server with one session, for the project [/p]. *)
Definition oneSession : World :=
  run [EGetOrCreate (js "/p") None 80 24] (init 0 []).

(** The same with one accepted socket, not yet attached. *)
Definition oneSessionOneSocket : World :=
  run [EAccept] oneSession.

(** A session that has produced output while nobody was attached, and a
    socket waiting to be attached. *)
Definition bufferedSession : World :=
  run [EData 0 (js "hello"); EData 0 (js "OPEN_URL: http://x.y/z ok")]
    oneSessionOneSocket.

(** A session with socket 0 attached, and a second socket accepted. *)
Definition attachedSession : World :=
  run [EAttach (js "/p") 0; EAccept] bufferedSession.


(** The record of the session of [oneSession]. *)
Definition sampleRecord : SessionData :=
  {| ptyProcess := 0; outputBuffer := []; projectPath := js "/p";
     sessionId := None; reconnectedSessionId := None; createdAt := 0;
     lastActiveAt := 0; isConnected := false; currentWs := None;
     cols := 80; rows := 24 |}.

(** Two sessions two hours later: [/p] was never attached, [/q] has
    socket 0 attached. *)
Definition idleWorld : World :=
  run [EGetOrCreate (js "/p") None 80 24; EGetOrCreate (js "/q") None 80 24;
       EAccept; EAttach (js "/q") 0; ETime 7200001] (init 0 []).

(** Two calls for [/p] that both found the key free before either
    resumed. *)
Definition overlappingCreation : World :=
  run [EResumeCreate (js "/p") None 80 24; EResumeCreate (js "/p") None 80 24]
    (init 0 []).

(** A session is killed gracefully and a new one is created for the same
    project before the old process has gone. *)
Definition recreatedSession : World :=
  run [EGetOrCreate (js "/p") None 80 24; EKill (js "/p") false;
       EGetOrCreate (js "/p") None 80 24] (init 0 []).

(** ** The rest of the manager *)

(** A loop that pushes one result per element for which the body yields
    one. *)
Fixpoint collect {A B} (f : A → M (option B)) (l : list A) : M (list B) :=
  match l with
  | [] => mret []
  | x :: l' =>
      y ← f x;
      ys ← collect f l';
      mret (match y with Some y => y :: ys | None => ys end)
  end.

(** [getAllSessions()]: one [{key, status}] per entry of the map.  The
    status is not read off the entry: it is looked up again from the path
    stored in the record.  (The map of the model lists its entries in an
    order of its own.) *)
Definition getAllSessions : M (list (list N * SessionStatus)) :=
  entries ← gets (λ w, map_to_list (sessions w));
  collect (λ '(key, session),
    sd ← readSession session;
    match sd with
    | Some s =>
        status ← getSessionStatus (projectPath s);
        mret (Some (key, status))
    | None => mret None
    end) entries.

(** [cleanup()], called when the server receives SIGINT or SIGTERM:
    [kill()] on the process of every registered session, then
    [sessions.clear()].  The interval timer it stops first is part of the
    environment here. *)
Definition cleanup : M () :=
  entries ← gets (λ w, map_to_list (sessions w));
  forEach (λ '(_, session),
    sd ← readSession session;
    match sd with
    | Some s => ptyKill (ptyProcess s) None
    | None => mret ()
    end) entries;;
  modify (withSessions ∅).

(** [startCleanupTimer()]: [setInterval] runs the sweep every ten
    minutes.  One period of the interval, with nothing else happening
    in it: the time passes, then the callback runs. *)
Definition cleanupPeriod : Z := 10 * 60 * 1000.

Definition intervalTick : M () :=
  advanceTime cleanupPeriod;; cleanupInactiveSessions.

(** ** The Claude settings: [generateClaudeEnvVars] *)

Module ClaudeConfig.

(** A value produced by [JSON.parse]; numbers are taken to be integers.
    An object keeps its members in the order of the text. *)
#[local] Unset Elimination Schemes.
Inductive Json :=
| JNull
| JBool (b : bool)
| JNumber (z : Z)
| JString (s : list N)
| JArray (items : list Json)
| JObject (members : list (list N * Json)).
#[local] Set Elimination Schemes.

(** A value used as a condition; [None] is [undefined]. *)
Definition toBoolean (v : option Json) : bool :=
  match v with
  | None | Some JNull => false
  | Some (JBool b) => b
  | Some (JNumber z) => negb (z =? 0)%Z
  | Some (JString s) => match s with [] => false | _ :: _ => true end
  | Some (JArray _) | Some (JObject _) => true
  end.

(** The member called [name]; of two members with one name
    [JSON.parse] keeps the later. *)
Fixpoint member (name : list N) (members : list (list N * Json))
    : option Json :=
  match members with
  | [] => None
  | (k, v) :: rest =>
      match member name rest with
      | Some v' => Some v'
      | None => if decide (k = name) then Some v else None
      end
  end.

(** [o.name] for the names read below: a [TypeError] (here [None]) on
    [null], the member of an object, and [undefined] on anything else. *)
Definition getProp (o : Json) (name : list N) : option (option Json) :=
  match o with
  | JNull => None
  | JObject members => Some (member name members)
  | _ => Some None
  end.

(** [if (process.env.NAME) envVars.NAME = process.env.NAME]. *)
Definition fromProcessEnv (processEnv : gmap (list N) (list N))
    (name : list N) (envVars : gmap (list N) Json) : gmap (list N) Json :=
  match processEnv !! name with
  | Some (c :: s) => <[name := JString (c :: s)]> envVars
  | _ => envVars
  end.

(** [if (v && !envVars.NAME) envVars.NAME = v]. *)
Definition fromFile (v : option Json) (name : list N)
    (envVars : gmap (list N) Json) : gmap (list N) Json :=
  match v with
  | Some j =>
      if toBoolean v && negb (toBoolean (envVars !! name))
      then <[name := j]> envVars else envVars
  | None => envVars
  end.

(** The body of the first inner [try], once [settings.json] has been read
    and parsed.  The only expression that can throw, [settings.env] on
    [null], comes before every assignment. *)
Definition fromSettings (settings : Json) (envVars : gmap (list N) Json)
    : option (gmap (list N) Json) :=
  env ← getProp settings (js "env");
  if toBoolean env then
    match env with
    | Some e =>
        model ← getProp e (js "ANTHROPIC_MODEL");
        let envVars := fromFile model (js "ANTHROPIC_MODEL") envVars in
        small ← getProp e (js "ANTHROPIC_SMALL_FAST_MODEL");
        Some (fromFile small (js "ANTHROPIC_SMALL_FAST_MODEL") envVars)
    | None => Some envVars
    end
  else Some envVars.

(** The body of the second inner [try], once [claude-webui.json] has
    been read and parsed.  Here too the only throw, on [null], precedes
    every assignment. *)
Definition fromWebuiConfig (webuiConfig : Json)
    (envVars : gmap (list N) Json) : option (gmap (list N) Json) :=
  baseUrl ← getProp webuiConfig (js "baseUrl");
  let envVars := fromFile baseUrl (js "ANTHROPIC_BASE_URL") envVars in
  authToken ← getProp webuiConfig (js "authToken");
  let envVars := fromFile authToken (js "ANTHROPIC_AUTH_TOKEN") envVars in
  model ← getProp webuiConfig (js "model");
  let envVars := fromFile model (js "ANTHROPIC_MODEL") envVars in
  smallModel ← getProp webuiConfig (js "smallModel");
  let envVars :=
    fromFile smallModel (js "ANTHROPIC_SMALL_FAST_MODEL") envVars in
  httpProxy ← getProp webuiConfig (js "httpProxy");
  let envVars := fromFile httpProxy (js "HTTP_PROXY") envVars in
  httpsProxy ← getProp webuiConfig (js "httpsProxy");
  Some (fromFile httpsProxy (js "HTTPS_PROXY") envVars).

(** [try { ... } catch { }] around a block that works on [envVars]. *)
Definition tryWith (file : option Json)
    (body : Json → gmap (list N) Json → option (gmap (list N) Json))
    (envVars : gmap (list N) Json) : gmap (list N) Json :=
  match file with
  | Some j => default envVars (body j envVars)
  | None => envVars
  end.

(** [!envVars[key] || envVars[key] === ''], the test of the final
    filter. *)
Definition isEmptyValue (v : Json) : bool :=
  negb (toBoolean (Some v))
  || match v with JString [] => true | _ => false end.

(** [generateClaudeEnvVars()] as a function of what it reads:
    [process.env], and for each of [~/.claude/settings.json] and
    [~/.claude/claude-webui.json] the parsed contents, or [None] when
    reading or parsing the file throws. *)
Definition generateClaudeEnvVars (processEnv : gmap (list N) (list N))
    (settingsFile webuiConfigFile : option Json) : gmap (list N) Json :=
  let envVars : gmap (list N) Json := ∅ in
  let envVars := fromProcessEnv processEnv (js "ANTHROPIC_BASE_URL") envVars in
  let envVars := fromProcessEnv processEnv (js "ANTHROPIC_AUTH_TOKEN") envVars in
  let envVars := fromProcessEnv processEnv (js "ANTHROPIC_MODEL") envVars in
  let envVars :=
    fromProcessEnv processEnv (js "ANTHROPIC_SMALL_FAST_MODEL") envVars in
  let envVars := fromProcessEnv processEnv (js "HTTP_PROXY") envVars in
  let envVars := fromProcessEnv processEnv (js "HTTPS_PROXY") envVars in
  let envVars := tryWith settingsFile fromSettings envVars in
  let envVars := tryWith webuiConfigFile fromWebuiConfig envVars in
  filter (λ kv, isEmptyValue kv.2 = false) envVars.

(** The variables the function can set. *)
Definition names : list (list N) :=
  [ js "ANTHROPIC_BASE_URL"; js "ANTHROPIC_AUTH_TOKEN"; js "ANTHROPIC_MODEL";
    js "ANTHROPIC_SMALL_FAST_MODEL"; js "HTTP_PROXY"; js "HTTPS_PROXY" ].

End ClaudeConfig.

(** ** The WebSocket endpoint [/shell]: [handleShellConnection] *)

Module ShellConnection.

(** A message from the client after [JSON.parse]: the three types the
    handler knows, any other type, or a text that fails to parse (with
    the message of the error).  [None] is a member that is absent. *)
Inductive ClientMessage :=
| Init (projectPath sessionId : option (list N)) (cols rows : option Z)
| Input (data : list N)
| Resize (cols rows : option Z)
| Unhandled
| Malformed (message : list N).

(** The variables of one connection, captured by its three listeners. *)
Record Closure := {
  currentSessionId : option (list N);
  currentProjectPath : option (list N)
}.

Definition initial : Closure :=
  {| currentSessionId := None; currentProjectPath := None |}.

(** [n || d] for a number. *)
Definition orElse (n : option Z) (d : Z) : Z :=
  match n with
  | Some z => if (z =? 0)%Z then d else z
  | None => d
  end.

(** The two welcome texts; the rocket is U+1F680, the arrows U+1F504. *)
Definition startedMessage : list N :=
  [27] ++ js "[36m" ++ [0xd83d; 0xde80]
  ++ js " Started new persistent Claude session" ++ [27] ++ js "[0m"
  ++ [13; 10].

Definition reconnectedMessage : list N :=
  [27] ++ js "[36m" ++ [0xd83d; 0xdd04]
  ++ js " Reconnected to existing Claude session" ++ [27] ++ js "[0m"
  ++ [13; 10].

Definition errorMessage (message : list N) : list N :=
  [13; 10; 27] ++ js "[31mError: " ++ message ++ [27] ++ js "[0m"
  ++ [13; 10].

(** The [message] listener of socket [ws]; [cwd] is [process.cwd()].
    The result is the closure afterwards.  The object the manager returns
    has no [startCommand], so the welcome text has no command line.
    [ws.send] outside the manager is not guarded by [readyState]; on a
    socket that is closing it is taken to return, sending nothing to the
    peer.  As for [getOrCreateSession], nothing interleaves with the
    [await].  The closure variables are assigned before the call, so
    they are set also when it fails.  An error of [getOrCreateSession]
    is caught by the inner [try]: its text is sent and
    [attachWebSocket] is skipped.  An error of [resizeSession] is caught
    by the outer [try], which sends the text when the socket is open. *)
Definition onMessage (cwd : list N) (ws : nat) (c : Closure)
    (m : ClientMessage) : M Closure :=
  match m with
  | Init path sid cols rows =>
      let projectPath := if truthy path then default [] path else cwd in
      let cols := orElse cols 80 in
      let rows := orElse rows 24 in
      outcome ← getOrCreateSession projectPath sid cols rows;
      match outcome with
      | Returned (_, isNew) =>
          attachWebSocket projectPath ws;;
          wsSend ws
            (Output (if (isNew : bool) then startedMessage
                     else reconnectedMessage))
      | Thrown message => wsSend ws (Output (errorMessage message))
      end;;
      mret {| currentSessionId := sid;
              currentProjectPath := Some projectPath |}
  | Input d =>
      (if truthy (currentProjectPath c)
       then writeToSession (default [] (currentProjectPath c)) d;; mret ()
       else mret ());;
      mret c
  | Resize cols rows =>
      let cols := orElse cols 80 in
      let rows := orElse rows 24 in
      (if truthy (currentProjectPath c)
       then
         outcome ← resizeSession (default [] (currentProjectPath c))
                     cols rows;
         match outcome with
         | Returned _ => mret ()
         | Thrown message =>
             open ← gets (isOpen ws);
             if (open : bool) then wsSend ws (Output (errorMessage message))
             else mret ()
         end
       else mret ());;
      mret c
  | Unhandled => mret c
  | Malformed message =>
      open ← gets (isOpen ws);
      (if (open : bool) then wsSend ws (Output (errorMessage message))
       else mret ());;
      mret c
  end.

(** The [close] listener; the [error] listener does the same. *)
Definition onClose (c : Closure) : M () :=
  if truthy (currentProjectPath c)
  then detachWebSocket (default [] (currentProjectPath c));; mret ()
  else mret ().

Definition onError (c : Closure) : M () := onClose c.

End ShellConnection.

(** ** Further notions used in the statements *)

(** Whether [http] occurs in a text, in any mix of cases. *)
Fixpoint mentionsHttp (s : list N) : bool :=
  startsWithBy (Regex.canonicalize true) (js "http") s
  || match s with
     | [] => false
     | _ :: s' => mentionsHttp s'
     end.

(** The URLs the detector finds in a text: pattern by pattern, and for
    each pattern from left to right. *)
Definition detectedUrls (d : list N) : list (list N) :=
  flat_map (λ p, snd <$> Regex.execAll (ignoreCase p) (re p) d 0) patterns.

(** Every registered record carries a path that generates the key it is
    registered under. *)
Definition keyed (w : World) : Prop :=
  ∀ k l s, sessions w !! k = Some l → heap w !! l = Some s →
    generateSessionKey (projectPath s) = k.

(** [w'] has the records of [w], each with the path it had, and no
    registry entry that [w] has not. *)
Definition steady (w w' : World) : Prop :=
  (∀ l s', heap w' !! l = Some s' →
     ∃ s, heap w !! l = Some s ∧ projectPath s' = projectPath s)
  ∧ (∀ k l, sessions w' !! k = Some l → sessions w !! k = Some l).

Definition Steady {A} (m : M A) : Prop := ∀ w, steady w (exec m w).

(** How often [p] occurs among the processes of the registered
    sessions. *)
Definition registeredTimes (w : World) (p : nat) : nat :=
  length (filter (λ kl : list N * nat,
                    ptyProcess <$> heap w !! kl.2 = Some p)
            (map_to_list (sessions w))).
(** What [settings.json] offers for a variable: [settings.env.NAME] for
    the two model variables, nothing for the others, and nothing when
    the file is unreadable, is [null], or has no truthy [env]. *)
Definition settingsValue (settingsFile : option ClaudeConfig.Json)
    (name : list N) : option ClaudeConfig.Json :=
  if bool_decide (name ∈ [js "ANTHROPIC_MODEL";
                          js "ANTHROPIC_SMALL_FAST_MODEL"])
  then
    match settingsFile with
    | Some settings =>
        match ClaudeConfig.getProp settings (js "env") with
        | Some (Some e) =>
            if ClaudeConfig.toBoolean (Some e)
            then default None (ClaudeConfig.getProp e name)
            else None
        | _ => None
        end
    | None => None
    end
  else None.

(** The member of [claude-webui.json] that stands for each variable. *)
Definition webuiKeys : list (list N * list N) :=
  [ (js "ANTHROPIC_BASE_URL", js "baseUrl");
    (js "ANTHROPIC_AUTH_TOKEN", js "authToken");
    (js "ANTHROPIC_MODEL", js "model");
    (js "ANTHROPIC_SMALL_FAST_MODEL", js "smallModel");
    (js "HTTP_PROXY", js "httpProxy");
    (js "HTTPS_PROXY", js "httpsProxy") ].

(** What [claude-webui.json] offers for a variable. *)
Definition webuiValue (webuiConfigFile : option ClaudeConfig.Json)
    (name : list N) : option ClaudeConfig.Json :=
  match webuiConfigFile, (list_to_map webuiKeys : gmap _ _) !! name with
  | Some webuiConfig, Some key =>
      default None (ClaudeConfig.getProp webuiConfig key)
  | _, _ => None
  end.

(** The first of three offers that is truthy. *)
Definition firstTruthy (a b c : option ClaudeConfig.Json)
    : option ClaudeConfig.Json :=
  if ClaudeConfig.toBoolean a then a
  else if ClaudeConfig.toBoolean b then b
  else if ClaudeConfig.toBoolean c then c
  else None.
(** The status [getSessionStatus] reports for a record registered under
    [k]. *)
Definition statusOf (k : list N) (s : SessionData) : SessionStatus :=
  Existing k
    {| st_isConnected := isConnected s;
       st_createdAt := createdAt s;
       st_lastActiveAt := lastActiveAt s;
       st_projectPath := projectPath s;
       st_sessionId := sessionId s;
       st_reconnectedSessionId := reconnectedSessionId s;
       st_processId := ptyProcess s;
       st_bufferSize := length (outputBuffer s);
       st_cols := cols s;
       st_rows := rows s |}.

(** How often [p] is the process of one of the entries [es]. *)
Definition timesIn (w : World) (p : nat) (es : list (list N * nat)) : nat :=
  length (filter (λ kl, ptyProcess <$> heap w !! kl.2 = Some p) es).

(** * Properties *)

(** ** Stores and the monad *)

Ltac unfold_m :=
  unfold exec, eval, getOrCreateSession, createSession, attachWebSocket,
    detachWebSocket,
    writeToSession, resizeSession, killSession, getSessionStatus,
    killTimerCallback, setKillTimeout, onExitListener,
    generateClaudeEnvVars, readSession, updateSession, allocSession, dateNow,
    ptySpawn, ptyWrite, ptyResize, andThen, ptyKill, ptyOnData, ptyOnExit, markExited,
    updatePty, wsSend, wsClose, gets, modify, mbind, M_bind, mret, M_ret in *.

Lemma list_alter_None {A} (f : A → A) (l : list A) i :
  l !! i = None → alter f i l = l.
Proof.
  revert i. induction l as [|x l IH]; intros [|i] H; simpl in *; try done.
  f_equal. by apply IH.
Qed.

Lemma withHeap_same w : withHeap (heap w) w = w.
Proof. by destruct w. Qed.

Lemma withSockets_same w : withSockets (sockets w) w = w.
Proof. by destruct w. Qed.

Lemma withPtys_same w : withPtys (ptys w) w = w.
Proof. by destruct w. Qed.

Lemma withSessions_same w : withSessions (sessions w) w = w.
Proof. by destruct w. Qed.

(** ** Creating and reusing sessions *)

(** What [resize] does with a size that is positive, and with one that
    is not. *)
Lemma ptyResize_positive p c r w :
  (0 < c)%Z → (0 < r)%Z →
  ptyResize p c r w
  = (Returned (), withPtys (alter (resized c r) p (ptys w)) w).
Proof.
  intros Hc Hr. unfold ptyResize.
  destruct (Z.ltb_spec 0 c); [|lia]. destruct (Z.ltb_spec 0 r); [|lia]. done.
Qed.

Lemma ptyResize_throws p c r w :
  ¬ (0 < c ∧ 0 < r)%Z → ptyResize p c r w = (Thrown resizeError, w).
Proof.
  intros H. unfold ptyResize.
  destruct (Z.ltb_spec 0 c); [|done]. destruct (Z.ltb_spec 0 r); [lia|done].
Qed.

(** On a registered key the existing record is returned; the only effects
    are the new [lastActiveAt] and the resize of its PTY. *)
Lemma getOrCreateSession_reuse w P sid c r l :
  sessions w !! generateSessionKey P = Some l →
  (0 < c)%Z → (0 < r)%Z →
  getOrCreateSession P sid c r w =
    (Returned (l, false),
     match heap w !! l with
     | Some s =>
         withPtys (alter (resized c r) (ptyProcess s) (ptys w))
           (withHeap (alter (withLastActiveAt (now w)) l (heap w)) w)
     | None => w
     end).
Proof.
  intros H Hc Hr.
  unfold getOrCreateSession, andThen, readSession, updateSession, dateNow,
    gets, modify, mbind, M_bind, mret, M_ret.
  rewrite H. cbn. rewrite list_lookup_alter_eq.
  destruct (heap w !! l) as [s|] eqn:E; cbn.
  - by rewrite (ptyResize_positive _ _ _ _ Hc Hr).
  - by rewrite list_alter_None, withHeap_same.
Qed.

(** With a size that is not positive the call ends with the error of
    [resize], after the stamp on [lastActiveAt]. *)
Lemma getOrCreateSession_reuse_throws w P sid c r l s :
  sessions w !! generateSessionKey P = Some l →
  heap w !! l = Some s →
  ¬ (0 < c ∧ 0 < r)%Z →
  getOrCreateSession P sid c r w =
    (Thrown resizeError,
     withHeap (alter (withLastActiveAt (now w)) l (heap w)) w).
Proof.
  intros H Hs Hcr.
  unfold getOrCreateSession, andThen, readSession, updateSession, dateNow,
    gets, modify, mbind, M_bind, mret, M_ret.
  rewrite H. cbn. rewrite list_lookup_alter_eq, Hs. cbn.
  by rewrite (ptyResize_throws _ _ _ _ Hcr).
Qed.

(** The state after a call on a registered key, whatever the size. *)
Lemma getOrCreateSession_reuse_exec w P sid c r l :
  sessions w !! generateSessionKey P = Some l →
  exec (getOrCreateSession P sid c r) w =
    match heap w !! l with
    | Some s =>
        if ((0 <? c) && (0 <? r))%Z
        then withPtys (alter (resized c r) (ptyProcess s) (ptys w))
               (withHeap (alter (withLastActiveAt (now w)) l (heap w)) w)
        else withHeap (alter (withLastActiveAt (now w)) l (heap w)) w
    | None => w
    end.
Proof.
  intros H. unfold exec.
  destruct (heap w !! l) as [s|] eqn:E.
  - destruct ((0 <? c) && (0 <? r))%Z eqn:Hv.
    + apply andb_true_iff in Hv as [Hc%Z.ltb_lt Hr%Z.ltb_lt].
      by rewrite (getOrCreateSession_reuse _ _ sid _ _ _ H Hc Hr), E.
    + rewrite (getOrCreateSession_reuse_throws _ _ sid c r _ _ H E); [done|].
      intros [Hc%Z.ltb_lt Hr%Z.ltb_lt]. by rewrite Hc, Hr in Hv.
  - unfold getOrCreateSession, andThen, readSession, updateSession, dateNow,
      gets, modify, mbind, M_bind, mret, M_ret.
    rewrite H. cbn. rewrite list_lookup_alter_eq, E. cbn.
    by rewrite list_alter_None, withHeap_same.
Qed.

(** On a free key one process is spawned and one record registered. *)
Lemma getOrCreateSession_create w P sid c r :
  sessions w !! generateSessionKey P = None →
  ∃ w', getOrCreateSession P sid c r w
        = (Returned (length (heap w), true), w')
    ∧ sessions w' = <[generateSessionKey P := length (heap w)]> (sessions w)
    ∧ length (ptys w') = S (length (ptys w))
    ∧ (∀ p, p < length (ptys w) → ptys w' !! p = ptys w !! p)%nat
    ∧ heap w' = heap w ++
        [ {| ptyProcess := length (ptys w); outputBuffer := [];
             projectPath := P; sessionId := sid; reconnectedSessionId := sid;
             createdAt := now w; lastActiveAt := now w; isConnected := false;
             currentWs := None; cols := c; rows := r |} ]
    ∧ sockets w' = sockets w ∧ now w' = now w ∧ timers w' = timers w.
Proof.
  intros H. unfold_m. cbn. rewrite H. cbn.
  eexists. split; [reflexivity|]. cbn.
  repeat split; try done.
  - rewrite !length_alter, length_app. simpl. lia.
  - intros p Hp. rewrite !list_lookup_alter_ne by lia.
    by rewrite lookup_app_l.
Qed.





(** C9.  The session key is [project-] followed by the path with every
    slash and backslash turned into an underscore.  The mapping is not
    injective: [/a/b] and [/a_b] are different paths with the same key.
    So when a session is created for the first (a process is spawned
    and its record registered under the key), a later call for the
    second, with a positive size, finds that entry: it returns the same
    record, which is still the record of [/a/b], on the same PTY handle,
    and it spawns nothing and registers nothing. *)
Theorem generateSessionKey_collision :
  (∀ P, take 8 (generateSessionKey P) = js "project-")
  ∧ (∀ P (i : nat),
       generateSessionKey P !! (8 + i)%nat
       = (λ c, if (c =? 47) || (c =? 92) then 95 else c) <$> P !! i)
  ∧ js "/a/b" ≠ js "/a_b"
  ∧ generateSessionKey (js "/a/b") = generateSessionKey (js "/a_b")
  ∧ (∀ w sid c r sid' c' r',
       sessions w !! generateSessionKey (js "/a/b") = None →
       (0 < c')%Z → (0 < r')%Z →
       let w1 := exec (getOrCreateSession (js "/a/b") sid c r) w in
       let w2 := exec (getOrCreateSession (js "/a_b") sid' c' r') w1 in
       ∃ l s y,
         eval (getOrCreateSession (js "/a/b") sid c r) w = Returned (l, true)
         ∧ length (ptys w1) = S (length (ptys w))
         ∧ sessions w1 !! generateSessionKey (js "/a_b") = Some l
         ∧ heap w1 !! l = Some s
         ∧ projectPath s = js "/a/b"
         ∧ ptyProcess s = length (ptys w)
         ∧ ptys w1 !! ptyProcess s = Some y
         ∧ eval (getOrCreateSession (js "/a_b") sid' c' r') w1
           = Returned (l, false)
         ∧ length (ptys w2) = length (ptys w1)
         ∧ sessions w2 = sessions w1
         ∧ (projectPath <$> heap w2 !! l) = Some (js "/a/b")
         ∧ (ptyProcess <$> heap w2 !! l) = Some (ptyProcess s)).
Proof.
  split; [done|]. split.
  { intros P i. unfold generateSessionKey.
    assert (Hlen : length (js "project-") = 8%nat) by done.
    rewrite lookup_app_r by lia. rewrite Hlen.
    replace (8 + i - 8)%nat with i by lia.
    unfold replaceSeparators. by rewrite list_lookup_fmap. }
  split; [by vm_compute|]. split; [by vm_compute|].
  intros w sid c r sid' c' r' Hfree Hc' Hr' w1 w2.
  assert (Hk : generateSessionKey (js "/a_b") = generateSessionKey (js "/a/b"))
    by (by vm_compute).
  destruct (getOrCreateSession_create w (js "/a/b") sid c r Hfree)
    as (w' & Hrun & Hs & Hn & Hp & Hh & _).
  assert (w1 = w') as Hw1 by (unfold w1, exec; by rewrite Hrun).
  assert (Hreg : sessions w1 !! generateSessionKey (js "/a_b")
                 = Some (length (heap w))).
  { rewrite Hk, Hw1, Hs. apply lookup_insert_eq. }
  assert (Hrec : heap w1 !! length (heap w)
                 = Some {| ptyProcess := length (ptys w); outputBuffer := [];
                           projectPath := js "/a/b"; sessionId := sid;
                           reconnectedSessionId := sid; createdAt := now w;
                           lastActiveAt := now w; isConnected := false;
                           currentWs := None; cols := c; rows := r |}).
  { rewrite Hw1, Hh, lookup_app_r by lia. by rewrite Nat.sub_diag. }
  assert (Hy : is_Some (ptys w1 !! length (ptys w))).
  { apply lookup_lt_is_Some_2. rewrite Hw1, Hn. lia. }
  destruct Hy as [y Hy].
  pose proof (getOrCreateSession_reuse w1 _ sid' c' r' _ Hreg Hc' Hr') as Hre.
  rewrite Hrec in Hre.
  eexists _, _, y. unfold eval at 1. rewrite Hrun. cbn [fst].
  split; [done|]. split; [by rewrite Hw1|]. split; [exact Hreg|].
  split; [exact Hrec|]. split; [done|]. split; [done|].
  split; [exact Hy|].
  unfold w2, eval, exec. rewrite Hre. cbn.
  split; [done|]. split; [by rewrite length_alter|]. split; [done|].
  by rewrite list_lookup_alter_eq, Hrec.
Qed.

Lemma generateSessionKey_collision_witness :
  sessions (init 0 []) !! generateSessionKey (js "/a/b") = None
  ∧ eval (getOrCreateSession (js "/a_b") None 80 24)
      (exec (getOrCreateSession (js "/a/b") None 80 24) (init 0 []))
    = Returned (0%nat, false).
Proof.
  assert (H : sessions (init 0 []) !! generateSessionKey (js "/a/b") = None)
    by (vm_compute; reflexivity).
  assert (Hc : (0 < 80)%Z) by lia.
  assert (Hr : (0 < 24)%Z) by lia.
  split; [exact H|].
  destruct generateSessionKey_collision as (_ & _ & _ & _ & Hcol).
  destruct (Hcol (init 0 []) None 80%Z 24%Z None 80%Z 24%Z H Hc Hr)
    as (l & s & y & H1 & _ & H3 & _ & _ & _ & _ & H8 & _).
  assert (Hl : l = 0%nat).
  { unfold eval in H1. vm_compute in H1. by injection H1 as <-. }
  by rewrite Hl in H8.
Defined.

(** ** The output buffer *)

Lemma appendOutput_short buf e :
  (length buf < 1000)%nat → appendOutput buf e = buf ++ [e].
Proof.
  intros H. unfold appendOutput. simpl.
  rewrite bool_decide_false; [done|]. rewrite length_app. simpl. lia.
Qed.

Lemma appendOutput_full buf e :
  (1000 ≤ length buf)%nat →
  appendOutput buf e = drop (length buf - 799) (buf ++ [e])
  ∧ length (appendOutput buf e) = 800%nat.
Proof.
  intros H. unfold appendOutput. simpl.
  rewrite bool_decide_true by (rewrite length_app; simpl; lia).
  rewrite length_app. simpl.
  replace (length buf + 1 - 800)%nat with (length buf - 799)%nat by lia.
  split; [done|]. rewrite length_drop, length_app. simpl. lia.
Qed.

Lemma appendOutput_bound buf e :
  (length buf ≤ 1000)%nat → (length (appendOutput buf e) ≤ 1000)%nat.
Proof.
  intros H. destruct (decide (length buf < 1000)%nat).
  - rewrite appendOutput_short by done. rewrite length_app. simpl. lia.
  - destruct (appendOutput_full buf e) as [_ ->]; lia.
Qed.

Lemma appendOutput_length buf e :
  length (appendOutput buf e) =
    if decide (length buf < 1000)%nat then S (length buf)
    else 800%nat.
Proof.
  case_decide.
  - rewrite appendOutput_short by done. rewrite length_app, Nat.add_comm. done.
  - by destruct (appendOutput_full buf e) as [_ ->]; [lia|].
Qed.

Lemma appendAll_length t ds :
  length (appendAll t [] ds) =
    if decide (length ds ≤ 1000)%nat then length ds
    else (800 + (length ds - 1001) mod 201)%nat.
Proof.
  induction ds as [|d ds IH] using rev_ind; [done|].
  unfold appendAll in *. rewrite foldl_app.
  change (foldl ?f ?b [d]) with (f b d). cbv beta.
  rewrite appendOutput_length, IH, length_app.
  change (length [d]) with 1%nat.
  pose proof (Nat.div_mod_eq (length ds - 1001) 201).
  pose proof (Nat.div_mod_eq (length ds + 1 - 1001) 201).
  pose proof (Nat.mod_upper_bound (length ds - 1001) 201).
  pose proof (Nat.mod_upper_bound (length ds + 1 - 1001) 201).
  generalize dependent ((length ds - 1001) mod 201)%nat.
  generalize dependent ((length ds + 1 - 1001) mod 201)%nat.
  generalize dependent ((length ds - 1001) / 201)%nat.
  generalize dependent ((length ds + 1 - 1001) / 201)%nat.
  intros. repeat case_decide; lia.
Qed.


(** ** Sending on a socket *)

Lemma pushSent_nil s : pushSent [] s = s.
Proof. destruct s. unfold pushSent. simpl. by rewrite app_nil_r. Qed.

Lemma pushSent_app m1 m2 s : pushSent m2 (pushSent m1 s) = pushSent (m1 ++ m2) s.
Proof. unfold pushSent. simpl. by rewrite app_assoc. Qed.

Lemma deliver_nil ws w : deliver ws [] w = w.
Proof.
  unfold deliver. rewrite list_alter_id by apply pushSent_nil.
  apply withSockets_same.
Qed.

Lemma deliver_app ws m1 m2 w :
  deliver ws m2 (deliver ws m1 w) = deliver ws (m1 ++ m2) w.
Proof.
  unfold deliver. destruct w; simpl. unfold withSockets; simpl. f_equal.
  rewrite list_alter_alter_eq. apply list_alter_ext; [|done].
  intros s _. apply pushSent_app.
Qed.

Lemma isOpen_deliver ws ws' ms w : isOpen ws (deliver ws' ms w) = isOpen ws w.
Proof.
  unfold isOpen, deliver. simpl.
  destruct (decide (ws' = ws)) as [->|Hne].
  - rewrite list_lookup_alter_eq. by destruct (sockets w !! ws).
  - by rewrite list_lookup_alter_ne.
Qed.

Lemma forEach_wsSend ws ms w :
  forEach (wsSend ws) ms w = ((), deliver ws ms w).
Proof.
  revert w. induction ms as [|m ms IH]; intros w; simpl.
  - by rewrite deliver_nil.
  - unfold mbind, M_bind. unfold wsSend at 1, modify.
    fold (deliver ws [m] w). rewrite IH, deliver_app. done.
Qed.

Lemma sendToWebSocket_spec ws d w :
  sendToWebSocket ws d w =
    ((), if isOpen ws w then deliver ws (wireMessages d) w else w).
Proof.
  unfold sendToWebSocket, isOpen, gets, mbind, M_bind. cbn.
  destruct (sockets w !! ws) as [s|]; [|done].
  destruct (decide (readyState s = OPEN)) as [E|E].
  - rewrite bool_decide_false by (intros ?; done).
    rewrite bool_decide_true by done. apply forEach_wsSend.
  - rewrite bool_decide_true by done. by rewrite bool_decide_false.
Qed.

Lemma forEach_sendToWebSocket {A} (f : A → list N) ws (l : list A) w :
  forEach (λ x, sendToWebSocket ws (f x)) l w =
    ((), if isOpen ws w
         then deliver ws (flat_map (λ x, wireMessages (f x)) l) w else w).
Proof.
  revert w. induction l as [|x l IH]; intros w; simpl.
  - rewrite deliver_nil. by destruct (isOpen ws w).
  - unfold mbind, M_bind. rewrite sendToWebSocket_spec.
    rewrite IH. destruct (isOpen ws w) eqn:E.
    + by rewrite isOpen_deliver, E, deliver_app.
    + by rewrite E.
Qed.

Lemma replayRecentOutput_spec l ws w :
  replayRecentOutput l ws w =
    ((), match heap w !! l with
         | Some s => if isOpen ws w
                     then deliver ws (replayMessages (outputBuffer s)) w
                     else w
         | None => w
         end).
Proof.
  unfold replayRecentOutput, readSession, gets, mbind, M_bind. cbn.
  destruct (heap w !! l) as [s|]; [|done].
  destruct (outputBuffer s) as [|e buf] eqn:E.
  - simpl. rewrite deliver_nil. by destruct (isOpen ws w).
  - rewrite bool_decide_false by (simpl; lia).
    rewrite sendToWebSocket_spec. rewrite forEach_sendToWebSocket.
    destruct (isOpen ws w) eqn:Ho.
    + rewrite isOpen_deliver, Ho. rewrite sendToWebSocket_spec.
      rewrite isOpen_deliver, isOpen_deliver, Ho.
      rewrite !deliver_app. unfold replayMessages. done.
    + rewrite Ho. rewrite sendToWebSocket_spec, Ho. done.
Qed.


Lemma trim_push e s :
  trimBuffer (pushEntry e s) = withOutputBuffer (appendOutput (outputBuffer s) e) s.
Proof. unfold trimBuffer, pushEntry, appendOutput. simpl. by case_bool_decide. Qed.

(** The listener's effect on the heap and on the sockets. *)
Lemma onDataListener_spec l d w :
  onDataListener l d w =
    ((), let w1 := withHeap
                     (alter (λ s, withOutputBuffer
                               (appendOutput (outputBuffer s)
                                  {| data := d; timestamp := now w |}) s)
                        l (heap w)) w in
         match heap w !! l with
         | Some s =>
             match isConnected s, currentWs s with
             | true, Some ws =>
                 if isOpen ws w then deliver ws (wireMessages d) w1 else w1
             | _, _ => w1
             end
         | None => w
         end).
Proof.
  unfold onDataListener, readSession, updateSession, dateNow, gets, modify,
    mbind, M_bind. cbn.
  rewrite list_alter_alter_eq. rewrite list_lookup_alter_eq.
  assert (alter (trimBuffer ∘ pushEntry {| data := d; timestamp := now w |})
            l (heap w)
          = alter (λ s, withOutputBuffer
                          (appendOutput (outputBuffer s)
                             {| data := d; timestamp := now w |}) s)
              l (heap w)) as ->.
  { apply list_alter_ext; [|done]. intros s _. apply trim_push. }
  destruct (heap w !! l) as [s|] eqn:E; simpl.
  - rewrite trim_push. simpl.
    destruct (isConnected s); [|done].
    destruct (currentWs s) as [ws|]; [|done].
    rewrite sendToWebSocket_spec. done.
  - rewrite !list_alter_None by done. by destruct w.
Qed.

(** ** Invariants *)

Lemma preserves_ret {A} I (x : A) : preserves I (mret x).
Proof. by intros w. Qed.

Lemma preserves_bind {A B} I (m : M A) (f : A → M B) :
  preserves I m → (∀ x, preserves I (f x)) → preserves I (m ≫= f).
Proof.
  intros Hm Hf w Hw. unfold exec, mbind, M_bind.
  specialize (Hm w Hw). unfold exec in Hm.
  destruct (m w) as [x w']. apply Hf, Hm.
Qed.

Lemma preserves_gets {A} I (f : World → A) : preserves I (gets f).
Proof. by intros w. Qed.

Lemma preserves_modify I f :
  (∀ w, I w → I (f w)) → preserves I (modify f).
Proof. intros H w Hw. by apply H. Qed.

Lemma preserves_forEach {A} I (f : A → M ()) l :
  (∀ x, preserves I (f x)) → preserves I (forEach f l).
Proof.
  intros H. induction l as [|x l IH]; simpl.
  - apply preserves_ret.
  - apply preserves_bind; [apply H|]. intros _. apply IH.
Qed.

(** One step of a syntax-directed proof that a computation preserves an
    invariant: through binds, loops and case distinctions. *)
Ltac preserve_step :=
  lazymatch goal with
  | |- preserves _ (mret _) => apply preserves_ret
  | |- preserves _ (gets _) => apply preserves_gets
  | |- preserves _ (mbind _ _) => apply preserves_bind; [|intros ?]
  | |- preserves _ (forEach _ _) => apply preserves_forEach; intros ?
  | |- preserves _ (match ?x with _ => _ end) => destruct x
  end.

(** A property of session records that every field update of the manager
    maintains holds of every record in every reachable state. *)
Section RecordInvariant.

Variable Q : SessionData → Prop.

Hypothesis Q_time : ∀ t s, Q s → Q (withLastActiveAt t s).
Hypothesis Q_size : ∀ c r s, Q s → Q (withSize c r s).
Hypothesis Q_attach : ∀ ws s, Q s → Q (withConnection true (Some ws) s).
Hypothesis Q_detach : ∀ s, Q s → Q (withConnection false None s).
Hypothesis Q_output :
  ∀ e s, Q s → Q (withOutputBuffer (appendOutput (outputBuffer s) e) s).
Hypothesis Q_new :
  ∀ p path sid t c r,
    Q {| ptyProcess := p; outputBuffer := []; projectPath := path;
         sessionId := sid; reconnectedSessionId := sid; createdAt := t;
         lastActiveAt := t; isConnected := false; currentWs := None;
         cols := c; rows := r |}.

Lemma heapAll_alter f l w :
  (∀ s, Q s → Q (f s)) →
  heapAll Q w → heapAll Q (withHeap (alter f l (heap w)) w).
Proof.
  intros Hf Hw l' s'. simpl. rewrite list_lookup_alter.
  case_decide as E.
  - subst l'. destruct (heap w !! l) as [s|] eqn:Hs; simpl; [|done].
    intros [= <-]. apply Hf. by eapply Hw.
  - apply Hw.
Qed.

Lemma heapAll_frame w w' :
  heap w' = heap w → heapAll Q w → heapAll Q w'.
Proof. unfold heapAll. by intros ->. Qed.

Lemma frame_heapAll {A} (m : M A) :
  (∀ w, heap (exec m w) = heap w) → preserves (heapAll Q) m.
Proof. intros H w. apply heapAll_frame, H. Qed.

Lemma updateSession_heapAll l f :
  (∀ s, Q s → Q (f s)) → preserves (heapAll Q) (updateSession l f).
Proof.
  intros Hf. apply preserves_modify. intros w. by apply heapAll_alter.
Qed.

Lemma updatePty_heapAll p f : preserves (heapAll Q) (updatePty p f).
Proof. by apply frame_heapAll. Qed.

Lemma sendToWebSocket_heapAll ws d :
  preserves (heapAll Q) (sendToWebSocket ws d).
Proof.
  apply frame_heapAll. intros w. unfold exec.
  rewrite sendToWebSocket_spec. simpl. by destruct (isOpen ws w).
Qed.

Lemma replayRecentOutput_heapAll l ws :
  preserves (heapAll Q) (replayRecentOutput l ws).
Proof.
  apply frame_heapAll. intros w. unfold exec.
  rewrite replayRecentOutput_spec. simpl.
  destruct (heap w !! l); [|done]. by destruct (isOpen ws w).
Qed.

Lemma onDataListener_heapAll l d :
  preserves (heapAll Q) (onDataListener l d).
Proof.
  intros w Hw. unfold exec. rewrite onDataListener_spec. simpl.
  assert (H1 : heapAll Q
    (withHeap (alter (λ s, withOutputBuffer
                 (appendOutput (outputBuffer s)
                    {| data := d; timestamp := now w |}) s) l (heap w)) w)).
  { apply heapAll_alter; [|done]. intros s. apply Q_output. }
  destruct (heap w !! l) as [s|]; [|done].
  destruct (isConnected s); [|done].
  destruct (currentWs s) as [ws|]; [|done].
  destruct (isOpen ws w); [|done].
  revert H1. by apply heapAll_frame.
Qed.

Lemma allocSession_heapAll s :
  Q s → preserves (heapAll Q) (allocSession s).
Proof.
  intros Hs w Hw l s'. unfold exec, allocSession. simpl.
  intros [H|[_ H]]%lookup_app_Some.
  - by eapply Hw.
  - apply list_lookup_singleton_Some in H as [_ <-]. done.
Qed.

Lemma ptySpawn_heapAll f a c r e :
  preserves (heapAll Q) (ptySpawn f a c r e).
Proof. by apply frame_heapAll. Qed.

Lemma acceptSocket_heapAll : preserves (heapAll Q) acceptSocket.
Proof. by apply frame_heapAll. Qed.

Ltac solve_heapAll :=
  repeat
    lazymatch goal with
    | |- preserves _ (onDataListener _ _) => apply onDataListener_heapAll
    | |- preserves _ (replayRecentOutput _ _) =>
        apply replayRecentOutput_heapAll
    | |- preserves _ (sendToWebSocket _ _) => apply sendToWebSocket_heapAll
    | |- preserves _ (updateSession _ _) =>
        apply updateSession_heapAll; intros;
        auto using Q_time, Q_size, Q_attach, Q_detach
    | |- preserves _ (updatePty _ _) => apply updatePty_heapAll
    | |- preserves _ (killTimerCallback _ _) =>
        unfold killTimerCallback, readSession, ptyKill
    | |- preserves _ (ptySpawn _ _ _ _ _) => apply ptySpawn_heapAll
    | |- preserves _ acceptSocket => apply acceptSocket_heapAll
    | |- preserves _ (allocSession _) =>
        apply allocSession_heapAll; apply Q_new
    | |- preserves _ (modify _) =>
        let w := fresh "w" in
        let Hw := fresh "Hw" in
        apply preserves_modify; intros w Hw;
        apply (heapAll_frame w); [reflexivity | exact Hw]
    | |- _ => preserve_step
    end.

Lemma step_heapAll e : preserves (heapAll Q) (step e).
Proof.
  destruct e; unfold step;
    unfold getOrCreateSession, resumeCreate, createSession,
      attachWebSocket, detachWebSocket,
      writeToSession, resizeSession, killSession, getSessionStatus,
      cleanupInactiveSessions, killTimerCallback, setKillTimeout,
      emitData, emitExit, advanceTime, socketClosed, onExitListener,
      readSession, dateNow, generateClaudeEnvVars,
      ptyWrite, ptyResize, andThen, ptyKill, ptyOnData, ptyOnExit, markExited,
      wsClose;
    solve_heapAll.
Qed.

Lemma run_heapAll es w : heapAll Q w → heapAll Q (run es w).
Proof. apply preserves_forEach. intros e. apply step_heapAll. Qed.

Lemma reachable_heapAll w : reachable w → heapAll Q w.
Proof.
  intros (t & e & es & ->). apply run_heapAll. by intros l s.
Qed.

End RecordInvariant.

Lemma reachable_bounded w : reachable w → buffersBounded w.
Proof.
  apply reachable_heapAll; simpl; intros;
    first [assumption | by apply appendOutput_bound | lia].
Qed.

(** In every reachable state the connection flag of a record is set
    exactly when the record refers to a socket. *)
Lemma reachable_consistent w : reachable w → connectionConsistent w.
Proof.
  apply reachable_heapAll; simpl; intros; try assumption.
  - split; [by eauto | done].
  - split; [done | by intros []].
  - split; [done | by intros []].
Qed.

Lemma onDataListener_heap l d w s :
  heap w !! l = Some s →
  heap (exec (onDataListener l d) w) !! l
  = Some (withOutputBuffer
            (appendOutput (outputBuffer s) {| data := d; timestamp := now w |})
            s)
  ∧ ptys (exec (onDataListener l d) w) = ptys w
  ∧ sessions (exec (onDataListener l d) w) = sessions w
  ∧ now (exec (onDataListener l d) w) = now w.
Proof.
  intros Hs. unfold exec. rewrite onDataListener_spec. simpl. rewrite Hs.
  assert (H1 : alter (λ s0, withOutputBuffer
                  (appendOutput (outputBuffer s0)
                     {| data := d; timestamp := now w |}) s0) l (heap w) !! l
               = Some (withOutputBuffer
                  (appendOutput (outputBuffer s)
                     {| data := d; timestamp := now w |}) s)).
  { by rewrite list_lookup_alter_eq, Hs. }
  destruct (isConnected s); [|done].
  destruct (currentWs s) as [ws|]; [|done].
  by destruct (isOpen ws w).
Qed.

Lemma emitData_listener p y l d w :
  ptys w !! p = Some y → exited y = false → dataListener y = Some l →
  emitData p d w = onDataListener l d w.
Proof.
  intros Hp He Hl. unfold emitData, gets, mbind, M_bind. cbn.
  by rewrite Hp, He, Hl.
Qed.

Lemma forEach_emitData p y l s ds w :
  ptys w !! p = Some y → exited y = false → dataListener y = Some l →
  heap w !! l = Some s →
  heap (exec (forEach (emitData p) ds) w) !! l
  = Some (withOutputBuffer (appendAll (now w) (outputBuffer s) ds) s).
Proof.
  intros Hp He Hl. revert w s Hp.
  induction ds as [|d ds IH]; intros w s Hp Hs.
  - cbn. rewrite Hs. by destruct s.
  - simpl. unfold exec, mbind, M_bind.
    rewrite (emitData_listener _ _ _ _ _ Hp He Hl).
    destruct (onDataListener_heap l d w s Hs) as (Hh & Hpt & _ & Hn).
    unfold exec in *. destruct (onDataListener l d w) as [[] w1].
    simpl in *. rewrite <- Hpt in Hp.
    rewrite (IH w1 _ Hp Hh). rewrite Hn. done.
Qed.

(** C4.  The output buffer never holds more than 1000 entries once an
    append has completed: this holds of every session record in every
    state the server can reach.  An append to a buffer of fewer than 1000
    entries adds the entry at the end; an append that takes the length
    past 1000 leaves exactly the most recent 800 entries, removed in one
    step.  In particular, over 1500 output events on a fresh session the
    length after each event is at most 1000, it equals the number of
    events up to the 1000th, and it is exactly 800 after the 1001st,
    which is the first trim. *)
Theorem outputBuffer_bounded :
  (∀ w, reachable w →
     ∀ l s, heap w !! l = Some s → (length (outputBuffer s) ≤ 1000)%nat)
  ∧ (∀ w l s d,
       heap w !! l = Some s →
       (length (outputBuffer s) ≤ 1000)%nat →
       let e := {| data := d; timestamp := now w |} in
       ∃ s', heap (exec (onDataListener l d) w) !! l = Some s'
         ∧ (length (outputBuffer s') ≤ 1000)%nat
         ∧ ((length (outputBuffer s) < 1000)%nat →
            outputBuffer s' = outputBuffer s ++ [e])
         ∧ (length (outputBuffer s) = 1000%nat →
            outputBuffer s' = drop 201 (outputBuffer s ++ [e])
            ∧ length (outputBuffer s') = 800%nat))
  ∧ (∀ w p y l s ds (n : nat),
       ptys w !! p = Some y → exited y = false → dataListener y = Some l →
       heap w !! l = Some s → outputBuffer s = [] →
       length ds = 1500%nat → (n ≤ 1500)%nat →
       ∃ s', heap (run (EData p <$> take n ds) w) !! l = Some s'
         ∧ (length (outputBuffer s') ≤ 1000)%nat
         ∧ ((n ≤ 1000)%nat → length (outputBuffer s') = n)
         ∧ (n = 1001%nat → length (outputBuffer s') = 800%nat)).
Proof.
  split; [exact reachable_bounded|]. split.
  - intros w l s d Hs Hlen e.
    destruct (onDataListener_heap l d w s Hs) as (Hh & _).
    eexists. split; [exact Hh|]. simpl. fold e.
    split; [by apply appendOutput_bound|]. split.
    + intros Hlt. by apply appendOutput_short.
    + intros Heq. destruct (appendOutput_full (outputBuffer s) e) as [E1 E2];
        [lia|]. rewrite Heq in E1. done.
  - intros w p y l s ds n Hp He Hl Hs Hbuf Hds Hn.
    assert (Hrun : ∀ es, run (EData p <$> es) w = exec (forEach (emitData p) es) w).
    { intros es. unfold run. f_equal. induction es as [|x es IH]; [done|].
      rewrite fmap_cons. simpl. by rewrite IH. }
    rewrite Hrun, (forEach_emitData _ _ _ _ _ _ Hp He Hl Hs).
    eexists. split; [done|]. simpl. rewrite Hbuf, appendAll_length.
    rewrite length_take, Hds.
    replace (n `min` 1500)%nat with n by lia.
    repeat split.
    + case_decide; [done|].
      pose proof (Nat.mod_upper_bound (n - 1001) 201). lia.
    + intros ?. by rewrite decide_True.
    + intros ->. done.
Qed.


Lemma outputBuffer_bounded_witness :
  reachable bufferedSession
  ∧ (∀ l s, heap bufferedSession !! l = Some s →
            (length (outputBuffer s) ≤ 1000)%nat)
  ∧ (∃ s', heap (exec (onDataListener 0 (js "x")) oneSession) !! 0%nat
           = Some s'
         ∧ (length (outputBuffer s') ≤ 1000)%nat)
  ∧ (∃ s', heap (run (EData 0 <$> take 1001 (replicate 1500 (js "x")))
                   oneSession) !! 0%nat = Some s'
         ∧ length (outputBuffer s') = 800%nat).
Proof.
  assert (Hr : reachable bufferedSession).
  { exists 0%Z, [],
      [EGetOrCreate (js "/p") None 80 24; EAccept; EData 0 (js "hello");
       EData 0 (js "OPEN_URL: http://x.y/z ok")].
    vm_compute. reflexivity. }
  assert (Hs : heap oneSession !! 0%nat = Some sampleRecord)
    by (vm_compute; reflexivity).
  assert (Hy : ∃ y, ptys oneSession !! 0%nat = Some y ∧ exited y = false
                    ∧ dataListener y = Some 0%nat)
    by (eexists; vm_compute; repeat split; reflexivity).
  destruct Hy as (y & Hy & He & Hl).
  assert (H0 : (length (outputBuffer sampleRecord) ≤ 1000)%nat)
    by (simpl; lia).
  assert (H1500 : length (replicate 1500 (js "x")) = 1500%nat)
    by apply length_replicate.
  assert (Hn : (1001 ≤ 1500)%nat) by lia.
  split; [exact Hr|].
  split; [exact (proj1 outputBuffer_bounded _ Hr)|].
  split.
  - destruct (proj1 (proj2 outputBuffer_bounded) oneSession 0%nat
                sampleRecord (js "x") Hs H0) as (s' & Hs' & Hb & _).
    exists s'. split; [exact Hs'|exact Hb].
  - destruct (proj2 (proj2 outputBuffer_bounded) oneSession 0%nat y 0%nat
                sampleRecord (replicate 1500 (js "x")) 1001%nat
                Hy He Hl Hs eq_refl H1500 Hn) as (s' & Hs' & _ & _ & Hb).
    exists s'. split; [exact Hs'|exact (Hb eq_refl)].
Defined.

(** ** Attaching a socket *)

Lemma attachWebSocket_spec P b w l s :
  sessions w !! generateSessionKey P = Some l →
  heap w !! l = Some s →
  attachWebSocket P b w =
    (true,
     let w1 := closePrevious s w in
     let w2 := withHeap
                 (alter (λ s, withLastActiveAt (now w)
                                (withConnection true (Some b) s))
                    l (heap w)) w1 in
     if isOpen b w1
     then deliver b (replayMessages (outputBuffer s)) w2 else w2).
Proof.
  intros Hk Hs. unfold attachWebSocket, readSession, updateSession, dateNow,
    wsClose, gets, modify, mbind, M_bind. cbn. rewrite Hk. cbn. rewrite Hs.
  unfold closePrevious.
  destruct (isConnected s); [destruct (currentWs s) as [a|]|];
    cbn; rewrite replayRecentOutput_spec; cbn;
    rewrite list_lookup_alter_eq, Hs; cbn; unfold isOpen; cbn;
    try (destruct (alter closing a (sockets w) !! b) as [sb|]; [|done]);
    try (destruct (sockets w !! b) as [sb|]; [|done]);
    by case_bool_decide.
Qed.

Lemma readyState_closing sa : readyState (closing sa) ≠ OPEN.
Proof. unfold closing. simpl. by destruct (readyState sa). Qed.

Lemma getSessionStatus_existing P w l s :
  sessions w !! generateSessionKey P = Some l →
  heap w !! l = Some s →
  getSessionStatus P w =
    (Existing (generateSessionKey P)
       {| st_isConnected := isConnected s;
          st_createdAt := createdAt s;
          st_lastActiveAt := lastActiveAt s;
          st_projectPath := projectPath s;
          st_sessionId := sessionId s;
          st_reconnectedSessionId := reconnectedSessionId s;
          st_processId := ptyProcess s;
          st_bufferSize := length (outputBuffer s);
          st_cols := cols s;
          st_rows := rows s |}, w).
Proof.
  intros Hk Hs. unfold getSessionStatus, readSession, gets, mbind, M_bind.
  cbn. rewrite Hk. cbn. by rewrite Hs.
Qed.

Lemma boundTransports_le_1 s : (length (boundTransports s) ≤ 1)%nat.
Proof.
  unfold boundTransports. destruct (isConnected s), (currentWs s); simpl; lia.
Qed.

(** What [attachWebSocket] leaves in the stores. *)
Lemma attachWebSocket_frame P b w l s :
  sessions w !! generateSessionKey P = Some l →
  heap w !! l = Some s →
  let w' := exec (attachWebSocket P b) w in
  heap w' !! l = Some (withLastActiveAt (now w) (withConnection true (Some b) s))
  ∧ ptys w' = ptys w ∧ sessions w' = sessions w ∧ now w' = now w
  ∧ timers w' = timers w
  ∧ sockets w' =
      if isOpen b (closePrevious s w)
      then alter (pushSent (replayMessages (outputBuffer s))) b
             (sockets (closePrevious s w))
      else sockets (closePrevious s w).
Proof.
  intros Hk Hs w'. unfold w', exec.
  rewrite (attachWebSocket_spec _ _ _ _ _ Hk Hs). cbn.
  assert (Hc : ptys (closePrevious s w) = ptys w
               ∧ sessions (closePrevious s w) = sessions w
               ∧ now (closePrevious s w) = now w
               ∧ timers (closePrevious s w) = timers w).
  { unfold closePrevious. by destruct (isConnected s), (currentWs s). }
  destruct Hc as (? & ? & ? & ?).
  destruct (isOpen b (closePrevious s w)); cbn;
    rewrite list_lookup_alter_eq, Hs; done.
Qed.

(** C2.  Attaching socket [b] to a session bound to socket [a] closes
    [a] (the socket only: no PTY is written to, signalled or removed, and
    the registry is unchanged) and leaves [b] as the one bound socket; a
    status query right after reports the session as connected, and later
    PTY output reaches no socket other than [b].  A session record has
    room for one socket only, so the number of bound sockets is 0 or 1 in
    every state; in every state the server can reach it is 1 exactly
    when the session is flagged as connected. *)
Theorem attachWebSocket_exclusive w P l s a b :
  sessions w !! generateSessionKey P = Some l →
  heap w !! l = Some s →
  isConnected s = true →
  currentWs s = Some a →
  let w' := exec (attachWebSocket P b) w in
  eval (attachWebSocket P b) w = true
  ∧ (∃ s', heap w' !! l = Some s'
           ∧ boundTransports s' = [b]
           ∧ ptyProcess s' = ptyProcess s
           ∧ outputBuffer s' = outputBuffer s)
  ∧ (∀ sa, sockets w !! a = Some sa →
           sockets w' !! a = Some (closing sa)
           ∧ readyState (closing sa) ≠ OPEN)
  ∧ ptys w' = ptys w
  ∧ sessions w' = sessions w
  ∧ connected (eval (getSessionStatus P) w') = true
  ∧ (∀ d x, x ≠ b →
       sockets (exec (onDataListener l d) w') !! x = sockets w' !! x)
  ∧ (∀ w0 l0 s0, heap w0 !! l0 = Some s0 →
       (length (boundTransports s0) ≤ 1)%nat)
  ∧ (∀ w0 l0 s0, reachable w0 → heap w0 !! l0 = Some s0 →
       length (boundTransports s0) = if isConnected s0 then 1%nat else 0%nat).
Proof.
  intros Hk Hs Hc Ha w'.
  destruct (attachWebSocket_frame P b w l s Hk Hs)
    as (Hh & Hp & Hm & Hn & Ht & Hso). fold w' in Hh, Hp, Hm, Hn, Ht, Hso.
  assert (Hcp : closePrevious s w
                = withSockets (alter closing a (sockets w)) w).
  { unfold closePrevious. by rewrite Hc, Ha. }
  split.
  { unfold eval. by rewrite (attachWebSocket_spec _ _ _ _ _ Hk Hs). }
  split.
  { eexists. split; [exact Hh|]. done. }
  split.
  { intros sa Hsa. split; [|apply readyState_closing].
    rewrite Hso, Hcp.
    destruct (decide (a = b)) as [<-|Hne].
    - assert (isOpen a (withSockets (alter closing a (sockets w)) w) = false)
        as ->.
      { unfold isOpen. cbn. rewrite list_lookup_alter_eq, Hsa. cbn.
        apply bool_decide_false, readyState_closing. }
      cbn. by rewrite list_lookup_alter_eq, Hsa.
    - destruct (isOpen b (withSockets (alter closing a (sockets w)) w)); cbn.
      + rewrite list_lookup_alter_ne by done.
        by rewrite list_lookup_alter_eq, Hsa.
      + by rewrite list_lookup_alter_eq, Hsa. }
  split; [done|]. split; [done|].
  split.
  { unfold eval.
    rewrite (getSessionStatus_existing P w' l _ ltac:(by rewrite Hm) Hh).
    done. }
  split; [|split; [intros; apply boundTransports_le_1|]].
  - intros d x Hx. unfold exec at 1. rewrite onDataListener_spec. simpl.
    rewrite Hh. simpl.
    destruct (isOpen b w'); [|done]. simpl.
    by rewrite list_lookup_alter_ne.
  - intros w0 l0 s0 Hr Hs0.
    pose proof (reachable_consistent w0 Hr l0 s0 Hs0) as Hcons.
    simpl in Hcons. unfold boundTransports.
    destruct (isConnected s0), (currentWs s0) as [ws|]; try done.
    destruct (proj1 Hcons eq_refl) as [? [=]].
Qed.

Lemma attachWebSocket_exclusive_witness :
  let w' := exec (attachWebSocket (js "/p") 1) attachedSession in
  sessions attachedSession !! generateSessionKey (js "/p") = Some 0%nat
  ∧ boundTransports <$> heap attachedSession !! 0%nat = Some [0%nat]
  ∧ boundTransports <$> heap w' !! 0%nat = Some [1%nat]
  ∧ readyState <$> sockets w' !! 0%nat = Some CLOSING
  ∧ connected (eval (getSessionStatus (js "/p")) w') = true.
Proof.
  intros w'.
  assert (Hk : sessions attachedSession !! generateSessionKey (js "/p")
               = Some 0%nat) by (vm_compute; reflexivity).
  assert (Hs : ∃ s, heap attachedSession !! 0%nat = Some s
                    ∧ isConnected s = true ∧ currentWs s = Some 0%nat).
  { eexists. vm_compute. repeat split; reflexivity. }
  destruct Hs as (s & Hs & Hc & Ha).
  destruct (attachWebSocket_exclusive attachedSession (js "/p") 0%nat s
              0%nat 1%nat Hk Hs Hc Ha)
    as (_ & (s' & Hs' & Hb & _) & _ & _ & _ & Hst & _).
  split; [exact Hk|].
  split; [vm_compute; reflexivity|].
  split; [fold w' in Hs'; by rewrite Hs', <- Hb|].
  split; [vm_compute; reflexivity|exact Hst].
Defined.

(** ** Texts in which no URL is found *)

Lemma star_fails {R} cls s (k : list N → option R) :
  (∀ t, t `suffix_of` s → k t = None) → Regex.star cls s k = None.
Proof.
  induction s as [|c s IH]; intros Hk; simpl.
  - by apply Hk.
  - rewrite IH.
    + rewrite Hk by done. by destruct (cls c).
    + intros t Ht. apply Hk. by apply suffix_cons_r.
Qed.

Lemma rmatch_fails {R} ic r : ∀ s cap (k : list N → option (list N) → option R),
  (∀ t cap', t `suffix_of` s → k t cap' = None) →
  Regex.rmatch ic r s cap k = None.
Proof.
  induction r as [l|a IHa b IHb|a IHa b IHb|a IHa|cls|cls|a IHa];
    intros s cap k Hk; simpl.
  - destruct (startsWithBy _ l s); [|done]. apply Hk, suffix_drop.
  - rewrite IHa by done. by apply IHb.
  - apply IHa. intros t cap' Ht. apply IHb. intros t' cap'' Ht'.
    apply Hk. by etrans.
  - rewrite IHa by done. by apply Hk.
  - apply star_fails. intros t Ht. by apply Hk.
  - destruct s as [|c s]; [done|]. destruct (cls c); [|done].
    apply star_fails. intros t Ht. apply Hk. by apply suffix_cons_r.
  - apply IHa. intros t cap' Ht. by apply Hk.
Qed.

Lemma rmatch_seq {R} ic a b s cap (k : list N → option (list N) → option R) :
  Regex.rmatch ic (Regex.Seq a b) s cap k
  = Regex.rmatch ic a s cap (λ rest cap', Regex.rmatch ic b rest cap' k).
Proof. done. Qed.

Lemma canonicalize_h ic c :
  c ≠ 104 → c ≠ 72 →
  (Regex.canonicalize ic 104 =? Regex.canonicalize ic c) = false.
Proof.
  intros H1 H2. apply N.eqb_neq. unfold Regex.canonicalize.
  destruct ic; simpl; [|done].
  destruct (97 <=? c) eqn:E1; simpl; [|lia].
  destruct (c <=? 122) eqn:E2; simpl; lia.
Qed.

Lemma urlGroup_fails {R} ic s cap (k : list N → option (list N) → option R) :
  noH s → Regex.rmatch ic urlGroup s cap k = None.
Proof.
  intros Hs. unfold urlGroup. simpl.
  destruct s as [|c s]; [done|].
  apply Forall_cons in Hs as [[H1 H2] _].
  change (js "http") with [104; 116; 116; 112]. simpl.
  by rewrite canonicalize_h.
Qed.

Lemma noH_suffix s t : t `suffix_of` s → noH s → noH t.
Proof. intros [u ->] H. by apply Forall_app in H as [_ H]. Qed.

Lemma pattern_fails p s :
  p ∈ patterns → noH s → Regex.matchHere (ignoreCase p) (re p) s = None.
Proof.
  intros Hp Hs. unfold Regex.matchHere.
  assert (Hg : ∀ {R} ic a b (k : list N → option (list N) → option R),
             Regex.rmatch ic (Regex.Seq a (Regex.Seq b urlGroup)) s None k
             = None).
  { intros R ic a b k. rewrite rmatch_seq.
    apply rmatch_fails. intros t cap' Ht. rewrite rmatch_seq.
    apply rmatch_fails. intros t' cap'' Ht'.
    apply urlGroup_fails. eapply noH_suffix; [|done]. by etrans. }
  unfold patterns in Hp. repeat (apply elem_of_cons in Hp as [->|Hp]);
    [apply Hg..|]. by apply elem_of_nil in Hp.
Qed.

Lemma execAll_noH p s skip :
  p ∈ patterns → noH s → Regex.execAll (ignoreCase p) (re p) s skip = [].
Proof.
  intros Hp. revert skip. induction s as [|c s IH]; intros skip Hs; [done|].
  simpl. destruct skip as [|n].
  - rewrite pattern_fails by done. apply IH.
    by apply Forall_cons in Hs as [_ ?].
  - apply IH. by apply Forall_cons in Hs as [_ ?].
Qed.

Lemma scanUrls_noH d : noH d → scanUrls d = ([], d).
Proof.
  intros Hd. unfold scanUrls.
  assert (Hp : ∀ p st, p ∈ patterns → scanPattern d st p = st).
  { intros p st Hp. unfold scanPattern. by rewrite execAll_noH. }
  generalize (([] : list WsMessage), d).
  induction patterns as [|p ps IH]; intros st; [done|]. simpl.
  rewrite Hp by (apply elem_of_cons; by left).
  apply IH. intros q st' Hq. apply Hp. apply elem_of_cons. by right.
Qed.

Lemma wireMessages_noH d : noH d → wireMessages d = [Output d].
Proof. intros H. unfold wireMessages. by rewrite scanUrls_noH. Qed.

Lemma outputText_noH d : noH d → outputText d = d.
Proof. intros H. unfold outputText. by rewrite scanUrls_noH. Qed.

Lemma string_of_uint_digits d :
  Forall (λ c, 48 ≤ c ≤ 57) (js (NilEmpty.string_of_uint d)).
Proof.
  induction d; simpl; [by constructor|..];
    (apply Forall_cons; split; [vm_compute; split; discriminate | exact IHd]).
Qed.

Lemma numberToString_digits n : Forall (λ c, 48 ≤ c ≤ 57) (numberToString n).
Proof.
  unfold numberToString, NilZero.string_of_uint.
  destruct (Nat.to_uint n); try apply string_of_uint_digits.
  repeat constructor; vm_compute; discriminate.
Qed.

Lemma noH_js_decide s : forallb (λ c, negb (c =? 104) && negb (c =? 72)) s = true → noH s.
Proof.
  intros H. apply Forall_forall. intros c Hc.
  rewrite forallb_forall in H. specialize (H c).
  rewrite <- list_elem_of_In in H. specialize (H Hc).
  apply andb_true_iff in H as [H1 H2].
  apply negb_true_iff, N.eqb_neq in H1, H2. done.
Qed.

Lemma restoringMarker_noH n : noH (restoringMarker n).
Proof.
  unfold restoringMarker, noH. repeat apply Forall_app_2.
  all: try (apply noH_js_decide; vm_compute; reflexivity).
  eapply Forall_impl; [apply numberToString_digits|]. simpl. lia.
Qed.

Lemma endMarker_noH : noH endMarker.
Proof. apply noH_js_decide. vm_compute. reflexivity. Qed.

(** ** Replay *)

Lemma outputsOf_app m1 m2 : outputsOf (m1 ++ m2) = outputsOf m1 ++ outputsOf m2.
Proof. apply omap_app. Qed.

(** While scanning, only [url_open] messages are sent. *)
Lemma scanPattern_urlOpen d st p :
  outputsOf st.1 = [] → outputsOf (scanPattern d st p).1 = [].
Proof.
  unfold scanPattern. revert st.
  induction (Regex.execAll (ignoreCase p) (re p) d 0) as [|[m0 url] ms IH];
    intros [sent outputData] H; [done|].
  simpl. apply IH. simpl in *. by rewrite outputsOf_app, H.
Qed.

Lemma scanUrls_urlOpen d : outputsOf (scanUrls d).1 = [].
Proof.
  unfold scanUrls.
  assert (H : ∀ ps st, outputsOf st.1 = [] →
                outputsOf (foldl (scanPattern d) st ps).1 = []).
  { induction ps as [|p ps IH]; intros st H; [done|].
    simpl. apply IH. by apply scanPattern_urlOpen. }
  by apply H.
Qed.

Lemma outputsOf_wireMessages d : outputsOf (wireMessages d) = [outputText d].
Proof.
  unfold wireMessages, outputText. pose proof (scanUrls_urlOpen d) as H.
  destruct (scanUrls d) as [sent outputData]. simpl in *.
  by rewrite outputsOf_app, H.
Qed.

Lemma outputsOf_flat_map (buf : list BufferEntry) :
  outputsOf (flat_map (λ item, wireMessages (data item)) buf)
  = map (λ item, outputText (data item)) buf.
Proof.
  induction buf as [|e buf IH]; [done|]. simpl.
  by rewrite outputsOf_app, outputsOf_wireMessages, IH.
Qed.

Lemma outputsOf_replayMessages buf :
  buf ≠ [] →
  outputsOf (replayMessages buf)
  = restoringMarker (length buf)
    :: map (λ item, outputText (data item)) buf ++ [endMarker].
Proof.
  intros H. destruct buf as [|e buf]; [done|]. unfold replayMessages.
  rewrite !outputsOf_app, !outputsOf_wireMessages, outputsOf_flat_map.
  rewrite (outputText_noH _ (restoringMarker_noH _)).
  by rewrite (outputText_noH _ endMarker_noH).
Qed.

(** The text is only rewritten where the [OPEN_URL] pattern matches. *)
Lemma outputText_unchanged d :
  Regex.execAll (ignoreCase openUrlPattern) (re openUrlPattern) d 0 = [] →
  outputText d = d.
Proof.
  intros H. unfold outputText, scanUrls, patterns.
  assert (Hkeep : ∀ p st, includes (js "OPEN_URL") (source p) = false →
            (scanPattern d st p).2 = st.2).
  { intros p st Hp. unfold scanPattern. rewrite Hp. revert st.
    induction (Regex.execAll (ignoreCase p) (re p) d 0) as [|[m0 url] ms IH];
      intros [sent outputData]; [done|]. simpl. by rewrite IH. }
  assert (Hopen : ∀ st, scanPattern d st openUrlPattern = st).
  { intros st. unfold scanPattern. by rewrite H. }
  simpl. rewrite !Hkeep by (by vm_compute). rewrite Hopen.
  by rewrite Hkeep by (by vm_compute).
Qed.

(** C3, as amended.  Attaching an open socket to a session with no bound
    socket sends it the replay of the buffer and nothing else.  For a
    buffer of [N >= 1] entries the [output] messages of the replay are
    the marker announcing [N] entries, then one message per entry in the
    order of the buffer, then the closing marker; the text of an entry
    goes through the URL detector, which leaves it as it is unless it
    holds an [OPEN_URL] marker.  For an empty buffer nothing is sent, no
    marker either.  Output the PTY produces afterwards comes after the
    replay on that socket. *)
Theorem attachWebSocket_replay w P l s b sb :
  sessions w !! generateSessionKey P = Some l →
  heap w !! l = Some s →
  isConnected s = false →
  sockets w !! b = Some sb →
  readyState sb = OPEN →
  let w' := exec (attachWebSocket P b) w in
  let buf := outputBuffer s in
  eval (attachWebSocket P b) w = true
  ∧ sockets w' !! b = Some (pushSent (replayMessages buf) sb)
  ∧ (buf = [] → replayMessages buf = [])
  ∧ (buf ≠ [] →
       outputsOf (replayMessages buf)
       = restoringMarker (length buf)
         :: map (λ item, outputText (data item)) buf ++ [endMarker])
  ∧ (∀ d, Regex.execAll (ignoreCase openUrlPattern) (re openUrlPattern) d 0
          = [] → outputText d = d)
  ∧ (∀ d, sockets (exec (onDataListener l d) w') !! b
          = Some (pushSent (replayMessages buf ++ wireMessages d) sb)).
Proof.
  intros Hk Hs Hc Hb Ho w' buf.
  destruct (attachWebSocket_frame P b w l s Hk Hs)
    as (Hh & Hp & Hm & Hn & Ht & Hso). fold w' in Hh, Hp, Hm, Hn, Ht, Hso.
  assert (Hcp : closePrevious s w = w).
  { unfold closePrevious. by rewrite Hc. }
  assert (Hopen : isOpen b w = true).
  { unfold isOpen. rewrite Hb. by apply bool_decide_true. }
  rewrite Hcp, Hopen in Hso.
  assert (Hb' : sockets w' !! b = Some (pushSent (replayMessages buf) sb)).
  { by rewrite Hso, list_lookup_alter_eq, Hb. }
  split.
  { unfold eval. by rewrite (attachWebSocket_spec _ _ _ _ _ Hk Hs). }
  split; [exact Hb'|].
  split; [by intros ->|].
  split; [apply outputsOf_replayMessages|].
  split; [apply outputText_unchanged|].
  intros d. unfold exec at 1. rewrite onDataListener_spec. cbn.
  rewrite Hh. cbn.
  assert (isOpen b w' = true) as ->.
  { unfold isOpen. rewrite Hb'. by apply bool_decide_true. }
  cbn. rewrite list_lookup_alter_eq, Hb'. cbn. by rewrite pushSent_app.
Qed.

Lemma attachWebSocket_replay_witness :
  let w := bufferedSession in
  let w' := exec (attachWebSocket (js "/p") 0) w in
  sockets w' !! 0%nat
  = Some (pushSent (replayMessages
            [ {| data := js "hello"; timestamp := 0 |};
              {| data := js "OPEN_URL: http://x.y/z ok"; timestamp := 0 |} ])
            {| readyState := OPEN; sent := [] |}).
Proof.
  refine (proj1 (proj2 (attachWebSocket_replay bufferedSession (js "/p") 0%nat
    {| ptyProcess := 0; outputBuffer :=
         [ {| data := js "hello"; timestamp := 0 |};
           {| data := js "OPEN_URL: http://x.y/z ok"; timestamp := 0 |} ];
       projectPath := js "/p";
       sessionId := None; reconnectedSessionId := None; createdAt := 0;
       lastActiveAt := 0; isConnected := false; currentWs := None;
       cols := 80; rows := 24 |} 0%nat {| readyState := OPEN; sent := [] |}
    _ _ _ _ _)));
    vm_compute; reflexivity.
Defined.

(** On a new session, whose buffer is empty, the replay sends no marker:
    the bracketed replay the specification describes does not take
    place. *)
Lemma attachWebSocket_replay_empty : ¬ replayBracketed oneSessionOneSocket (js "/p") 0.
Proof.
  intros H.
  destruct (H 0%nat sampleRecord {| readyState := OPEN; sent := [] |})
    as (sb' & Hsb & Hout); try (vm_compute; reflexivity).
  vm_compute in Hsb. injection Hsb as <-.
  vm_compute in Hout. discriminate Hout.
Qed.

(** ** The idle sweep *)

Lemma cleanupInactiveSessions_unfold w :
  cleanupInactiveSessions w = forEach sweepOne (sessionsToDelete w) w.
Proof. done. Qed.

Lemma signalled_0 y : signalled 0 y = y.
Proof.
  destruct y. unfold signalled, signalledWith. simpl. by rewrite app_nil_r.
Qed.

Lemma signalled_S n y : signalled n (signalled 1 y) = signalled (S n) y.
Proof. unfold signalled, signalledWith. simpl. by rewrite <- app_assoc. Qed.

Lemma sweepOne_spec key w :
  sweepOne key w =
    ((), withSessions (delete key (sessions w))
           match sessions w !! key with
           | Some l =>
               match heap w !! l with
               | Some s => withPtys (alter (signalled 1) (ptyProcess s) (ptys w)) w
               | None => w
               end
           | None => w
           end).
Proof.
  unfold sweepOne, readSession, ptyKill, updatePty, gets, modify, mbind,
    M_bind. cbn.
  destruct (sessions w !! key) as [l|]; cbn; [|done].
  destruct (heap w !! l) as [s|]; cbn; done.
Qed.

Lemma sweep_spec keys : ∀ w,
  NoDup keys →
  let w' := exec (forEach sweepOne keys) w in
  (∀ k, sessions w' !! k = if decide (k ∈ keys) then None else sessions w !! k)
  ∧ heap w' = heap w ∧ sockets w' = sockets w ∧ timers w' = timers w
  ∧ now w' = now w
  ∧ (∀ p y, ptys w !! p = Some y → ∃ n, ptys w' !! p = Some (signalled n y))
  ∧ (∀ k l s y, k ∈ keys → sessions w !! k = Some l → heap w !! l = Some s →
       ptys w !! ptyProcess s = Some y →
       ∃ n, ptys w' !! ptyProcess s = Some (signalled (S n) y)).
Proof.
  induction keys as [|key keys IH]; intros w Hnd.
  { cbn. repeat split; try done.
    - intros p y Hy. exists 0%nat. by rewrite signalled_0.
    - intros k l s y Hk. by apply elem_of_nil in Hk. }
  apply NoDup_cons in Hnd as [Hnotin Hnd].
  assert (Hstep : exec (forEach sweepOne (key :: keys)) w
                  = exec (forEach sweepOne keys) (exec (sweepOne key) w)).
  { unfold exec. cbn [forEach]. unfold mbind, M_bind.
    by destruct (sweepOne key w) as [[] w1]. }
  rewrite Hstep. clear Hstep. unfold exec at 2. rewrite sweepOne_spec.
  cbn [snd]. set (w1 := withSessions _ _).
  specialize (IH w1 Hnd). cbv zeta in IH.
  set (w2 := exec (forEach sweepOne keys) w1) in *.
  destruct IH as (Hs & Hh & Hso & Ht & Hn & Hp & Hk).
  assert (Hw1 : heap w1 = heap w ∧ sockets w1 = sockets w
                ∧ timers w1 = timers w ∧ now w1 = now w
                ∧ sessions w1 = delete key (sessions w)).
  { unfold w1. destruct (sessions w !! key) as [l|]; [|done].
    by destruct (heap w !! l). }
  destruct Hw1 as (Hh1 & Hso1 & Ht1 & Hn1 & Hs1).
  assert (Hp1 : ∀ p y, ptys w !! p = Some y →
                  ∃ n, ptys w1 !! p = Some (signalled n y)).
  { intros p y Hy. unfold w1.
    destruct (sessions w !! key) as [l|];
      [|exists 0%nat; by rewrite signalled_0].
    destruct (heap w !! l) as [s|];
      [|exists 0%nat; by rewrite signalled_0].
    cbn. destruct (decide (ptyProcess s = p)) as [->|Hne].
    - exists 1%nat. by rewrite list_lookup_alter_eq, Hy.
    - exists 0%nat. by rewrite list_lookup_alter_ne, signalled_0. }
  cbv zeta. split; [|split; [congruence|split; [congruence|split; [congruence|
    split; [congruence|split]]]]].
  - intros k. rewrite Hs, Hs1.
    destruct (decide (k ∈ keys)) as [Hin|Hin];
      destruct (decide (k ∈ key :: keys)) as [Hin'|Hin']; try done.
    + exfalso. apply Hin'. apply elem_of_cons. by right.
    + apply elem_of_cons in Hin' as [->|?]; [|done]. apply lookup_delete_eq.
    + apply lookup_delete_ne. intros ->. apply Hin'. apply elem_of_cons.
      by left.
  - intros p y Hy. destruct (Hp1 p y Hy) as [n1 Hy1].
    destruct (Hp p _ Hy1) as [n2 Hy2]. exists (n1 + n2)%nat.
    rewrite Hy2. f_equal. unfold signalled, signalledWith. simpl.
    by rewrite <- app_assoc, replicate_add.
  - intros k l s y Hin Hkl Hls Hy.
    apply elem_of_cons in Hin as [->|Hin].
    + assert (ptys w1 !! ptyProcess s = Some (signalled 1 y)) as Hy1.
      { unfold w1. rewrite Hkl, Hls. cbn.
        by rewrite list_lookup_alter_eq, Hy. }
      destruct (Hp _ _ Hy1) as [n Hy2]. exists n.
      by rewrite Hy2, signalled_S.
    + assert (k ≠ key) as Hne by (intros ->; done).
      destruct (Hp1 _ _ Hy) as [n1 Hy1].
      destruct (Hk k l s (signalled n1 y) Hin) as [n2 Hy2].
      * by rewrite Hs1, lookup_delete_ne.
      * by rewrite Hh1.
      * exact Hy1.
      * exists (n1 + n2)%nat. rewrite Hy2. f_equal.
        unfold signalled, signalledWith. simpl.
        rewrite <- app_assoc. f_equal.
        change (None :: replicate n2 None)
          with (replicate (S n2) (None : option (list N))).
        change (None :: replicate (n1 + n2) None)
          with (replicate (S (n1 + n2)) (None : option (list N))).
        replace (S (n1 + n2)) with (n1 + S n2)%nat by lia.
        by rewrite replicate_add.
Qed.

Lemma sessionsToDelete_elem w k :
  k ∈ sessionsToDelete w ↔
  ∃ l s, sessions w !! k = Some l ∧ heap w !! l = Some s
         ∧ inactive (now w - 2 * 60 * 60 * 1000)%Z s = true.
Proof.
  unfold sessionsToDelete. rewrite list_elem_of_omap. split.
  - intros ([k' l] & Hin & Hf). apply elem_of_map_to_list in Hin.
    destruct (heap w !! l) as [s|] eqn:Hs; simpl in Hf; [|done].
    destruct (inactive _ s) eqn:Hi; [|done].
    injection Hf as <-. by exists l, s.
  - intros (l & s & Hk & Hs & Hi). exists (k, l).
    split; [by apply elem_of_map_to_list|]. cbv beta iota. rewrite Hs.
    cbn [mbind option_bind]. by rewrite Hi.
Qed.

Lemma sessionsToDelete_NoDup w : NoDup (sessionsToDelete w).
Proof.
  unfold sessionsToDelete.
  apply (sublist_NoDup _ ((map_to_list (sessions w)).*1));
    [apply NoDup_fst_map_to_list|].
  induction (map_to_list (sessions w)) as [|[k l] ms IH]; [done|].
  simpl. destruct (heap w !! l) as [s|]; simpl.
  - destruct (inactive _ s); [by apply sublist_skip|by apply sublist_cons].
  - by apply sublist_cons.
Qed.

(** C5, as the specification states it, fails: the sweep does not
    force-kill.  In [idleWorld] the session of [/p] is idle and not
    connected; the sweep removes it and calls [kill()] on its process
    with no signal, which node-pty sends as its default signal, where
    the forced kill of this code, [killSession(path, true)], calls
    [kill('SIGKILL')]. *)
Lemma cleanupInactiveSessions_not_forced :
  ¬ sweepForceKills idleWorld
  ∧ signals <$> ptys (exec cleanupInactiveSessions idleWorld) !! 0%nat
    = Some [None]
  ∧ signals <$> ptys (exec (killSession (js "/p") true) idleWorld) !! 0%nat
    = Some [Some (js "SIGKILL")].
Proof.
  split; [|vm_compute; split; reflexivity].
  intros H.
  assert (Hk : sessions idleWorld !! generateSessionKey (js "/p")
               = Some 0%nat) by (vm_compute; reflexivity).
  assert (Hs : heap idleWorld !! 0%nat
               = Some {| ptyProcess := 0; outputBuffer := [];
                         projectPath := js "/p"; sessionId := None;
                         reconnectedSessionId := None; createdAt := 0;
                         lastActiveAt := 0; isConnected := false;
                         currentWs := None; cols := 80; rows := 24 |})
    by (vm_compute; reflexivity).
  assert (Ht : (0 < now idleWorld - 2 * 60 * 60 * 1000)%Z)
    by (vm_compute; reflexivity).
  destruct (H _ 0%nat _ Hk Hs eq_refl Ht) as (_ & y & Hy & Hsig).
  vm_compute in Hy. injection Hy as <-.
  cbn [signals] in Hsig.
  apply list_elem_of_singleton in Hsig. discriminate Hsig.
Qed.

(** C5, amended.  One sweep removes from the registry every session that
    is not connected and whose [lastActiveAt] is more than two hours
    old, after calling [kill()] on its PTY, with no signal; a connected
    session stays registered whatever its [lastActiveAt], and so does a
    session active within the last two hours.  The sweep touches no
    session record and no socket, and the calls of [kill()] without a
    signal are all it does to any process: it sends SIGKILL to none. *)
Theorem cleanupInactiveSessions_sweep w k l s :
  sessions w !! k = Some l →
  heap w !! l = Some s →
  let w' := exec cleanupInactiveSessions w in
  let twoHoursAgo := (now w - 2 * 60 * 60 * 1000)%Z in
  (isConnected s = false → (lastActiveAt s < twoHoursAgo)%Z →
     sessions w' !! k = None
     ∧ ∀ y, ptys w !! ptyProcess s = Some y →
            ∃ n, ptys w' !! ptyProcess s = Some (signalled (S n) y))
  ∧ (isConnected s = true → sessions w' !! k = Some l)
  ∧ ((twoHoursAgo ≤ lastActiveAt s)%Z → sessions w' !! k = Some l)
  ∧ heap w' = heap w
  ∧ sockets w' = sockets w
  ∧ (∀ p y, ptys w !! p = Some y →
       ∃ n, ptys w' !! p = Some (signalled n y)
            ∧ signals (signalled n y) = signals y ++ replicate n None).
Proof.
  intros Hk Hs w' T. unfold w', exec.
  rewrite cleanupInactiveSessions_unfold.
  destruct (sweep_spec (sessionsToDelete w) w (sessionsToDelete_NoDup w))
    as (Hm & Hh & Hso & _ & _ & Hall & Hkill).
  unfold exec in *.
  assert (Hin : k ∈ sessionsToDelete w ↔ inactive T s = true).
  { rewrite sessionsToDelete_elem. split.
    - intros (l' & s' & Hk' & Hs' & Hi).
      assert (l' = l) as -> by congruence.
      assert (s' = s) as -> by congruence. exact Hi.
    - intros Hi. by exists l, s. }
  split; [|split; [|split; [|split; [done|split; [done|]]]]].
  - intros Hc Hlt.
    assert (Hi : inactive T s = true).
    { unfold inactive. rewrite Hc. simpl. rewrite andb_true_r.
      by apply Z.ltb_lt. }
    split.
    + rewrite Hm. rewrite decide_True; [done|]. by apply Hin.
    + intros y Hy. apply (Hkill k l s y); try done. by apply Hin.
  - intros Hc. rewrite Hm, decide_False; [done|].
    rewrite Hin. unfold inactive. rewrite Hc. simpl.
    by rewrite andb_false_r.
  - intros Hge. rewrite Hm, decide_False; [done|].
    rewrite Hin. unfold inactive.
    assert ((lastActiveAt s <? T)%Z = false) as -> by (apply Z.ltb_ge; lia).
    done.
  - intros p y Hy. destruct (Hall p y Hy) as [n Hn]. by exists n.
Qed.

Lemma cleanupInactiveSessions_sweep_witness :
  let w' := exec cleanupInactiveSessions idleWorld in
  sessions idleWorld !! generateSessionKey (js "/p") = Some 0%nat
  ∧ sessions w' !! generateSessionKey (js "/p") = None
  ∧ sessions idleWorld !! generateSessionKey (js "/q") = Some 1%nat
  ∧ sessions w' !! generateSessionKey (js "/q") = Some 1%nat
  ∧ signals <$> ptys w' !! 0%nat = Some [None]
  ∧ signals <$> ptys w' !! 1%nat = Some [].
Proof.
  intros w'.
  assert (H1 : sessions idleWorld !! generateSessionKey (js "/p") = Some 0%nat)
    by (vm_compute; reflexivity).
  assert (H2 : ∃ s, heap idleWorld !! 0%nat = Some s
                    ∧ isConnected s = false ∧ lastActiveAt s = 0%Z).
  { eexists. vm_compute. repeat split; reflexivity. }
  destruct H2 as (s & H2 & Hc & Ht).
  assert (H3 : sessions idleWorld !! generateSessionKey (js "/q") = Some 1%nat)
    by (vm_compute; reflexivity).
  assert (H4 : ∃ s, heap idleWorld !! 1%nat = Some s ∧ isConnected s = true).
  { eexists. vm_compute. repeat split; reflexivity. }
  destruct H4 as (s1 & H4 & Hc1).
  assert (Hnow : now idleWorld = 7200001%Z) by (vm_compute; reflexivity).
  split; [exact H1|]. split.
  { refine (proj1 (proj1 (cleanupInactiveSessions_sweep idleWorld _ 0%nat s
                              H1 H2) Hc _)).
    rewrite Ht, Hnow. lia. }
  split; [exact H3|]. split.
  { exact (proj1 (proj2 (cleanupInactiveSessions_sweep idleWorld _ 1%nat s1
                           H3 H4)) Hc1). }
  vm_compute. split; reflexivity.
Defined.

(** ** Status, detach, kill and exit *)

Lemma getSessionStatus_exec w P : exec (getSessionStatus P) w = w.
Proof.
  unfold exec, getSessionStatus, readSession, gets, mbind, M_bind. cbn.
  destruct (sessions w !! generateSessionKey P) as [l|]; cbn; [|done].
  by destruct (heap w !! l).
Qed.

Lemma run_status w Ps : run (EStatus <$> Ps) w = w.
Proof.
  unfold run. revert w. induction Ps as [|P Ps IH]; intros w; [done|].
  rewrite fmap_cons. cbn [forEach step]. unfold exec, mbind, M_bind in *.
  pose proof (getSessionStatus_exec w P) as H. unfold exec in H.
  destruct (getSessionStatus P w) as [st w1]. simpl in *. subst w1.
  apply IH.
Qed.

(** C10.  [getSessionStatus] only observes: the state after the call
    is the state before it, so no registry entry and no field of a
    session, [lastActiveAt] included, changes, and any number of status
    queries before a sweep leaves the outcome of the sweep unchanged.  On
    a key without session the answer is [{exists: false}]. *)
Theorem getSessionStatus_pure :
  (∀ w P, exec (getSessionStatus P) w = w)
  ∧ (∀ w P, sessions w !! generateSessionKey P = None →
       eval (getSessionStatus P) w = Missing (generateSessionKey P)
       ∧ exists_ (eval (getSessionStatus P) w) = false)
  ∧ (∀ w P l s, sessions w !! generateSessionKey P = Some l →
       heap w !! l = Some s →
       lastActiveAt <$> heap (exec (getSessionStatus P) w) !! l
       = Some (lastActiveAt s))
  ∧ (∀ w Ps, run (EStatus <$> Ps) w = w)
  ∧ (∀ w Ps, exec cleanupInactiveSessions (run (EStatus <$> Ps) w)
             = exec cleanupInactiveSessions w).
Proof.
  split; [exact getSessionStatus_exec|]. split.
  { intros w P H. unfold eval, getSessionStatus, gets, mbind, M_bind. cbn.
    by rewrite H. }
  split.
  { intros w P l s _ Hs. by rewrite getSessionStatus_exec, Hs. }
  split; [exact run_status|].
  intros w Ps. by rewrite run_status.
Qed.

Lemma getSessionStatus_pure_witness :
  sessions oneSession !! generateSessionKey (js "/nowhere") = None
  ∧ exists_ (eval (getSessionStatus (js "/nowhere")) oneSession) = false
  ∧ lastActiveAt <$> heap (exec (getSessionStatus (js "/p")) oneSession) !! 0%nat
    = Some 0%Z.
Proof.
  destruct getSessionStatus_pure as (_ & H2 & H3 & _).
  assert (H : sessions oneSession !! generateSessionKey (js "/nowhere") = None)
    by (vm_compute; reflexivity).
  split; [exact H|]. split; [exact (proj2 (H2 _ _ H))|].
  refine (H3 oneSession (js "/p") 0%nat sampleRecord _ _);
    vm_compute; reflexivity.
Defined.

Lemma detachWebSocket_spec P w l :
  sessions w !! generateSessionKey P = Some l →
  detachWebSocket P w =
    (true, withHeap (alter (λ s, withLastActiveAt (now w)
                                   (withConnection false None s))
                       l (heap w)) w).
Proof.
  intros Hk. unfold detachWebSocket, updateSession, dateNow, gets, modify,
    mbind, M_bind. cbn. by rewrite Hk.
Qed.

(** C7, as the specification states it, fails: the socket reference
    and the connection flag are not all that [detachWebSocket] clears or
    sets.  It also stamps [lastActiveAt]: a session attached at time 0
    and detached one second later has [lastActiveAt] 1000 afterwards, so
    its record is not the record before with the two fields cleared. *)
Lemma detachWebSocket_stamps_lastActiveAt :
  let w := run [ETime 1000] attachedSession in
  ¬ detachClearsOnly w (js "/p")
  ∧ boundTransports <$> heap w !! 0%nat = Some [0%nat]
  ∧ lastActiveAt <$> heap w !! 0%nat = Some 0%Z
  ∧ lastActiveAt <$> heap (exec (detachWebSocket (js "/p")) w) !! 0%nat
    = Some 1000%Z.
Proof.
  cbn zeta. split; [|vm_compute; repeat split; reflexivity].
  intros H.
  assert (Hk : sessions (run [ETime 1000] attachedSession)
                 !! generateSessionKey (js "/p") = Some 0%nat)
    by (vm_compute; reflexivity).
  destruct (heap (run [ETime 1000] attachedSession) !! 0%nat) as [s|] eqn:Hs;
    [|vm_compute in Hs; discriminate].
  specialize (H 0%nat s Hk Hs).
  vm_compute in Hs. injection Hs as <-.
  vm_compute in H. discriminate H.
Qed.

(** C7, amended.  [detachWebSocket] clears the socket reference and the
    connection flag of the session and stamps its [lastActiveAt], and
    that is all: the other fields of the record, the PTY handle and the
    contents of the output buffer among them, the registry, the
    processes, the sockets, the timers and the other session records
    are unchanged.  A status query right after reports the session as
    existing and not connected.  The process is neither written to nor
    signalled, and the output it produces afterwards is appended to the
    buffer as before, while no socket receives anything. *)
Theorem detachWebSocket_preserves w P l s :
  sessions w !! generateSessionKey P = Some l →
  heap w !! l = Some s →
  let w' := exec (detachWebSocket P) w in
  let s' := withLastActiveAt (now w) (withConnection false None s) in
  eval (detachWebSocket P) w = true
  ∧ heap w' !! l = Some s'
  ∧ (∀ l', l' ≠ l → heap w' !! l' = heap w !! l')
  ∧ (ptyProcess s' = ptyProcess s ∧ outputBuffer s' = outputBuffer s
     ∧ boundTransports s' = [])
  ∧ (sessions w' = sessions w ∧ ptys w' = ptys w ∧ sockets w' = sockets w
     ∧ timers w' = timers w)
  ∧ (exists_ (eval (getSessionStatus P) w') = true
     ∧ connected (eval (getSessionStatus P) w') = false)
  ∧ (∀ p y d, ptys w !! p = Some y → exited y = false →
       dataListener y = Some l →
       let w'' := exec (emitData p d) w' in
       outputBuffer <$> heap w'' !! l
       = Some (appendOutput (outputBuffer s)
                 {| data := d; timestamp := now w |})
       ∧ sockets w'' = sockets w ∧ ptys w'' = ptys w
       ∧ sessions w'' = sessions w).
Proof.
  intros Hk Hs w' s'.
  assert (Hw' : w' = withHeap (alter (λ s, withLastActiveAt (now w)
                                   (withConnection false None s))
                       l (heap w)) w).
  { unfold w', exec. by rewrite (detachWebSocket_spec _ _ _ Hk). }
  assert (Hh : heap w' !! l = Some s').
  { rewrite Hw'. cbn. by rewrite list_lookup_alter_eq, Hs. }
  split; [unfold eval; by rewrite (detachWebSocket_spec _ _ _ Hk)|].
  split; [exact Hh|].
  split.
  { intros l' Hne. rewrite Hw'. cbn. by rewrite list_lookup_alter_ne. }
  split; [done|].
  split; [by rewrite Hw'|].
  split.
  { unfold eval.
    rewrite (getSessionStatus_existing P w' l s'); [done| |exact Hh].
    by rewrite Hw'. }
  intros p y d Hp He Hl w''.
  assert (Hp' : ptys w' !! p = Some y) by (by rewrite Hw').
  unfold w'', exec. rewrite (emitData_listener _ _ _ _ _ Hp' He Hl).
  rewrite onDataListener_spec. cbn. rewrite Hh. cbn.
  rewrite list_lookup_alter_eq, Hh. cbn. by rewrite Hw'.
Qed.

Lemma detachWebSocket_preserves_witness :
  let w := run [EAttach (js "/p") 0] bufferedSession in
  let w' := exec (detachWebSocket (js "/p")) w in
  sessions w !! generateSessionKey (js "/p") = Some 0%nat
  ∧ boundTransports <$> heap w !! 0%nat = Some [0%nat]
  ∧ ptys w' = ptys w
  ∧ exists_ (eval (getSessionStatus (js "/p")) w') = true
  ∧ connected (eval (getSessionStatus (js "/p")) w') = false
  ∧ length <$> (outputBuffer <$> heap (exec (emitData 0 (js "more")) w')
                  !! 0%nat) = Some 3%nat.
Proof.
  intros w w'.
  assert (Hk : sessions w !! generateSessionKey (js "/p") = Some 0%nat)
    by (vm_compute; reflexivity).
  assert (Hs : ∃ s, heap w !! 0%nat = Some s
                    ∧ length (outputBuffer s) = 2%nat).
  { eexists. vm_compute. split; reflexivity. }
  destruct Hs as (s & Hs & Hlen).
  assert (Hy : ∃ y, ptys w !! 0%nat = Some y ∧ exited y = false
                    ∧ dataListener y = Some 0%nat).
  { eexists. vm_compute. repeat split; reflexivity. }
  destruct Hy as (y & Hy & He & Hl).
  destruct (detachWebSocket_preserves w (js "/p") 0%nat s Hk Hs)
    as (_ & _ & _ & _ & (_ & Hp & _) & (Hex & Hco) & Hdata).
  destruct (Hdata 0%nat y (js "more") Hy He Hl) as (Hbuf & _).
  split; [exact Hk|].
  split; [vm_compute; reflexivity|].
  split; [exact Hp|]. split; [exact Hex|]. split; [exact Hco|].
  fold w' in Hbuf. rewrite Hbuf. simpl. f_equal.
  rewrite appendOutput_length, Hlen. done.
Defined.

Lemma killSession_missing P f w :
  sessions w !! generateSessionKey P = None → killSession P f w = (true, w).
Proof.
  intros H. unfold killSession, gets, mbind, M_bind. cbn. by rewrite H.
Qed.

Lemma killSession_graceful_spec P w l s :
  sessions w !! generateSessionKey P = Some l →
  heap w !! l = Some s →
  killSession P false w =
    (true,
     withSessions (delete (generateSessionKey P) (sessions w))
       (withTimers
          (timers w ++ [ {| due := (now w + 5000)%Z;
                            timerKey := generateSessionKey P;
                            timerSession := l |} ])
          (withPtys (alter (wrote (js "exit" ++ [13%N])) (ptyProcess s)
                       (ptys w)) w))).
Proof.
  intros Hk Hs. unfold killSession, readSession, setKillTimeout, ptyWrite,
    updatePty, gets, modify, mbind, M_bind. cbn. rewrite Hk. cbn.
  by rewrite Hs.
Qed.

Lemma killTimerCallback_absent key l w :
  sessions w !! key = None → killTimerCallback key l w = ((), w).
Proof.
  intros H. unfold killTimerCallback, gets, mbind, M_bind. cbn.
  rewrite H. by rewrite bool_decide_false by (by intros [? ?]).
Qed.

(** C6, what the code does.  On a registered session
    [killSession(P, false)] writes the line [exit] to the shell, removes
    the registry entry at once and arms a timer due 5 seconds later.
    The callback of that timer kills the process only if the registry
    holds the key of the session; the entry was removed before the timer
    was armed, so the callback does nothing in the state [killSession]
    leaves, nor in any later state in which the key is still free: a
    process that ignores the [exit] line is never sent SIGKILL.  On a key
    without session [killSession] returns [true] and changes nothing. *)
Theorem killSession_no_escalation :
  (∀ w P l s,
     sessions w !! generateSessionKey P = Some l →
     heap w !! l = Some s →
     let key := generateSessionKey P in
     let w' := exec (killSession P false) w in
     eval (killSession P false) w = true
     ∧ sessions w' = delete key (sessions w)
     ∧ ptys w' = alter (wrote (js "exit" ++ [13%N])) (ptyProcess s) (ptys w)
     ∧ timers w' = timers w ++ [ {| due := (now w + 5000)%Z; timerKey := key;
                                    timerSession := l |} ]
     ∧ heap w' = heap w
     ∧ exec (killTimerCallback key l) w' = w'
     ∧ (∀ w'', sessions w'' !! key = None →
               exec (killTimerCallback key l) w'' = w''))
  ∧ (∀ w P force,
       sessions w !! generateSessionKey P = None →
       killSession P force w = (true, w)).
Proof.
  split; [|intros; by apply killSession_missing].
  intros w P l s Hk Hs key w'.
  assert (Hw' : w' = (killSession P false w).2) by done.
  rewrite (killSession_graceful_spec _ _ _ _ Hk Hs) in Hw'. cbn in Hw'.
  assert (Hno : ∀ w'', sessions w'' !! key = None →
                  exec (killTimerCallback key l) w'' = w'').
  { intros w'' H. unfold exec. by rewrite killTimerCallback_absent. }
  split; [unfold eval; by rewrite (killSession_graceful_spec _ _ _ _ Hk Hs)|].
  rewrite Hw'. cbn. repeat split; try done.
  apply Hno. cbn. apply lookup_delete_eq.
Qed.

Lemma killSession_no_escalation_witness :
  let w := run [EKill (js "/p") false; ETime 5000] oneSession in
  sessions oneSession !! generateSessionKey (js "/p") = Some 0%nat
  ∧ exec (killTimerCallback (generateSessionKey (js "/p")) 0)
      (exec (killSession (js "/p") false) oneSession)
    = exec (killSession (js "/p") false) oneSession
  ∧ sessions (init 0 []) !! generateSessionKey (js "/p") = None
  ∧ killSession (js "/p") false (init 0 []) = (true, init 0 [])
  ∧ (signals <$> ptys w !! 0%nat = Some []
     ∧ written <$> ptys w !! 0%nat = Some [js "exit" ++ [13%N]]
     ∧ exited <$> ptys w !! 0%nat = Some false
     ∧ timers w = []
     ∧ sessions w !! generateSessionKey (js "/p") = None).
Proof.
  destruct killSession_no_escalation as [Ha Hb].
  assert (H1 : sessions oneSession !! generateSessionKey (js "/p")
               = Some 0%nat) by (vm_compute; reflexivity).
  assert (H2 : heap oneSession !! 0%nat = Some sampleRecord)
    by (vm_compute; reflexivity).
  assert (H3 : sessions (init 0 []) !! generateSessionKey (js "/p") = None)
    by (vm_compute; reflexivity).
  split; [exact H1|]. split.
  { exact (proj1 (proj2 (proj2 (proj2 (proj2 (proj2
             (Ha oneSession (js "/p") 0%nat sampleRecord H1 H2))))))). }
  split; [exact H3|]. split; [exact (Hb _ _ false H3)|].
  vm_compute. repeat split; reflexivity.
Defined.

(** C8, what the code does.  When the process of a session exits, with
    any exit code, the key of the session is removed from the registry,
    whatever the idle time.  Nothing else happens: no message is sent on
    any socket, the bound socket included, no socket is closed, and the
    session record keeps its socket reference. *)
Theorem onExit_silent w p y key code :
  ptys w !! p = Some y →
  exited y = false →
  exitListener y = Some key →
  let w' := exec (emitExit p code) w in
  sessions w' = delete key (sessions w)
  ∧ sessions w' !! key = None
  ∧ sockets w' = sockets w
  ∧ heap w' = heap w.
Proof.
  intros Hp He Hl w'. unfold w', exec, emitExit, markExited, updatePty,
    onExitListener, gets, modify, mbind, M_bind. cbn.
  rewrite Hp, He, Hl. cbn. repeat split; try done. apply lookup_delete_eq.
Qed.

Lemma onExit_silent_witness :
  let w := run [EAttach (js "/p") 0] bufferedSession in
  let w' := run [EExit 0 1] w in
  boundTransports <$> heap w !! 0%nat = Some [0%nat]
  ∧ sessions w' !! generateSessionKey (js "/p") = None
  ∧ sockets w' = sockets w
  ∧ readyState <$> sockets w' !! 0%nat = Some OPEN.
Proof.
  intros w w'.
  assert (Hy : ∃ y, ptys w !! 0%nat = Some y ∧ exited y = false
                    ∧ exitListener y = Some (generateSessionKey (js "/p"))).
  { eexists. vm_compute. repeat split; reflexivity. }
  destruct Hy as (y & Hy & He & Hl).
  destruct (onExit_silent w 0%nat y _ 1%Z Hy He Hl) as (_ & H2 & H3 & _).
  split; [vm_compute; reflexivity|]. split; [exact H2|].
  split; [exact H3|]. vm_compute. reflexivity.
Defined.


(** ** Well-formed states *)

Lemma benign_refl w : benign w w.
Proof.
  repeat split; try done.
  - intros l s' H. exists s'. auto.
  - intros p y' H. right. by exists y'.
Qed.

Lemma benign_trans w1 w2 w3 : benign w1 w2 → benign w2 w3 → benign w1 w3.
Proof.
  intros (H1 & H2 & H3 & H4 & H5 & H6 & H7)
         (G1 & G2 & G3 & G4 & G5 & G6 & G7).
  repeat split; try lia; try (by auto).
  - intros l s3 Hs3. destruct (G4 _ _ Hs3) as (s2 & Hs2 & Hp & Hc).
    destruct (H4 _ _ Hs2) as (s1 & Hs1 & Hp' & Hc').
    exists s1. split; [done|]. split; [congruence|].
    destruct Hc as [->| ->]; [|by right]. done.
  - intros p y3 Hy3. destruct (G5 _ _ Hy3) as [?|(y2 & Hy2 & Hd)]; [by left|].
    destruct (H5 _ _ Hy2) as [?|(y1 & Hy1 & Hd')]; [left; congruence|].
    right. exists y1. split; [done|congruence].
Qed.

Lemma benign_wellFormed w w' : wellFormed w → benign w w' → wellFormed w'.
Proof.
  intros (W1 & W2 & W3 & W4) (H1 & H2 & H3 & H4 & H5 & H6 & H7).
  repeat split.
  - intros k l Hk. rewrite H1. eauto.
  - destruct (H4 _ _ H) as (s0 & Hs0 & -> & _).
    destruct (W2 _ _ Hs0). lia.
  - intros ws Hws. destruct (H4 _ _ H) as (s0 & Hs0 & _ & [Hc|Hc]);
      [|congruence].
    rewrite Hc in Hws. destruct (W2 _ _ Hs0) as [_ Hv].
    specialize (Hv _ Hws). lia.
  - intros p y l Hy Hl. rewrite H1.
    destruct (H5 _ _ Hy) as [?|(y0 & Hy0 & Hd)]; [congruence|].
    rewrite Hd in Hl. eauto.
  - intros t Ht. rewrite H1. eauto.
Qed.

Lemma Benign_ret {A} (x : A) : Benign (mret x).
Proof. intros w. apply benign_refl. Qed.

Lemma Benign_gets {A} (f : World → A) : Benign (gets f).
Proof. intros w. apply benign_refl. Qed.

Lemma Benign_bind {A B} (m : M A) (f : A → M B) :
  Benign m → (∀ x, Benign (f x)) → Benign (m ≫= f).
Proof.
  intros Hm Hf w. unfold exec, mbind, M_bind.
  specialize (Hm w). unfold exec in Hm.
  destruct (m w) as [x w1]. eapply benign_trans; [exact Hm|]. apply Hf.
Qed.

Lemma Benign_forEach {A} (f : A → M ()) l :
  (∀ x, Benign (f x)) → Benign (forEach f l).
Proof.
  intros H. induction l as [|x l IH]; simpl.
  - apply Benign_ret.
  - apply Benign_bind; [apply H|]. intros _. apply IH.
Qed.

Lemma Benign_updateSession l f :
  (∀ s, ptyProcess (f s) = ptyProcess s
        ∧ (currentWs (f s) = currentWs s ∨ currentWs (f s) = None)) →
  Benign (updateSession l f).
Proof.
  intros Hf w. unfold exec, updateSession, modify. unfold benign. cbn.
  repeat split; try done.
  - by rewrite length_alter.
  - intros l' s'. rewrite list_lookup_alter. case_decide as E.
    + subst. destruct (heap w !! l') as [s|]; simpl; [|done].
      intros [= <-]. exists s. destruct (Hf s). auto.
    + intros H. exists s'. auto.
  - intros p y' H. right. by exists y'.
Qed.

Lemma Benign_updatePty p f :
  (∀ y, dataListener (f y) = dataListener y) → Benign (updatePty p f).
Proof.
  intros Hf w. unfold exec, updatePty, modify. unfold benign. cbn.
  repeat split; try done.
  - by rewrite length_alter.
  - intros l s' H. exists s'. auto.
  - intros p' y'. rewrite list_lookup_alter. case_decide as E.
    + subst. destruct (ptys w !! p') as [y|]; simpl; [|done].
      intros [= <-]. right. exists y. auto.
    + intros H. right. by exists y'.
Qed.

Lemma Benign_sockets (g : World → list WebSocket) :
  (∀ w, length (sockets w) ≤ length (g w))%nat →
  Benign (modify (λ w, withSockets (g w) w)).
Proof.
  intros Hg w. unfold exec, modify. unfold benign. cbn.
  repeat split; try done.
  - intros l s' H. exists s'. auto.
  - intros p y' H. right. by exists y'.
Qed.

Lemma Benign_sessions_delete (k : World → list N) :
  Benign (modify (λ w, withSessions (delete (k w) (sessions w)) w)).
Proof.
  intros w. unfold exec, modify. unfold benign. cbn.
  repeat split; try done.
  - intros l s' H. exists s'. auto.
  - intros p y' H. right. by exists y'.
  - intros k' l H. apply lookup_delete_Some in H as [_ H]. done.
Qed.

Lemma Benign_timers_filter (P : World → KillTimer → Prop)
    `{∀ w t, Decision (P w t)} :
  Benign (modify (λ w, withTimers (filter (P w) (timers w)) w)).
Proof.
  intros w. unfold exec, modify. unfold benign. cbn.
  repeat split; try done.
  - intros l s' Hs. exists s'. auto.
  - intros p y' Hy. right. by exists y'.
  - intros t Ht. by apply list_elem_of_filter in Ht as [_ ?].
Qed.

Lemma Benign_now (f : World → Z) : Benign (modify (λ w, withNow (f w) w)).
Proof.
  intros w. unfold exec, modify. unfold benign. cbn.
  repeat split; try done.
  - intros l s' Hs. exists s'. auto.
  - intros p y' Hy. right. by exists y'.
Qed.

Lemma Benign_acceptSocket : Benign acceptSocket.
Proof.
  intros w. unfold exec, acceptSocket, benign. cbn.
  repeat split; try done.
  - rewrite length_app. lia.
  - intros l s' Hs. exists s'. auto.
  - intros p y' Hy. right. by exists y'.
Qed.

Lemma Benign_sendToWebSocket ws d : Benign (sendToWebSocket ws d).
Proof.
  intros w. unfold exec. rewrite sendToWebSocket_spec. simpl.
  destruct (isOpen ws w); [|apply benign_refl].
  apply (Benign_sockets (λ w, alter (pushSent (wireMessages d)) ws (sockets w))).
  intros w0. by rewrite length_alter.
Qed.

Lemma Benign_ptySpawn f a c r e : Benign (ptySpawn f a c r e).
Proof.
  intros w. unfold exec, ptySpawn, benign. cbn.
  repeat split; try done.
  - rewrite length_app. lia.
  - intros l s' Hs. exists s'. auto.
  - intros p y' [Hy|[_ Hy]]%lookup_app_Some.
    + right. by exists y'.
    + left. by apply list_lookup_singleton_Some in Hy as [_ <-].
Qed.

Ltac solve_Benign :=
  repeat
    lazymatch goal with
    | |- Benign (mret _) => apply Benign_ret
    | |- Benign (gets _) => apply Benign_gets
    | |- Benign (mbind _ _) => apply Benign_bind; [|intros ?]
    | |- Benign (forEach _ _) => apply Benign_forEach; intros ?
    | |- Benign (sendToWebSocket _ _) => apply Benign_sendToWebSocket
    | |- Benign (updateSession _ trimBuffer) =>
        apply Benign_updateSession; intros ?; unfold trimBuffer;
        case_bool_decide; simpl; auto
    | |- Benign (updateSession _ _) =>
        apply Benign_updateSession; intros ?; simpl; auto
    | |- Benign (updatePty _ _) =>
        apply Benign_updatePty; intros ?; reflexivity
    | |- Benign (modify (λ w, withSockets _ w)) =>
        apply Benign_sockets; intros ?; rewrite length_alter; lia
    | |- Benign (modify (λ w, withSessions (delete _ _) w)) =>
        apply (Benign_sessions_delete (λ _, _))
    | |- Benign acceptSocket => apply Benign_acceptSocket
    | |- Benign (match ?x with _ => _ end) => destruct x
    end.

Lemma Benign_replayRecentOutput l ws : Benign (replayRecentOutput l ws).
Proof. unfold replayRecentOutput, readSession. solve_Benign. Qed.

Lemma Benign_onDataListener l d : Benign (onDataListener l d).
Proof. unfold onDataListener, readSession, dateNow. solve_Benign. Qed.

Lemma Benign_killTimerCallback key l : Benign (killTimerCallback key l).
Proof. unfold killTimerCallback, readSession, ptyKill. solve_Benign. Qed.

Lemma Benign_detachWebSocket P : Benign (detachWebSocket P).
Proof. unfold detachWebSocket, dateNow. solve_Benign. Qed.

Lemma Benign_writeToSession P d : Benign (writeToSession P d).
Proof. unfold writeToSession, readSession, dateNow, ptyWrite. solve_Benign. Qed.

Lemma Benign_resizeSession P c r : Benign (resizeSession P c r).
Proof.
  unfold resizeSession, readSession, dateNow, ptyResize, andThen. solve_Benign.
Qed.

Lemma Benign_getSessionStatus P : Benign (getSessionStatus P).
Proof. unfold getSessionStatus, readSession. solve_Benign. Qed.

Lemma Benign_cleanupInactiveSessions : Benign cleanupInactiveSessions.
Proof.
  unfold cleanupInactiveSessions, readSession, dateNow, ptyKill.
  solve_Benign.
Qed.

Lemma Benign_emitData p d : Benign (emitData p d).
Proof.
  unfold emitData. solve_Benign; try apply Benign_onDataListener.
Qed.

Lemma Benign_emitExit p c : Benign (emitExit p c).
Proof. unfold emitExit, markExited, onExitListener. solve_Benign. Qed.

Lemma Benign_socketClosed ws : Benign (socketClosed ws).
Proof. unfold socketClosed. solve_Benign. Qed.

Lemma Benign_advanceTime dt : Benign (advanceTime dt).
Proof.
  intros w. unfold exec, advanceTime, dateNow, gets, modify, mbind, M_bind.
  cbn.
  set (w1 := withTimers _ _).
  assert (H1 : benign w w1).
  { unfold w1, benign. cbn. repeat split; try done.
    - intros l s' Hs. exists s'. auto.
    - intros p y' Hy. right. by exists y'.
    - intros t Ht. by apply list_elem_of_filter in Ht as [_ ?]. }
  eapply benign_trans; [exact H1|].
  apply (Benign_forEach (λ k, killTimerCallback (timerKey k) (timerSession k))).
  intros k. apply Benign_killTimerCallback.
Qed.

Lemma Benign_preserves {A} (m : M A) : Benign m → preserves wellFormed m.
Proof. intros H w Hw. eapply benign_wellFormed; [exact Hw|apply H]. Qed.

Lemma createSession_wellFormed key P sid c r cmd :
  preserves wellFormed (createSession key P sid c r cmd).
Proof.
  intros w (W1 & W2 & W3 & W4).
  unfold exec, createSession, generateClaudeEnvVars, ptySpawn, allocSession,
    ptyOnData, ptyOnExit, updatePty, dateNow, gets, modify, mbind, M_bind.
  cbn. unfold wellFormed. cbn.
  rewrite !length_alter, !length_app. cbn.
  split; [|split; [|split]].
  - intros k l [[_ <-]|[_ H]]%lookup_insert_Some; [lia|].
    specialize (W1 _ _ H). lia.
  - intros l s [H|[_ H]]%lookup_app_Some.
    + destruct (W2 _ _ H) as [Hp Hv]. split; [lia|].
      intros ws Hws. specialize (Hv _ Hws). lia.
    + apply list_lookup_singleton_Some in H as [_ <-]. cbn.
      split; [lia|done].
  - intros p y l Hy Hl.
    destruct (decide (p = length (ptys w))) as [->|Hne].
    + rewrite !list_lookup_alter_eq in Hy.
      rewrite lookup_app_r, Nat.sub_diag in Hy by lia. cbn in Hy.
      injection Hy as <-. cbn in Hl. injection Hl as <-. lia.
    + rewrite !list_lookup_alter_ne in Hy by done.
      apply lookup_app_Some in Hy as [Hy|[Hge Hy]].
      * specialize (W3 _ _ _ Hy Hl). lia.
      * apply list_lookup_singleton_Some in Hy as [Hp _]. lia.
  - intros t Ht. specialize (W4 _ Ht). lia.
Qed.

Lemma getOrCreateSession_wellFormed P sid c r :
  preserves wellFormed (getOrCreateSession P sid c r).
Proof.
  unfold getOrCreateSession. apply preserves_bind; [apply preserves_gets|].
  intros [l|]; [|apply createSession_wellFormed].
  apply Benign_preserves. unfold readSession, dateNow, ptyResize, andThen.
  solve_Benign.
Qed.

Lemma bind_wellFormed w l ws t :
  wellFormed w → (ws < length (sockets w))%nat →
  wellFormed (withHeap (alter (λ s, withLastActiveAt t
                                  (withConnection true (Some ws) s))
                          l (heap w)) w).
Proof.
  intros (W1 & W2 & W3 & W4) Hws. unfold wellFormed. cbn.
  rewrite length_alter. split; [done|]. split; [|done].
  intros l0 s0. rewrite list_lookup_alter. case_decide.
  - subst. destruct (heap w !! l0) as [s1|] eqn:E; [|done]. cbn.
    intros [= <-]. cbn. destruct (W2 _ _ E) as [Hp _].
    split; [done|]. by intros ws0 [= <-].
  - intros Hs0. exact (W2 _ _ Hs0).
Qed.

Lemma attachWebSocket_wellFormed P ws w :
  wellFormed w → (ws < length (sockets w))%nat →
  wellFormed (exec (attachWebSocket P ws) w).
Proof.
  intros Hw Hws.
  destruct (sessions w !! generateSessionKey P) as [l|] eqn:Hk.
  2: { unfold exec, attachWebSocket, gets, mbind, M_bind. cbn.
       by rewrite Hk. }
  destruct (heap w !! l) as [s|] eqn:Hs.
  2: { destruct Hw as (W1 & _). specialize (W1 _ _ Hk).
       apply lookup_ge_None in Hs. lia. }
  unfold exec. rewrite (attachWebSocket_spec _ _ _ _ _ Hk Hs). cbn.
  assert (Hb : benign w (closePrevious s w)).
  { unfold closePrevious. destruct (isConnected s); [|apply benign_refl].
    destruct (currentWs s) as [a|]; [|apply benign_refl].
    apply (Benign_sockets (λ w, alter closing a (sockets w))).
    intros w0. by rewrite length_alter. }
  assert (H1 : wellFormed (closePrevious s w))
    by (eapply benign_wellFormed; done).
  assert (Hlen : (ws < length (sockets (closePrevious s w)))%nat).
  { destruct Hb as (_ & _ & ? & _). lia. }
  assert (Hheap : heap (closePrevious s w) = heap w).
  { unfold closePrevious. by destruct (isConnected s), (currentWs s). }
  pose proof (bind_wellFormed _ l ws (now w) H1 Hlen) as H2.
  rewrite Hheap in H2.
  destruct (isOpen ws (closePrevious s w)); [|exact H2].
  eapply benign_wellFormed; [exact H2|].
  apply (Benign_sockets
           (λ w, alter (pushSent (replayMessages (outputBuffer s))) ws
                   (sockets w))).
  intros w0. by rewrite length_alter.
Qed.

Lemma Benign_killSession_force P : Benign (killSession P true).
Proof.
  unfold killSession, readSession, ptyKill. cbv iota. solve_Benign.
Qed.

Lemma killSession_wellFormed P force :
  preserves wellFormed (killSession P force).
Proof.
  intros w Hw.
  destruct (sessions w !! generateSessionKey P) as [l|] eqn:Hk.
  2: { unfold exec. by rewrite killSession_missing. }
  destruct (heap w !! l) as [s|] eqn:Hs.
  2: { destruct Hw as (W1 & _). specialize (W1 _ _ Hk).
       apply lookup_ge_None in Hs. lia. }
  destruct force.
  - eapply benign_wellFormed; [exact Hw|]. apply Benign_killSession_force.
  - unfold exec. rewrite (killSession_graceful_spec _ _ _ _ Hk Hs). cbn.
    set (w1 := withPtys _ w).
    assert (H1 : wellFormed w1).
    { eapply benign_wellFormed; [exact Hw|].
      apply (Benign_updatePty (ptyProcess s) (wrote (js "exit" ++ [13%N]))).
      done. }
    set (w2 := withTimers _ w1).
    assert (H2 : wellFormed w2).
    { destruct H1 as (W1 & W2 & W3 & W4). unfold w2, wellFormed. cbn.
      split; [done|]. split; [done|]. split; [done|].
      intros t [Ht| ->%list_elem_of_singleton]%elem_of_app; [by apply W4|].
      cbn. destruct Hw as (V1 & _). apply (V1 _ _ Hk). }
    eapply benign_wellFormed; [exact H2|].
    apply (Benign_sessions_delete (λ _, generateSessionKey P)).
Qed.

Lemma step_wellFormed e : preserves wellFormed (step e).
Proof.
  destruct e as [P sid c r|P sid c r|P ws|P|P d|P c r|P f|P| |p d|p c|dt| |ws];
    unfold step.
  - apply preserves_bind; [apply getOrCreateSession_wellFormed|].
    intros ?. apply preserves_ret.
  - unfold resumeCreate.
    apply preserves_bind; [apply createSession_wellFormed|].
    intros ?. apply preserves_ret.
  - intros w Hw. unfold exec, gets, mbind, M_bind. cbv beta iota.
    case_bool_decide as Hws; [|exact Hw].
    pose proof (attachWebSocket_wellFormed P ws w Hw Hws) as H.
    unfold exec in H. destruct (attachWebSocket P ws w).
    exact H.
  - apply Benign_preserves. apply Benign_bind;
      [apply Benign_detachWebSocket|intros ?; apply Benign_ret].
  - apply Benign_preserves. apply Benign_bind;
      [apply Benign_writeToSession|intros ?; apply Benign_ret].
  - apply Benign_preserves. apply Benign_bind;
      [apply Benign_resizeSession|intros ?; apply Benign_ret].
  - apply preserves_bind; [apply killSession_wellFormed|].
    intros ?. apply preserves_ret.
  - apply Benign_preserves. apply Benign_bind;
      [apply Benign_getSessionStatus|intros ?; apply Benign_ret].
  - apply Benign_preserves, Benign_cleanupInactiveSessions.
  - apply Benign_preserves, Benign_emitData.
  - apply Benign_preserves, Benign_emitExit.
  - apply Benign_preserves, Benign_advanceTime.
  - apply Benign_preserves. apply Benign_bind;
      [apply Benign_acceptSocket|intros ?; apply Benign_ret].
  - apply Benign_preserves, Benign_socketClosed.
Qed.

(** Every state the server can reach is well formed: the branches of the
    primitive operations for an address outside its store are never
    taken. *)
Lemma reachable_wellFormed w : reachable w → wellFormed w.
Proof.
  intros (t & e & es & ->).
  apply (preserves_forEach wellFormed step es step_wellFormed).
  unfold wellFormed, init. cbn.
  split; [done|]. split; [done|]. split; [done|].
  intros t0 Ht. by apply elem_of_nil in Ht.
Qed.

(** In a reachable state a registered key names a record, and the record
    a PTY handle. *)
Lemma reachable_registered w k l :
  reachable w → sessions w !! k = Some l →
  ∃ s y, heap w !! l = Some s ∧ ptys w !! ptyProcess s = Some y.
Proof.
  intros Hr Hk. destruct (reachable_wellFormed w Hr) as (W1 & W2 & _).
  destruct (lookup_lt_is_Some_2 (heap w) l (W1 _ _ Hk)) as [s Hs].
  destruct (W2 _ _ Hs) as [Hp _].
  destruct (lookup_lt_is_Some_2 (ptys w) _ Hp) as [y Hy].
  by exists s, y.
Qed.

(** ** Further behaviour of the code *)

(** Two calls of [getOrCreateSession] for one project that overlap, both
    having found the key free before either resumed from its [await],
    spawn two processes; the registry keeps the second record, and the
    first process runs on with no registry entry. *)
Lemma overlapping_creation_spawns_twice :
  length (ptys overlappingCreation) = 2%nat
  ∧ sessions overlappingCreation !! generateSessionKey (js "/p") = Some 1%nat
  ∧ ptyProcess <$> heap overlappingCreation !! 0%nat = Some 0%nat
  ∧ exited <$> ptys overlappingCreation !! 0%nat = Some false.
Proof. vm_compute. repeat split; reflexivity. Qed.

(** The [onExit] listener deletes by key.  When the process of a killed
    session exits after a new session has been registered under the same
    key, it is the entry of the new session that goes, while the new
    process runs on. *)
Lemma exit_of_old_process_unregisters_new_session :
  let w := run [EExit 0 0] recreatedSession in
  sessions recreatedSession !! generateSessionKey (js "/p") = Some 1%nat
  ∧ sessions w !! generateSessionKey (js "/p") = None
  ∧ exited <$> ptys w !! 1%nat = Some false.
Proof. vm_compute. repeat split; reflexivity. Qed.

(** The one case in which the kill timer does send SIGKILL: the key has
    been registered again by the time it fires.  The signal goes to the
    process of the killed session. *)
Lemma kill_timer_fires_after_recreation :
  let w := run [ETime 5000] recreatedSession in
  signals <$> ptys w !! 0%nat = Some [Some (js "SIGKILL")]
  ∧ signals <$> ptys w !! 1%nat = Some []
  ∧ sessions w !! generateSessionKey (js "/p") = Some 1%nat.
Proof. vm_compute. repeat split; reflexivity. Qed.

(** * Properties of the rest of the code *)

(** ** Running computations in sequence *)

Lemma exec_bind {A B} (m : M A) (f : A → M B) w :
  exec (m ≫= f) w = exec (f (eval m w)) (exec m w).
Proof. unfold exec, eval, mbind, M_bind. by destruct (m w). Qed.

Lemma eval_bind {A B} (m : M A) (f : A → M B) w :
  eval (m ≫= f) w = eval (f (eval m w)) (exec m w).
Proof. unfold exec, eval, mbind, M_bind. by destruct (m w). Qed.

Lemma exec_forEach_cons {A} (f : A → M ()) x l w :
  exec (forEach f (x :: l)) w = exec (forEach f l) (exec (f x) w).
Proof. cbn [forEach]. by rewrite exec_bind. Qed.

Lemma exec_ret {A} (x : A) w : exec (mret x) w = w.
Proof. done. Qed.

Lemma M_eq {A} (m : M A) w x w' :
  eval m w = x → exec m w = w' → m w = (x, w').
Proof. unfold eval, exec. destruct (m w). cbn. by intros -> ->. Qed.

(** ** Input, resize and forced termination *)

Lemma writeToSession_registered P d w l s :
  sessions w !! generateSessionKey P = Some l →
  heap w !! l = Some s →
  writeToSession P d w =
    (true, withHeap (alter (withLastActiveAt (now w)) l (heap w))
             (withPtys (alter (wrote d) (ptyProcess s) (ptys w)) w)).
Proof.
  intros Hk Hl. unfold_m. cbn. rewrite Hk. cbn. rewrite Hl. done.
Qed.

Lemma resizeSession_registered P c r w l s :
  sessions w !! generateSessionKey P = Some l →
  heap w !! l = Some s →
  (0 < c)%Z → (0 < r)%Z →
  resizeSession P c r w =
    (Returned true,
     withHeap (alter (λ s, withLastActiveAt (now w) (withSize c r s))
                 l (heap w))
       (withPtys (alter (resized c r) (ptyProcess s) (ptys w)) w)).
Proof.
  intros Hk Hl Hc Hr.
  unfold resizeSession, andThen, readSession, updateSession, dateNow,
    gets, modify, mbind, M_bind, mret, M_ret.
  rewrite Hk. cbn. rewrite Hl.
  by rewrite (ptyResize_positive _ _ _ _ Hc Hr).
Qed.

(** With a size that is not positive [resize] throws before anything is
    recorded. *)
Lemma resizeSession_throws P c r w l s :
  sessions w !! generateSessionKey P = Some l →
  heap w !! l = Some s →
  ¬ (0 < c ∧ 0 < r)%Z →
  resizeSession P c r w = (Thrown resizeError, w).
Proof.
  intros Hk Hl Hcr.
  unfold resizeSession, andThen, readSession, gets, mbind, M_bind.
  rewrite Hk. cbn. rewrite Hl.
  by rewrite (ptyResize_throws _ _ _ _ Hcr).
Qed.

Lemma attachWebSocket_missing P ws w :
  sessions w !! generateSessionKey P = None →
  attachWebSocket P ws w = (false, w).
Proof. intros H. unfold_m. cbn. by rewrite H. Qed.

Lemma detachWebSocket_missing P w :
  sessions w !! generateSessionKey P = None →
  detachWebSocket P w = (false, w).
Proof. intros H. unfold_m. cbn. by rewrite H. Qed.

Lemma writeToSession_missing P d w :
  sessions w !! generateSessionKey P = None →
  writeToSession P d w = (false, w).
Proof. intros H. unfold_m. cbn. by rewrite H. Qed.

Lemma resizeSession_missing P c r w :
  sessions w !! generateSessionKey P = None →
  resizeSession P c r w = (Returned false, w).
Proof. intros H. unfold_m. cbn. by rewrite H. Qed.

Lemma getSessionStatus_missing P w :
  sessions w !! generateSessionKey P = None →
  eval (getSessionStatus P) w = Missing (generateSessionKey P).
Proof. intros H. unfold_m. cbn. by rewrite H. Qed.

Lemma killSession_unregisters P f w :
  sessions (exec (killSession P f) w) !! generateSessionKey P = None.
Proof.
  destruct (sessions w !! generateSessionKey P) as [l|] eqn:Hk.
  - unfold_m. cbn. rewrite Hk. cbn.
    destruct (heap w !! l) as [s|]; cbn.
    + destruct f; cbn; apply lookup_delete_eq.
    + apply lookup_delete_eq.
  - unfold exec. by rewrite killSession_missing.
Qed.
(** X1.  Input written to a registered session reaches the process of that
    session complete and in order, whether or not a socket is attached:
    after any sequence of [writeToSession] calls the process has been
    handed exactly those texts, no other process has been handed
    anything, nothing has been sent on any socket, and no output buffer
    has changed. *)
Theorem writeToSession_in_order ds : ∀ w P l s y,
  sessions w !! generateSessionKey P = Some l →
  heap w !! l = Some s →
  ptys w !! ptyProcess s = Some y →
  let w' := exec (forEach (λ d, writeToSession P d;; mret ()) ds) w in
  written <$> ptys w' !! ptyProcess s = Some (written y ++ ds)
  ∧ signals <$> ptys w' !! ptyProcess s = Some (signals y)
  ∧ (∀ p, p ≠ ptyProcess s → ptys w' !! p = ptys w !! p)
  ∧ sockets w' = sockets w
  ∧ sessions w' = sessions w
  ∧ (∀ l', outputBuffer <$> heap w' !! l' = outputBuffer <$> heap w !! l').
Proof.
  induction ds as [|d ds IH]; intros w P l s y Hk Hl Hy; cbn zeta.
  - unfold exec. cbn. rewrite Hy, app_nil_r. done.
  - set (w1 := withHeap (alter (withLastActiveAt (now w)) l (heap w))
                 (withPtys (alter (wrote d) (ptyProcess s) (ptys w)) w)).
    assert (Hstep :
      forEach (λ d, writeToSession P d;; mret ()) (d :: ds) w
      = forEach (λ d, writeToSession P d;; mret ()) ds w1).
    { cbn [forEach]. unfold mbind at 1, M_bind at 1.
      unfold mbind at 1, M_bind at 1.
      by rewrite (writeToSession_registered P d w l s Hk Hl). }
    unfold exec. rewrite Hstep.
    assert (Hk1 : sessions w1 !! generateSessionKey P = Some l) by exact Hk.
    assert (Hl1 : heap w1 !! l = Some (withLastActiveAt (now w) s)).
    { unfold w1. cbn. by rewrite list_lookup_alter_eq, Hl. }
    assert (Hy1 : ptys w1 !! ptyProcess (withLastActiveAt (now w) s)
                  = Some (wrote d y)).
    { unfold w1. cbn. by rewrite list_lookup_alter_eq, Hy. }
    destruct (IH w1 P l _ _ Hk1 Hl1 Hy1) as (H1 & H2 & H3 & H4 & H5 & H6).
    unfold exec in *. cbn [ptyProcess withLastActiveAt] in *.
    split_and!.
    + rewrite H1. cbn. by rewrite <- app_assoc.
    + rewrite H2. done.
    + intros p Hp. rewrite (H3 p Hp). unfold w1. cbn.
      by rewrite list_lookup_alter_ne.
    + rewrite H4. done.
    + rewrite H5. done.
    + intros l'. rewrite H6. unfold w1. cbn.
      destruct (decide (l = l')) as [<-|Hne].
      * rewrite list_lookup_alter_eq, Hl. done.
      * by rewrite list_lookup_alter_ne.
Qed.

Lemma writeToSession_in_order_witness :
  written <$> ptys (exec (forEach (λ d, writeToSession (js "/p") d;; mret ())
                            [js "ls"; [13]]) oneSession) !! 0%nat
  = Some [js "ls"; [13]].
Proof.
  assert (H1 : sessions oneSession !! generateSessionKey (js "/p")
               = Some 0%nat) by (vm_compute; reflexivity).
  assert (H2 : heap oneSession !! 0%nat = Some sampleRecord)
    by (vm_compute; reflexivity).
  destruct (ptys oneSession !! 0%nat) as [y|] eqn:H3;
    [|vm_compute in H3; discriminate].
  assert (H4 : written y = []).
  { vm_compute in H3. injection H3 as <-. reflexivity. }
  pose proof (writeToSession_in_order [js "ls"; [13]] oneSession (js "/p")
                0%nat sampleRecord y H1 H2 H3) as (H & _).
  rewrite H4 in H. exact H.
Defined.

(** X2.  [resizeSession] on a registered session, with a positive size,
    resizes the process and records the size: the status reported
    afterwards carries the new [cols] and [rows], the time of the call
    as [lastActiveAt], and the connection and buffer as they were.  With
    a size that is not positive the call ends with the error of
    [resize] and nothing at all has changed: the process keeps its
    size, and the record its size and its [lastActiveAt]. *)
Theorem resizeSession_status w P l s y c r :
  sessions w !! generateSessionKey P = Some l →
  heap w !! l = Some s →
  ptys w !! ptyProcess s = Some y →
  let w' := exec (resizeSession P c r) w in
  ((0 < c)%Z → (0 < r)%Z →
   eval (resizeSession P c r) w = Returned true
   ∧ ptys w' !! ptyProcess s = Some (resized c r y)
   ∧ ∃ f, eval (getSessionStatus P) w' = Existing (generateSessionKey P) f
       ∧ st_cols f = c ∧ st_rows f = r ∧ st_lastActiveAt f = now w
       ∧ st_isConnected f = isConnected s
       ∧ st_bufferSize f = length (outputBuffer s)
       ∧ st_processId f = ptyProcess s)
  ∧ (¬ (0 < c ∧ 0 < r)%Z →
     eval (resizeSession P c r) w = Thrown resizeError ∧ w' = w).
Proof.
  intros Hk Hl Hy. cbn zeta. split.
  - intros Hc Hr. unfold exec, eval.
    rewrite (resizeSession_registered P c r w l s Hk Hl Hc Hr). cbn [fst snd].
    split; [done|]. split.
    { cbn. by rewrite list_lookup_alter_eq, Hy. }
    set (w1 := withHeap _ _).
    eexists. split.
    + unfold getSessionStatus, readSession, gets, mbind, M_bind. cbn.
      fold w1. rewrite Hk. cbn. rewrite list_lookup_alter_eq, Hl. cbn.
      reflexivity.
    + done.
  - intros Hcr. unfold exec, eval.
    by rewrite (resizeSession_throws P c r w l s Hk Hl Hcr).
Qed.

Lemma resizeSession_status_witness :
  ptyCols <$> ptys (exec (resizeSession (js "/p") 120 40) oneSession) !! 0%nat
  = Some 120%Z
  ∧ eval (resizeSession (js "/p") (-1) 40) oneSession = Thrown resizeError.
Proof.
  assert (H1 : sessions oneSession !! generateSessionKey (js "/p")
               = Some 0%nat) by (vm_compute; reflexivity).
  assert (H2 : heap oneSession !! 0%nat = Some sampleRecord)
    by (vm_compute; reflexivity).
  destruct (ptys oneSession !! 0%nat) as [y|] eqn:H3;
    [|vm_compute in H3; discriminate].
  assert (Hc : (0 < 120)%Z) by lia.
  assert (Hr : (0 < 40)%Z) by lia.
  assert (Hn : ¬ (0 < -1 ∧ 0 < 40)%Z) by lia.
  split.
  - destruct (proj1 (resizeSession_status oneSession (js "/p") 0%nat
                       sampleRecord y 120%Z 40%Z H1 H2 H3) Hc Hr)
      as (_ & H & _).
    cbn [ptyProcess sampleRecord] in H. rewrite H. reflexivity.
  - exact (proj1 (proj2 (resizeSession_status oneSession (js "/p") 0%nat
                           sampleRecord y (-1)%Z 40%Z H1 H2 H3) Hn)).
Defined.

(** X3.  [getOrCreateSession] on a key that is already registered
    leaves the record as it was created, apart from [lastActiveAt]: the
    status still reports the earlier [cols] and [rows], and the
    [sessionId] passed in the call is dropped.  With a positive size the
    process is resized to the size asked for and the record returned;
    with a size that is not positive the call ends with the error of
    [resize], the process keeps its size, and [lastActiveAt] has been
    renewed all the same. *)
Theorem getOrCreateSession_reuse_keeps_record w P sid c r l s y :
  sessions w !! generateSessionKey P = Some l →
  heap w !! l = Some s →
  ptys w !! ptyProcess s = Some y →
  let w' := exec (getOrCreateSession P sid c r) w in
  (∃ f, eval (getSessionStatus P) w' = Existing (generateSessionKey P) f
      ∧ st_cols f = cols s ∧ st_rows f = rows s
      ∧ st_sessionId f = sessionId s
      ∧ st_reconnectedSessionId f = reconnectedSessionId s
      ∧ st_lastActiveAt f = now w)
  ∧ ((0 < c)%Z → (0 < r)%Z →
     eval (getOrCreateSession P sid c r) w = Returned (l, false)
     ∧ ptys w' !! ptyProcess s = Some (resized c r y))
  ∧ (¬ (0 < c ∧ 0 < r)%Z →
     eval (getOrCreateSession P sid c r) w = Thrown resizeError
     ∧ ptys w' = ptys w).
Proof.
  intros Hk Hl Hy. cbn zeta. split_and!.
  - rewrite (getOrCreateSession_reuse_exec w P sid c r l Hk), Hl.
    eexists. split.
    + unfold eval, getSessionStatus, readSession, gets, mbind, M_bind.
      destruct ((0 <? c) && (0 <? r))%Z; cbn;
        rewrite Hk; cbn; rewrite list_lookup_alter_eq, Hl; cbn; reflexivity.
    + done.
  - intros Hc Hr. unfold exec, eval.
    rewrite (getOrCreateSession_reuse w P sid c r l Hk Hc Hr), Hl.
    cbn. by rewrite list_lookup_alter_eq, Hy.
  - intros Hcr. unfold exec, eval.
    by rewrite (getOrCreateSession_reuse_throws w P sid c r l s Hk Hl Hcr).
Qed.

Lemma getOrCreateSession_reuse_keeps_record_witness :
  let w' := exec (getOrCreateSession (js "/p") (Some (js "abc")) 120 40)
              oneSession in
  ptyCols <$> ptys w' !! 0%nat = Some 120%Z
  ∧ (∃ f, eval (getSessionStatus (js "/p")) w'
          = Existing (generateSessionKey (js "/p")) f
       ∧ st_cols f = 80%Z ∧ st_sessionId f = None)
  ∧ eval (getOrCreateSession (js "/p") None 0 40) oneSession
    = Thrown resizeError.
Proof.
  assert (H1 : sessions oneSession !! generateSessionKey (js "/p")
               = Some 0%nat) by (vm_compute; reflexivity).
  assert (H2 : heap oneSession !! 0%nat = Some sampleRecord)
    by (vm_compute; reflexivity).
  destruct (ptys oneSession !! 0%nat) as [y|] eqn:H3;
    [|vm_compute in H3; discriminate].
  assert (Hc : (0 < 120)%Z) by lia.
  assert (Hr : (0 < 40)%Z) by lia.
  assert (Hn : ¬ (0 < 0 ∧ 0 < 40)%Z) by lia.
  pose proof (getOrCreateSession_reuse_keeps_record oneSession (js "/p")
                (Some (js "abc")) 120%Z 40%Z 0%nat sampleRecord y H1 H2 H3)
    as ((f & Hf & Hcs & _ & Hs & _) & Hpos & _).
  destruct (Hpos Hc Hr) as (_ & Ha).
  pose proof (getOrCreateSession_reuse_keeps_record oneSession (js "/p")
                None 0%Z 40%Z 0%nat sampleRecord y H1 H2 H3)
    as (_ & _ & Hneg).
  cbn zeta. split_and!.
  - cbn [ptyProcess sampleRecord] in Ha. rewrite Ha. reflexivity.
  - exists f. split; [exact Hf|]. split; [exact Hcs|exact Hs].
  - exact (proj1 (Hneg Hn)).
Defined.

(** X4.  [killSession] with [force] on a registered session calls
    [kill('SIGKILL')] on its process once, writes nothing to it, arms no
    timer, and removes the entry; the record and every socket, the bound
    one included, are left as they are. *)
Theorem killSession_force w P l s y :
  sessions w !! generateSessionKey P = Some l →
  heap w !! l = Some s →
  ptys w !! ptyProcess s = Some y →
  let w' := exec (killSession P true) w in
  eval (killSession P true) w = true
  ∧ sessions w' = delete (generateSessionKey P) (sessions w)
  ∧ ptys w' !! ptyProcess s = Some (signalledWith [Some (js "SIGKILL")] y)
  ∧ (∀ p, p ≠ ptyProcess s → ptys w' !! p = ptys w !! p)
  ∧ timers w' = timers w
  ∧ heap w' = heap w
  ∧ sockets w' = sockets w.
Proof.
  intros Hk Hl Hy. unfold_m. cbn. rewrite Hk. cbn. rewrite Hl. cbn.
  repeat split.
  - by rewrite list_lookup_alter_eq, Hy.
  - intros p Hp. by rewrite list_lookup_alter_ne.
Qed.

Lemma killSession_force_witness :
  let w' := exec (killSession (js "/p") true) oneSession in
  sessions w' !! generateSessionKey (js "/p") = None
  ∧ signals <$> ptys w' !! 0%nat = Some [Some (js "SIGKILL")]
  ∧ timers w' = [].
Proof.
  assert (H1 : sessions oneSession !! generateSessionKey (js "/p")
               = Some 0%nat) by (vm_compute; reflexivity).
  assert (H2 : heap oneSession !! 0%nat = Some sampleRecord)
    by (vm_compute; reflexivity).
  destruct (ptys oneSession !! 0%nat) as [y|] eqn:H3;
    [|vm_compute in H3; discriminate].
  assert (H4 : signals y = []).
  { vm_compute in H3. injection H3 as <-. reflexivity. }
  pose proof (killSession_force oneSession (js "/p") 0%nat sampleRecord y
                H1 H2 H3) as (_ & Hs & Hp & _ & Ht & _).
  cbn zeta. split; [|split].
  - rewrite Hs. apply lookup_delete_eq.
  - cbn [ptyProcess sampleRecord] in Hp. rewrite Hp. cbn. by rewrite H4.
  - rewrite Ht. vm_compute. reflexivity.
Defined.

(** X5.  On a path for which no session is registered, [attachWebSocket],
    [detachWebSocket], [writeToSession] and [resizeSession] return false
    and [killSession] returns true, each leaving the whole state as it
    was: nothing is spawned, the socket passed to [attachWebSocket] is
    neither bound nor closed nor written to. *)
Theorem missing_session_no_effect w P :
  sessions w !! generateSessionKey P = None →
  (∀ ws, attachWebSocket P ws w = (false, w))
  ∧ detachWebSocket P w = (false, w)
  ∧ (∀ d, writeToSession P d w = (false, w))
  ∧ (∀ c r, resizeSession P c r w = (Returned false, w))
  ∧ (∀ f, killSession P f w = (true, w))
  ∧ getSessionStatus P w = (Missing (generateSessionKey P), w).
Proof.
  intros H. repeat split; intros.
  - by apply attachWebSocket_missing.
  - by apply detachWebSocket_missing.
  - by apply writeToSession_missing.
  - by apply resizeSession_missing.
  - by apply killSession_missing.
  - unfold_m. cbn. by rewrite H.
Qed.

Lemma missing_session_no_effect_witness :
  attachWebSocket (js "/nowhere") 0 oneSessionOneSocket
  = (false, oneSessionOneSocket).
Proof.
  assert (H : sessions oneSessionOneSocket !! generateSessionKey (js "/nowhere")
              = None) by (vm_compute; reflexivity).
  exact (proj1 (missing_session_no_effect oneSessionOneSocket (js "/nowhere") H)
           0%nat).
Defined.

(** X6.  After [killSession], forced or not and whatever the state, the
    path has no session: the status reports [exists: false], a socket
    cannot be attached, input is refused, and the next
    [getOrCreateSession] spawns a new process and answers [isNew],
    without waiting for the old process to go. *)
Theorem killSession_then w P f :
  let w' := exec (killSession P f) w in
  eval (getSessionStatus P) w' = Missing (generateSessionKey P)
  ∧ (∀ ws, attachWebSocket P ws w' = (false, w'))
  ∧ (∀ d, writeToSession P d w' = (false, w'))
  ∧ (∀ sid c r,
       eval (getOrCreateSession P sid c r) w' = Returned (length (heap w'), true)
       ∧ length (ptys (exec (getOrCreateSession P sid c r) w'))
         = S (length (ptys w'))).
Proof.
  cbn zeta. set (w' := exec (killSession P f) w).
  assert (H : sessions w' !! generateSessionKey P = None)
    by apply killSession_unregisters.
  split_and!.
  - by apply getSessionStatus_missing.
  - intros ws. by apply attachWebSocket_missing.
  - intros d. by apply writeToSession_missing.
  - intros sid c r.
    destruct (getOrCreateSession_create w' P sid c r H)
      as (w2 & Hr & _ & Hn & _).
    unfold eval, exec. rewrite Hr. done.
Qed.

(** ** Output while nobody is attached *)

Lemma appendAll_short t ds : ∀ buf,
  (length buf + length ds ≤ 1000)%nat →
  appendAll t buf ds = buf ++ map (λ d, {| data := d; timestamp := t |}) ds.
Proof.
  induction ds as [|d ds IH]; intros buf H; simpl in *.
  - by rewrite app_nil_r.
  - unfold appendAll in *. simpl. rewrite appendOutput_short by lia.
    rewrite IH by (rewrite length_app; simpl; lia).
    by rewrite <- app_assoc.
Qed.

Lemma appendAll_not_nil t ds buf :
  ds ≠ [] → appendAll t buf ds ≠ [].
Proof.
  revert buf. induction ds as [|d ds IH]; intros buf H; [done|].
  unfold appendAll in *. simpl.
  destruct ds as [|d' ds]; [|by apply IH].
  simpl. intros E. apply (f_equal length) in E.
  rewrite appendOutput_length in E. simpl in E. case_decide; lia.
Qed.

(** Output of a session that is not connected only goes to its buffer. *)
Lemma forEach_emitData_detached p y l ds : ∀ w s,
  ptys w !! p = Some y → exited y = false → dataListener y = Some l →
  heap w !! l = Some s → isConnected s = false →
  exec (forEach (emitData p) ds) w
  = withHeap (alter (λ s, withOutputBuffer
                            (appendAll (now w) (outputBuffer s) ds) s)
                l (heap w)) w.
Proof.
  induction ds as [|d ds IH]; intros w s Hp He Hl Hs Hc.
  - unfold exec. cbn. rewrite list_alter_id; [by rewrite withHeap_same|].
    intros s0. by destruct s0.
  - unfold exec. cbn [forEach]. unfold mbind at 1, M_bind at 1.
    rewrite (emitData_listener _ _ _ _ _ Hp He Hl).
    rewrite onDataListener_spec, Hs, Hc. cbv zeta. cbv iota.
    set (w1 := withHeap _ w).
    assert (Hs1 : heap w1 !! l
                  = Some (withOutputBuffer
                            (appendOutput (outputBuffer s)
                               {| data := d; timestamp := now w |}) s)).
    { unfold w1. cbn. by rewrite list_lookup_alter_eq, Hs. }
    specialize (IH w1 _ Hp He Hl Hs1 Hc). unfold exec in IH. rewrite IH.
    unfold w1. cbn. unfold withHeap. cbn. f_equal.
    rewrite list_alter_alter_eq. apply list_alter_ext; [|done].
    intros s0 _. done.
Qed.

(** ** Time and the idle sweep *)

Lemma cleanupInactiveSessions_registry w k :
  sessions (exec cleanupInactiveSessions w) !! k
  = if decide (k ∈ sessionsToDelete w) then None else sessions w !! k.
Proof.
  unfold exec. rewrite cleanupInactiveSessions_unfold.
  destruct (sweep_spec (sessionsToDelete w) w (sessionsToDelete_NoDup w))
    as (Hm & _). apply Hm.
Qed.

Lemma killTimerCallback_frame key l w :
  let w' := exec (killTimerCallback key l) w in
  heap w' = heap w ∧ sessions w' = sessions w ∧ sockets w' = sockets w
  ∧ now w' = now w.
Proof.
  unfold_m. cbn. destruct (bool_decide _); cbn; [|done].
  destruct (heap w !! l); cbn; done.
Qed.

Lemma forEach_killTimerCallback_frame ks : ∀ w,
  let w' := exec (forEach (λ k, killTimerCallback (timerKey k)
                                  (timerSession k)) ks) w in
  heap w' = heap w ∧ sessions w' = sessions w ∧ sockets w' = sockets w
  ∧ now w' = now w.
Proof.
  induction ks as [|k ks IH]; intros w; [done|].
  cbn zeta. rewrite exec_forEach_cons.
  destruct (killTimerCallback_frame (timerKey k) (timerSession k) w)
    as (H1 & H2 & H3 & H4).
  destruct (IH (exec (killTimerCallback (timerKey k) (timerSession k)) w))
    as (G1 & G2 & G3 & G4).
  split_and!; congruence.
Qed.

Lemma advanceTime_frame dt w :
  let w' := exec (advanceTime dt) w in
  heap w' = heap w ∧ sessions w' = sessions w ∧ sockets w' = sockets w
  ∧ now w' = (now w + Z.max 0 dt)%Z.
Proof.
  cbn zeta. unfold advanceTime. rewrite !exec_bind.
  match goal with
  | |- context [exec (forEach ?f ?ks) ?w0] =>
      destruct (forEach_killTimerCallback_frame ks w0) as (G1 & G2 & G3 & G4)
  end.
  rewrite G1, G2, G3, G4. done.
Qed.

(** A session that was active no more than two hours before the sweep
    stays registered. *)
Lemma sweep_keeps_recent w k l s :
  sessions w !! k = Some l → heap w !! l = Some s →
  (now w - 2 * 60 * 60 * 1000 ≤ lastActiveAt s)%Z →
  sessions (exec cleanupInactiveSessions w) !! k = Some l.
Proof.
  intros Hk Hs Ht. rewrite cleanupInactiveSessions_registry.
  rewrite decide_False; [done|].
  rewrite sessionsToDelete_elem. intros (l' & s' & Hk' & Hs' & Hi).
  assert (l' = l) as -> by congruence.
  assert (s' = s) as -> by congruence.
  unfold inactive in Hi. apply andb_true_iff in Hi as [Hi _].
  apply Z.ltb_lt in Hi. lia.
Qed.
(** X7.  Output produced while no socket is attached is not lost and is
    not sent anywhere: it is only appended to the buffer, and the next
    socket attached receives it in the replay, after what was buffered
    before, in the order it was produced and between the two markers. *)
Theorem detached_output_replayed w P l s p y b sb ds :
  sessions w !! generateSessionKey P = Some l →
  heap w !! l = Some s →
  isConnected s = false →
  ptys w !! p = Some y → exited y = false → dataListener y = Some l →
  sockets w !! b = Some sb → readyState sb = OPEN →
  ds ≠ [] →
  let w1 := exec (forEach (emitData p) ds) w in
  let w2 := exec (attachWebSocket P b) w1 in
  let buf := appendAll (now w) (outputBuffer s) ds in
  sockets w1 = sockets w
  ∧ outputBuffer <$> heap w1 !! l = Some buf
  ∧ ((length (outputBuffer s) + length ds ≤ 1000)%nat →
       data <$> buf = (data <$> outputBuffer s) ++ ds)
  ∧ ∃ sb', sockets w2 !! b = Some sb'
      ∧ outputsOf (drop (length (sent sb)) (sent sb'))
        = restoringMarker (length buf)
          :: map (λ e, outputText (data e)) buf ++ [endMarker].
Proof.
  intros Hk Hs Hc Hp He Hl Hb Ho Hds w1 w2 buf.
  assert (Hw1 : w1 = withHeap (alter (λ s, withOutputBuffer
                            (appendAll (now w) (outputBuffer s) ds) s)
                l (heap w)) w).
  { by apply (forEach_emitData_detached p y l ds w s). }
  assert (Hs1 : heap w1 !! l = Some (withOutputBuffer buf s)).
  { rewrite Hw1. cbn. by rewrite list_lookup_alter_eq, Hs. }
  split; [by rewrite Hw1|]. split; [by rewrite Hs1|]. split.
  { intros Hlen. unfold buf. rewrite appendAll_short by done.
    rewrite fmap_app. f_equal. rewrite <- list_fmap_compose.
    by rewrite list_fmap_id. }
  assert (Hk1 : sessions w1 !! generateSessionKey P = Some l)
    by (by rewrite Hw1).
  destruct (attachWebSocket_frame P b w1 l _ Hk1 Hs1)
    as (_ & _ & _ & _ & _ & Hso). fold w2 in Hso.
  assert (Hcp : closePrevious (withOutputBuffer buf s) w1 = w1).
  { unfold closePrevious. cbn. by rewrite Hc. }
  assert (Hopen : isOpen b w1 = true).
  { unfold isOpen. rewrite Hw1. cbn. rewrite Hb. by apply bool_decide_true. }
  rewrite Hcp, Hopen in Hso. cbn [outputBuffer withOutputBuffer] in Hso.
  exists (pushSent (replayMessages buf) sb). split.
  { rewrite Hso, list_lookup_alter_eq. rewrite Hw1. cbn. by rewrite Hb. }
  cbn. rewrite drop_app_length.
  apply outputsOf_replayMessages. by apply appendAll_not_nil.
Qed.

Lemma detached_output_replayed_witness :
  let w1 := exec (forEach (emitData 0) [js "a"; js "b"]) oneSessionOneSocket in
  let w2 := exec (attachWebSocket (js "/p") 0) w1 in
  sockets w1 = sockets oneSessionOneSocket
  ∧ ∃ sb', sockets w2 !! 0%nat = Some sb'
      ∧ outputsOf (sent sb')
        = [restoringMarker 2; outputText (js "a"); outputText (js "b");
           endMarker].
Proof.
  assert (H1 : sessions oneSessionOneSocket !! generateSessionKey (js "/p")
               = Some 0%nat) by (vm_compute; reflexivity).
  assert (H2 : heap oneSessionOneSocket !! 0%nat = Some sampleRecord)
    by (vm_compute; reflexivity).
  assert (Hy : ∃ y, ptys oneSessionOneSocket !! 0%nat = Some y
                    ∧ exited y = false ∧ dataListener y = Some 0%nat)
    by (eexists; vm_compute; repeat split; reflexivity).
  destruct Hy as (y & Hy & He & Hl).
  assert (Hb : sockets oneSessionOneSocket !! 0%nat
               = Some {| readyState := OPEN; sent := [] |})
    by (vm_compute; reflexivity).
  assert (Hne : [js "a"; js "b"] ≠ []) by discriminate.
  destruct (detached_output_replayed oneSessionOneSocket (js "/p") 0%nat
              sampleRecord 0%nat y 0%nat _ [js "a"; js "b"]
              H1 H2 eq_refl Hy He Hl Hb eq_refl Hne)
    as (Ha & _ & _ & sb' & Hsb & Hout).
  cbn zeta. split; [exact Ha|]. exists sb'. split; [exact Hsb|].
  exact Hout.
Defined.

(** X8.  Output is not activity: what a process prints does not touch
    [lastActiveAt].  A session that is not connected and whose last
    client activity is more than two hours old is removed by the sweep
    and its process is sent [kill()], whatever output the process has
    been producing up to the sweep. *)
Theorem output_does_not_postpone_sweep w P l s p y ds :
  sessions w !! generateSessionKey P = Some l →
  heap w !! l = Some s →
  isConnected s = false →
  ptys w !! p = Some y → exited y = false → dataListener y = Some l →
  (lastActiveAt s < now w - 2 * 60 * 60 * 1000)%Z →
  let w1 := exec (forEach (emitData p) ds) w in
  let w2 := exec cleanupInactiveSessions w1 in
  lastActiveAt <$> heap w1 !! l = Some (lastActiveAt s)
  ∧ sessions w2 !! generateSessionKey P = None
  ∧ ∀ y', ptys w !! ptyProcess s = Some y' →
      ∃ n, ptys w2 !! ptyProcess s = Some (signalled (S n) y').
Proof.
  intros Hk Hs Hc Hp He Hl Ht w1 w2.
  assert (Hw1 : w1 = withHeap (alter (λ s, withOutputBuffer
                            (appendAll (now w) (outputBuffer s) ds) s)
                l (heap w)) w).
  { by apply (forEach_emitData_detached p y l ds w s). }
  set (s1 := withOutputBuffer (appendAll (now w) (outputBuffer s) ds) s).
  assert (Hs1 : heap w1 !! l = Some s1).
  { rewrite Hw1. cbn. by rewrite list_lookup_alter_eq, Hs. }
  assert (Hk1 : sessions w1 !! generateSessionKey P = Some l)
    by (by rewrite Hw1).
  assert (Hin : generateSessionKey P ∈ sessionsToDelete w1).
  { apply sessionsToDelete_elem. exists l, s1.
    split; [done|]. split; [done|]. unfold inactive, s1. cbn.
    rewrite Hc, andb_true_r. apply Z.ltb_lt. by rewrite Hw1. }
  split; [by rewrite Hs1|]. split.
  { unfold w2. rewrite cleanupInactiveSessions_registry.
    by rewrite decide_True. }
  intros y' Hy'. unfold w2, exec. rewrite cleanupInactiveSessions_unfold.
  destruct (sweep_spec (sessionsToDelete w1) w1 (sessionsToDelete_NoDup w1))
    as (_ & _ & _ & _ & _ & _ & Hkill).
  apply (Hkill _ l s1 y' Hin Hk1 Hs1). by rewrite Hw1.
Qed.

Lemma output_does_not_postpone_sweep_witness :
  let w := run [ETime 7200001] oneSession in
  let w1 := exec (forEach (emitData 0) [js "busy"; js "busy"]) w in
  sessions (exec cleanupInactiveSessions w1) !! generateSessionKey (js "/p")
  = None.
Proof.
  intros w w1.
  assert (H1 : sessions w !! generateSessionKey (js "/p") = Some 0%nat)
    by (vm_compute; reflexivity).
  assert (H2 : heap w !! 0%nat = Some sampleRecord)
    by (vm_compute; reflexivity).
  assert (Hy : ∃ y, ptys w !! 0%nat = Some y
                    ∧ exited y = false ∧ dataListener y = Some 0%nat)
    by (eexists; vm_compute; repeat split; reflexivity).
  destruct Hy as (y & Hy & He & Hl).
  assert (Ht : (lastActiveAt sampleRecord < now w - 2 * 60 * 60 * 1000)%Z)
    by (vm_compute; reflexivity).
  exact (proj1 (proj2 (output_does_not_postpone_sweep w (js "/p") 0%nat
                         sampleRecord 0%nat y [js "busy"; js "busy"]
                         H1 H2 eq_refl Hy He Hl Ht))).
Defined.

(** The process a new session is given. *)
Lemma createSession_spec key P sid c r cmd w :
  let w' := exec (createSession key P sid c r cmd) w in
  eval (createSession key P sid c r cmd) w = (length (heap w), true)
  ∧ sessions w' = <[key := length (heap w)]> (sessions w)
  ∧ heap w' = heap w ++
      [ {| ptyProcess := length (ptys w); outputBuffer := [];
           projectPath := P; sessionId := sid; reconnectedSessionId := sid;
           createdAt := now w; lastActiveAt := now w; isConnected := false;
           currentWs := None; cols := c; rows := r |} ]
  ∧ length (ptys w') = S (length (ptys w))
  ∧ (∀ p, p < length (ptys w) → ptys w' !! p = ptys w !! p)%nat
  ∧ (∃ y, ptys w' !! length (ptys w) = Some y
        ∧ written y = [] ∧ signals y = [] ∧ exited y = false
        ∧ ptyCols y = c ∧ ptyRows y = r
        ∧ dataListener y = Some (length (heap w))
        ∧ exitListener y = Some key)
  ∧ sockets w' = sockets w ∧ now w' = now w ∧ timers w' = timers w.
Proof.
  unfold_m. cbn. split_and!; try done.
  - rewrite !length_alter, length_app. simpl. lia.
  - intros p Hp. rewrite !list_lookup_alter_ne by lia.
    by rewrite lookup_app_l.
  - eexists. split.
    + rewrite !list_lookup_alter_eq.
      rewrite lookup_app_r by lia. rewrite Nat.sub_diag. cbn. reflexivity.
    + done.
Qed.

(** X9.  Every call that touches a session postpones the sweep: after
    input, a resize to a positive size, a detach, an attach or a reuse
    by [getOrCreateSession], the session survives every sweep that runs
    within the next two hours, connected or not.  The reuse stamps
    [lastActiveAt] before it resizes, so it postpones the sweep whatever
    the size [c'] by [r'], also when [resize] then throws;
    [resizeSession] resizes first, hence the positive [c] and [r]. *)
Theorem activity_postpones_sweep w P l s op dt d c r sid c' r' ws :
  sessions w !! generateSessionKey P = Some l →
  heap w !! l = Some s →
  (0 < c)%Z → (0 < r)%Z →
  op ∈ [ writeToSession P d;; mret ();
         resizeSession P c r;; mret ();
         detachWebSocket P;; mret ();
         attachWebSocket P ws;; mret ();
         getOrCreateSession P sid c' r';; mret () ] →
  (dt ≤ 2 * 60 * 60 * 1000)%Z →
  sessions (exec (op;; advanceTime dt;; cleanupInactiveSessions) w)
    !! generateSessionKey P = Some l.
Proof.
  intros Hk Hs Hc Hr Hop Hdt.
  assert (H1 : let w1 := exec op w in
               sessions w1 = sessions w ∧ now w1 = now w
               ∧ ∃ s1, heap w1 !! l = Some s1 ∧ lastActiveAt s1 = now w).
  { cbn zeta. rewrite !elem_of_cons in Hop.
    destruct Hop as [->|[->|[->|[->|[->|Hop]]]]];
      [..|by apply elem_of_nil in Hop]; rewrite exec_bind, exec_ret.
    - unfold exec. rewrite (writeToSession_registered P d w l s Hk Hs). cbn.
      split_and!; try done. eexists.
      by rewrite list_lookup_alter_eq, Hs.
    - unfold exec.
      rewrite (resizeSession_registered P c r w l s Hk Hs Hc Hr). cbn.
      split_and!; try done. eexists.
      by rewrite list_lookup_alter_eq, Hs.
    - unfold exec. rewrite (detachWebSocket_spec P w l Hk). cbn.
      split_and!; try done. eexists.
      by rewrite list_lookup_alter_eq, Hs.
    - destruct (attachWebSocket_frame P ws w l s Hk Hs)
        as (Hh & _ & Hm & Hn & _). split_and!; try done. by eexists.
    - rewrite (getOrCreateSession_reuse_exec w P sid c' r' l Hk), Hs.
      destruct ((0 <? c') && (0 <? r'))%Z; cbn;
        (split_and!; try done; eexists;
         by rewrite list_lookup_alter_eq, Hs). }
  cbn zeta in H1. destruct H1 as (Hm & Hn & s1 & Hs1 & Ht).
  rewrite exec_bind, exec_bind.
  set (w1 := exec op w) in *.
  destruct (advanceTime_frame dt w1) as (Gh & Gm & _ & Gn).
  set (w2 := exec (advanceTime dt) w1) in *.
  apply (sweep_keeps_recent w2 _ l s1).
  - by rewrite Gm, Hm.
  - by rewrite Gh.
  - rewrite Gn, Hn, Ht. lia.
Qed.

Lemma activity_postpones_sweep_witness :
  sessions (exec ((resizeSession (js "/p") 120 40;; mret ());;
                  advanceTime 7200000;; cleanupInactiveSessions)
              (run [ETime 7200001] oneSession))
    !! generateSessionKey (js "/p") = Some 0%nat.
Proof.
  assert (H1 : sessions (run [ETime 7200001] oneSession)
                 !! generateSessionKey (js "/p") = Some 0%nat)
    by (vm_compute; reflexivity).
  assert (H2 : heap (run [ETime 7200001] oneSession) !! 0%nat
               = Some sampleRecord) by (vm_compute; reflexivity).
  assert (H3 : (7200000 ≤ 2 * 60 * 60 * 1000)%Z) by lia.
  assert (Hc : (0 < 120)%Z) by lia.
  assert (Hr : (0 < 40)%Z) by lia.
  refine (activity_postpones_sweep _ (js "/p") 0%nat sampleRecord _ 7200000%Z
            (js "x") 120%Z 40%Z None (-1)%Z 24%Z 0%nat H1 H2 Hc Hr _ H3).
  apply elem_of_cons. right. apply elem_of_cons. left. reflexivity.
Defined.
(** ** Sessions that are replaced *)

Lemma getOrCreateSession_free P sid c r w :
  sessions w !! generateSessionKey P = None →
  getOrCreateSession P sid c r w
  = (Returned
       (eval (createSession (generateSessionKey P) P sid c r
                (startCommandFor sid)) w),
     exec (createSession (generateSessionKey P) P sid c r
             (startCommandFor sid)) w).
Proof.
  intros H. unfold getOrCreateSession, gets, eval, exec.
  unfold mbind at 1, M_bind at 1. rewrite H.
  unfold mbind at 1, M_bind at 1. by destruct (createSession _ _ _ _ _ _ w).
Qed.

(** A call on a free key: the record and the process it makes. *)
Lemma getOrCreateSession_free_spec P sid c r w :
  sessions w !! generateSessionKey P = None →
  let w' := exec (getOrCreateSession P sid c r) w in
  eval (getOrCreateSession P sid c r) w = Returned (length (heap w), true)
  ∧ sessions w' = <[generateSessionKey P := length (heap w)]> (sessions w)
  ∧ heap w' = heap w ++
      [ {| ptyProcess := length (ptys w); outputBuffer := [];
           projectPath := P; sessionId := sid; reconnectedSessionId := sid;
           createdAt := now w; lastActiveAt := now w; isConnected := false;
           currentWs := None; cols := c; rows := r |} ]
  ∧ length (ptys w') = S (length (ptys w))
  ∧ (∀ p, p < length (ptys w) → ptys w' !! p = ptys w !! p)%nat
  ∧ (∃ y, ptys w' !! length (ptys w) = Some y
        ∧ written y = [] ∧ signals y = [] ∧ exited y = false
        ∧ ptyCols y = c ∧ ptyRows y = r
        ∧ dataListener y = Some (length (heap w))
        ∧ exitListener y = Some (generateSessionKey P))
  ∧ sockets w' = sockets w ∧ now w' = now w ∧ timers w' = timers w.
Proof.
  intros H. cbn zeta. unfold exec at 1 2 3 4 5 6 7 8, eval.
  rewrite (getOrCreateSession_free P sid c r w H). cbn [fst snd].
  destruct (createSession_spec (generateSessionKey P) P sid c r
              (startCommandFor sid) w) as (Hev & Hrest).
  rewrite Hev. split; [done|]. exact Hrest.
Qed.

Lemma killSession_force_spec P w l s :
  sessions w !! generateSessionKey P = Some l →
  heap w !! l = Some s →
  killSession P true w =
    (true,
     withSessions (delete (generateSessionKey P) (sessions w))
       (withPtys (alter (signalledWith [Some (js "SIGKILL")]) (ptyProcess s)
                    (ptys w)) w)).
Proof.
  intros Hk Hs. unfold_m. cbn. rewrite Hk. cbn. by rewrite Hs.
Qed.

Lemma emitExit_effect p y key code w :
  ptys w !! p = Some y → exited y = false → exitListener y = Some key →
  let w' := exec (emitExit p code) w in
  sessions w' = delete key (sessions w)
  ∧ heap w' = heap w ∧ sockets w' = sockets w ∧ timers w' = timers w
  ∧ (∀ p', p' ≠ p → ptys w' !! p' = ptys w !! p').
Proof.
  intros Hp He Hl. unfold exec, emitExit, markExited, updatePty,
    onExitListener, gets, modify, mbind, M_bind. cbn.
  rewrite Hp, He, Hl. cbn. split_and!; try done.
  intros p' Hne. by rewrite list_lookup_alter_ne.
Qed.

Lemma killTimerCallback_present key l l' s w :
  sessions w !! key = Some l' →
  heap w !! l = Some s →
  exec (killTimerCallback key l) w
  = withPtys (alter (signalledWith [Some (js "SIGKILL")]) (ptyProcess s)
                (ptys w)) w.
Proof.
  intros Hk Hs. unfold exec, killTimerCallback, readSession, ptyKill,
    updatePty, gets, modify, mbind, M_bind. cbn.
  rewrite Hk. rewrite bool_decide_true by (by eexists). by rewrite Hs.
Qed.

Lemma advanceTime_single dt k w :
  timers w = [k] →
  (due k ≤ now w + Z.max 0 dt)%Z →
  exec (advanceTime dt) w
  = exec (killTimerCallback (timerKey k) (timerSession k))
      (withTimers [] (withNow (now w + Z.max 0 dt) w)).
Proof.
  intros Ht Hd. unfold advanceTime. rewrite !exec_bind.
  unfold dateNow, gets, modify, exec, eval. cbn [fst snd].
  cbn [timers withNow now]. rewrite Ht.
  rewrite !filter_cons, !filter_nil.
  destruct (decide (now w + Z.max 0 dt < due k)%Z); [lia|].
  destruct (decide (due k ≤ now w + Z.max 0 dt)%Z); [|lia].
  cbn [forEach]. unfold mbind at 1, M_bind at 1.
  destruct (killTimerCallback _ _ _) as [[] w']. done.
Qed.

(** X10.  Two calls of [getOrCreateSession] for one path that both test
    the registry before either resumes from its [await] each spawn a
    process.  The registry keeps the second session only: the first
    process has no entry, so a later forced kill of the path signals the
    second process and leaves the first one running, unsignalled. *)
Theorem overlapping_creation_leaks w P sid1 c1 r1 sid2 c2 r2 :
  sessions w !! generateSessionKey P = None →
  let w1 := exec (resumeCreate P sid1 c1 r1) w in
  let w2 := exec (resumeCreate P sid2 c2 r2) w1 in
  let w3 := exec (killSession P true) w2 in
  length (ptys w2) = S (S (length (ptys w)))
  ∧ sessions w2 !! generateSessionKey P = Some (S (length (heap w)))
  ∧ ptyProcess <$> heap w2 !! S (length (heap w)) = Some (S (length (ptys w)))
  ∧ sessions w3 !! generateSessionKey P = None
  ∧ signals <$> ptys w3 !! S (length (ptys w)) = Some [Some (js "SIGKILL")]
  ∧ ∃ y, ptys w3 !! length (ptys w) = Some y
      ∧ signals y = [] ∧ written y = [] ∧ exited y = false.
Proof.
  intros _ w1 w2 w3. unfold resumeCreate in *.
  destruct (createSession_spec (generateSessionKey P) P sid1 c1 r1
              (startCommandFor sid1) w)
    as (_ & Hm1 & Hh1 & Hn1 & Hp1 & (y1 & Hy1 & Hw1 & Hs1 & He1 & _) & _).
  fold w1 in Hm1, Hh1, Hn1, Hp1, Hy1.
  destruct (createSession_spec (generateSessionKey P) P sid2 c2 r2
              (startCommandFor sid2) w1)
    as (_ & Hm2 & Hh2 & Hn2 & Hp2 & (y2 & Hy2 & Hw2 & Hs2 & He2 & _) & _).
  fold w2 in Hm2, Hh2, Hn2, Hp2, Hy2.
  assert (Hl1 : length (heap w1) = S (length (heap w))).
  { rewrite Hh1, length_app. simpl. lia. }
  rewrite Hl1 in Hm2. rewrite Hn1 in Hh2, Hy2.
  assert (Hk2 : sessions w2 !! generateSessionKey P = Some (S (length (heap w)))).
  { rewrite Hm2. apply lookup_insert_eq. }
  assert (Hr2 : ∃ s2, heap w2 !! S (length (heap w)) = Some s2
                      ∧ ptyProcess s2 = S (length (ptys w))).
  { eexists. split.
    - rewrite Hh2. rewrite lookup_app_r by lia. rewrite Hl1, Nat.sub_diag.
      reflexivity.
    - done. }
  destruct Hr2 as (s2 & Hr2 & Hpt2).
  assert (Hw3 : w3 = withSessions (delete (generateSessionKey P) (sessions w2))
       (withPtys (alter (signalledWith [Some (js "SIGKILL")]) (ptyProcess s2)
                    (ptys w2)) w2)).
  { unfold w3, exec. by rewrite (killSession_force_spec P w2 _ s2 Hk2 Hr2). }
  split; [lia|]. split; [done|]. split; [rewrite Hr2; cbn; by rewrite Hpt2|].
  rewrite Hw3, Hpt2. cbn. split; [apply lookup_delete_eq|]. split.
  - rewrite list_lookup_alter_eq, Hy2. cbn. by rewrite Hs2.
  - exists y1. rewrite list_lookup_alter_ne by lia.
    rewrite Hp2 by lia. done.
Qed.

Lemma overlapping_creation_leaks_witness :
  let w2 := exec (resumeCreate (js "/p") None 80 24)
              (exec (resumeCreate (js "/p") None 80 24) (init 0 [])) in
  length (ptys w2) = 2%nat
  ∧ sessions w2 !! generateSessionKey (js "/p") = Some 1%nat.
Proof.
  assert (H : sessions (init 0 []) !! generateSessionKey (js "/p") = None)
    by (vm_compute; reflexivity).
  destruct (overlapping_creation_leaks (init 0 []) (js "/p") None 80%Z 24%Z
              None 80%Z 24%Z H) as (H1 & H2 & _).
  split; [exact H1|exact H2].
Defined.

(** X11.  A session is killed without force and the path is given a new
    session before the old process has gone.  When the old process then
    exits, its [onExit] listener removes the key, which by now belongs
    to the new session: the new process keeps running, unsignalled, but
    the manager no longer knows it, and [killSession] on the path does
    nothing. *)
Theorem old_exit_unregisters_new_session w P l s y sid c r code :
  sessions w !! generateSessionKey P = Some l →
  heap w !! l = Some s →
  ptys w !! ptyProcess s = Some y →
  exited y = false →
  exitListener y = Some (generateSessionKey P) →
  let w1 := exec (killSession P false) w in
  let w2 := exec (getOrCreateSession P sid c r) w1 in
  let w3 := exec (emitExit (ptyProcess s) code) w2 in
  eval (getOrCreateSession P sid c r) w1 = Returned (length (heap w), true)
  ∧ sessions w2 !! generateSessionKey P = Some (length (heap w))
  ∧ ptyProcess <$> heap w2 !! length (heap w) = Some (length (ptys w))
  ∧ sessions w3 !! generateSessionKey P = None
  ∧ (∃ y', ptys w3 !! length (ptys w) = Some y'
       ∧ exited y' = false ∧ signals y' = [] ∧ written y' = [])
  ∧ (∀ f, killSession P f w3 = (true, w3)).
Proof.
  intros Hk Hs Hy He Hl w1 w2 w3.
  assert (Hw1 : w1 = withSessions (delete (generateSessionKey P) (sessions w))
       (withTimers
          (timers w ++ [ {| due := (now w + 5000)%Z;
                            timerKey := generateSessionKey P;
                            timerSession := l |} ])
          (withPtys (alter (wrote (js "exit" ++ [13%N])) (ptyProcess s)
                       (ptys w)) w))).
  { unfold w1, exec. by rewrite (killSession_graceful_spec P w l s Hk Hs). }
  assert (Hfree : sessions w1 !! generateSessionKey P = None).
  { rewrite Hw1. cbn. apply lookup_delete_eq. }
  assert (Hh1 : heap w1 = heap w) by (by rewrite Hw1).
  assert (Hn1 : length (ptys w1) = length (ptys w)).
  { rewrite Hw1. cbn. by rewrite length_alter. }
  assert (Hlt : (ptyProcess s < length (ptys w))%nat)
    by (by eapply lookup_lt_Some).
  destruct (getOrCreateSession_free_spec P sid c r w1 Hfree)
    as (Hev & Hm2 & Hh2 & Hn2 & Hp2 & (y2 & Hy2 & Hw2 & Hs2 & He2 & _) & _).
  fold w2 in Hm2, Hh2, Hn2, Hp2, Hy2.
  rewrite Hh1 in Hev, Hm2, Hh2. rewrite Hn1 in Hy2, Hh2.
  assert (Hold : ptys w2 !! ptyProcess s
                 = Some (wrote (js "exit" ++ [13%N]) y)).
  { rewrite Hp2 by lia. rewrite Hw1. cbn.
    by rewrite list_lookup_alter_eq, Hy. }
  destruct (emitExit_effect (ptyProcess s) _ (generateSessionKey P) code w2
              Hold He Hl) as (Gm & _ & _ & _ & Gp).
  fold w3 in Gm, Gp.
  assert (Hgone : sessions w3 !! generateSessionKey P = None).
  { rewrite Gm. apply lookup_delete_eq. }
  split; [exact Hev|]. split; [rewrite Hm2; apply lookup_insert_eq|].
  split.
  { rewrite Hh2, lookup_app_r by lia. by rewrite Nat.sub_diag. }
  split; [exact Hgone|]. split.
  - exists y2. rewrite Gp by lia. done.
  - intros f. by apply killSession_missing.
Qed.

Lemma old_exit_unregisters_new_session_witness :
  let w1 := exec (killSession (js "/p") false) oneSession in
  let w2 := exec (getOrCreateSession (js "/p") None 80 24) w1 in
  let w3 := exec (emitExit 0 0) w2 in
  sessions w2 !! generateSessionKey (js "/p") = Some 1%nat
  ∧ sessions w3 !! generateSessionKey (js "/p") = None.
Proof.
  assert (H1 : sessions oneSession !! generateSessionKey (js "/p")
               = Some 0%nat) by (vm_compute; reflexivity).
  assert (H2 : heap oneSession !! 0%nat = Some sampleRecord)
    by (vm_compute; reflexivity).
  assert (Hy : ∃ y, ptys oneSession !! 0%nat = Some y ∧ exited y = false
                    ∧ exitListener y = Some (generateSessionKey (js "/p")))
    by (eexists; vm_compute; repeat split; reflexivity).
  destruct Hy as (y & Hy & He & Hl).
  destruct (old_exit_unregisters_new_session oneSession (js "/p") 0%nat
              sampleRecord y None 80%Z 24%Z 0%Z H1 H2 Hy He Hl)
    as (_ & Ha & _ & Hb & _).
  split; [exact Ha|exact Hb].
Defined.

(** X12.  The kill timer escalates only when the path has been given a
    new session.  A session is killed without force, no other timer
    pending, and the path is given a new session within five seconds:
    when the timer fires it finds the key registered, to the new
    session, and calls [kill('SIGKILL')] on the process of the old one,
    which it captured; the new process is not signalled and the new
    session stays registered. *)
Theorem kill_timer_after_recreation w P l s y sid c r :
  sessions w !! generateSessionKey P = Some l →
  heap w !! l = Some s →
  ptys w !! ptyProcess s = Some y →
  timers w = [] →
  let w1 := exec (killSession P false) w in
  let w2 := exec (getOrCreateSession P sid c r) w1 in
  let w3 := exec (advanceTime 5000) w2 in
  sessions w3 !! generateSessionKey P = Some (length (heap w))
  ∧ ptys w3 !! ptyProcess s
    = Some (signalledWith [Some (js "SIGKILL")]
              (wrote (js "exit" ++ [13%N]) y))
  ∧ (∃ y', ptys w3 !! length (ptys w) = Some y' ∧ signals y' = [])
  ∧ timers w3 = [].
Proof.
  intros Hk Hs Hy Ht w1 w2 w3.
  assert (Hw1 : w1 = withSessions (delete (generateSessionKey P) (sessions w))
       (withTimers
          (timers w ++ [ {| due := (now w + 5000)%Z;
                            timerKey := generateSessionKey P;
                            timerSession := l |} ])
          (withPtys (alter (wrote (js "exit" ++ [13%N])) (ptyProcess s)
                       (ptys w)) w))).
  { unfold w1, exec. by rewrite (killSession_graceful_spec P w l s Hk Hs). }
  assert (Hfree : sessions w1 !! generateSessionKey P = None).
  { rewrite Hw1. cbn. apply lookup_delete_eq. }
  assert (Hh1 : heap w1 = heap w) by (by rewrite Hw1).
  assert (Hn1 : length (ptys w1) = length (ptys w)).
  { rewrite Hw1. cbn. by rewrite length_alter. }
  assert (Hlt : (ptyProcess s < length (ptys w))%nat)
    by (by eapply lookup_lt_Some).
  destruct (getOrCreateSession_free_spec P sid c r w1 Hfree)
    as (_ & Hm2 & Hh2 & Hn2 & Hp2 & (y2 & Hy2 & _ & Hs2 & _) & _ & Hnow2 & Ht2).
  fold w2 in Hm2, Hh2, Hn2, Hp2, Hy2, Hnow2, Ht2.
  rewrite Hh1 in Hm2, Hh2. rewrite Hn1 in Hy2, Hh2.
  assert (Hold : ptys w2 !! ptyProcess s
                 = Some (wrote (js "exit" ++ [13%N]) y)).
  { rewrite Hp2 by lia. rewrite Hw1. cbn.
    by rewrite list_lookup_alter_eq, Hy. }
  assert (Ht2' : timers w2 = [ {| due := (now w + 5000)%Z;
                                  timerKey := generateSessionKey P;
                                  timerSession := l |} ]).
  { rewrite Ht2, Hw1. cbn. by rewrite Ht. }
  assert (Hnow : now w2 = now w) by (by rewrite Hnow2, Hw1).
  assert (Hw3 : w3 = exec (killTimerCallback (generateSessionKey P) l)
                       (withTimers [] (withNow (now w2 + Z.max 0 5000) w2))).
  { unfold w3. rewrite (advanceTime_single 5000 _ w2 Ht2'); [done|].
    cbn [due]. rewrite Hnow. lia. }
  assert (Hl2 : heap w2 !! l = Some s).
  { rewrite Hh2. rewrite lookup_app_l; [done|]. by eapply lookup_lt_Some. }
  assert (Hk2 : sessions w2 !! generateSessionKey P = Some (length (heap w))).
  { rewrite Hm2. apply lookup_insert_eq. }
  rewrite Hw3.
  rewrite (killTimerCallback_present _ l (length (heap w)) s) by done.
  cbn. split; [exact Hk2|]. split.
  { by rewrite list_lookup_alter_eq, Hold. }
  split; [|done].
  exists y2. rewrite list_lookup_alter_ne by lia. done.
Qed.

Lemma kill_timer_after_recreation_witness :
  let w1 := exec (killSession (js "/p") false) oneSession in
  let w2 := exec (getOrCreateSession (js "/p") None 80 24) w1 in
  let w3 := exec (advanceTime 5000) w2 in
  signals <$> ptys w3 !! 0%nat = Some [Some (js "SIGKILL")]
  ∧ timers w3 = [].
Proof.
  assert (H1 : sessions oneSession !! generateSessionKey (js "/p")
               = Some 0%nat) by (vm_compute; reflexivity).
  assert (H2 : heap oneSession !! 0%nat = Some sampleRecord)
    by (vm_compute; reflexivity).
  destruct (ptys oneSession !! 0%nat) as [y|] eqn:H3;
    [|vm_compute in H3; discriminate].
  assert (H4 : signals y = []).
  { vm_compute in H3. injection H3 as <-. reflexivity. }
  assert (H5 : timers oneSession = []) by (vm_compute; reflexivity).
  destruct (kill_timer_after_recreation oneSession (js "/p") 0%nat
              sampleRecord y None 80%Z 24%Z H1 H2 H3 H5)
    as (_ & Ha & _ & Hb).
  cbn zeta. split; [|exact Hb].
  cbn [ptyProcess sampleRecord] in Ha. rewrite Ha. cbn. by rewrite H4.
Defined.

(** ** What the URL detector announces and rewrites *)

Lemma scanPattern_sent d st p :
  (scanPattern d st p).1
  = st.1 ++ (UrlOpen <$> (snd <$> Regex.execAll (ignoreCase p) (re p) d 0)).
Proof.
  unfold scanPattern. revert st.
  induction (Regex.execAll (ignoreCase p) (re p) d 0) as [|[m0 url] ms IH];
    intros [sent outputData]; simpl.
  - by rewrite app_nil_r.
  - rewrite IH. simpl. by rewrite <- app_assoc.
Qed.

Lemma scanUrls_sent d : (scanUrls d).1 = UrlOpen <$> detectedUrls d.
Proof.
  unfold scanUrls, detectedUrls.
  assert (H : ∀ ps st,
            (foldl (scanPattern d) st ps).1
            = st.1 ++ (UrlOpen <$> flat_map
                (λ p, snd <$> Regex.execAll (ignoreCase p) (re p) d 0) ps)).
  { induction ps as [|p ps IH]; intros st; simpl.
    - by rewrite app_nil_r.
    - rewrite IH, scanPattern_sent, fmap_app. by rewrite <- app_assoc. }
  by rewrite H.
Qed.

Lemma indexOf_cons_None p c s :
  indexOf p (c :: s) = None →
  startsWithBy id p (c :: s) = false ∧ indexOf p s = None.
Proof.
  cbn [indexOf]. destruct (startsWithBy id p (c :: s)); [done|].
  by destruct (indexOf p s).
Qed.

Lemma indexOf_None_suffix p s t :
  indexOf p s = None → t `suffix_of` s → startsWithBy id p t = false.
Proof.
  revert t. induction s as [|c s IH]; intros t H Ht.
  - apply suffix_nil_inv in Ht as ->. simpl in H.
    by destruct (startsWithBy id p []).
  - apply indexOf_cons_None in H as [E Hs].
    destruct t as [|x t]; [apply IH; [done|apply suffix_nil]|].
    apply suffix_cons_inv in Ht as [->|Ht]; [done|]. by apply IH.
Qed.

Lemma includes_false p s :
  includes p s = false → indexOf p s = None.
Proof.
  unfold includes. intros H. apply bool_decide_eq_false in H.
  destruct (indexOf p s); [|done]. exfalso. apply H. by eexists.
Qed.

Lemma openUrlPattern_fails s :
  startsWithBy id (js "OPEN_URL:") s = false →
  Regex.matchHere (ignoreCase openUrlPattern) (re openUrlPattern) s = None.
Proof.
  intros H. unfold Regex.matchHere, openUrlPattern. cbn [re ignoreCase].
  rewrite rmatch_seq. cbn [Regex.rmatch].
  change (startsWithBy (Regex.canonicalize false) (js "OPEN_URL:") s)
    with (startsWithBy id (js "OPEN_URL:") s).
  by rewrite H.
Qed.

Lemma execAll_no_marker s : ∀ skip,
  indexOf (js "OPEN_URL:") s = None →
  Regex.execAll (ignoreCase openUrlPattern) (re openUrlPattern) s skip = [].
Proof.
  induction s as [|c s IH]; intros skip H; [done|].
  apply indexOf_cons_None in H as [E Hs].
  cbn [Regex.execAll]. destruct skip as [|n]; [|by apply IH].
  rewrite openUrlPattern_fails by done. by apply IH.
Qed.

(** X13.  Every text sent on an open socket goes out as exactly one
    [output] message, the last one, preceded by one [url_open] message
    for every URL the six patterns find: pattern by pattern, not in the
    order of the text.  A text that does not contain [OPEN_URL:] is
    forwarded unchanged, whatever URLs are announced for it. *)
Theorem sendToWebSocket_messages ws d w :
  wireMessages d = (UrlOpen <$> detectedUrls d) ++ [Output (outputText d)]
  ∧ (isOpen ws w = true →
       exec (sendToWebSocket ws d) w = deliver ws (wireMessages d) w)
  ∧ (isOpen ws w = false → exec (sendToWebSocket ws d) w = w)
  ∧ (includes (js "OPEN_URL:") d = false → outputText d = d).
Proof.
  split_and!.
  - unfold wireMessages, outputText. rewrite <- scanUrls_sent.
    by destruct (scanUrls d).
  - intros H. unfold exec. by rewrite sendToWebSocket_spec, H.
  - intros H. unfold exec. by rewrite sendToWebSocket_spec, H.
  - intros H. apply outputText_unchanged, execAll_no_marker.
    by apply includes_false.
Qed.

Lemma sendToWebSocket_messages_witness :
  exec (sendToWebSocket 0 (js "open http://a.b/c")) oneSessionOneSocket
  = deliver 0 [UrlOpen (js "http://a.b/c"); Output (js "open http://a.b/c")]
      oneSessionOneSocket.
Proof.
  destruct (sendToWebSocket_messages 0%nat (js "open http://a.b/c")
              oneSessionOneSocket) as (H1 & H2 & _ & H4).
  assert (Ho : isOpen 0 oneSessionOneSocket = true)
    by (vm_compute; reflexivity).
  assert (Hm : includes (js "OPEN_URL:") (js "open http://a.b/c") = false)
    by (vm_compute; reflexivity).
  rewrite (H2 Ho), H1, (H4 Hm). f_equal.
Defined.
(** ** Texts that do not mention [http] *)

Lemma canonicalize_eq a b :
  (Regex.canonicalize false a =? Regex.canonicalize false b) = true →
  (Regex.canonicalize true a =? Regex.canonicalize true b) = true.
Proof.
  intros H. apply N.eqb_eq in H. cbv in H. subst b. apply N.eqb_refl.
Qed.

Lemma startsWithBy_fold p : ∀ s,
  startsWithBy (Regex.canonicalize true) p s = false →
  startsWithBy (Regex.canonicalize false) p s = false.
Proof.
  induction p as [|a p IH]; intros [|b s] H; try done.
  cbn [startsWithBy] in *.
  destruct (Regex.canonicalize false a =? Regex.canonicalize false b) eqn:E;
    [|done].
  rewrite (canonicalize_eq _ _ E) in H. cbn in *. by apply IH.
Qed.

Lemma mentionsHttp_here s :
  mentionsHttp s = false →
  startsWithBy (Regex.canonicalize true) (js "http") s = false.
Proof.
  destruct s; cbn [mentionsHttp]; intros H;
    by apply orb_false_iff in H as [H _].
Qed.

Lemma mentionsHttp_suffix s t :
  t `suffix_of` s → mentionsHttp s = false → mentionsHttp t = false.
Proof.
  induction s as [|c s IH]; intros Ht H.
  - by apply suffix_nil_inv in Ht as ->.
  - destruct t as [|x t].
    + apply IH; [apply suffix_nil|]. cbn [mentionsHttp] in H.
      by apply orb_false_iff in H as [_ H].
    + apply suffix_cons_inv in Ht as [->|Ht]; [done|]. apply IH; [done|].
      cbn [mentionsHttp] in H. by apply orb_false_iff in H as [_ H].
Qed.

Lemma urlGroup_fails_http {R} ic s cap
    (k : list N → option (list N) → option R) :
  mentionsHttp s = false → Regex.rmatch ic urlGroup s cap k = None.
Proof.
  intros H. apply mentionsHttp_here in H.
  unfold urlGroup. cbn [Regex.rmatch].
  destruct ic; [by rewrite H|]. by rewrite (startsWithBy_fold _ _ H).
Qed.

Lemma pattern_fails_http p s :
  p ∈ patterns → mentionsHttp s = false →
  Regex.matchHere (ignoreCase p) (re p) s = None.
Proof.
  intros Hp Hs. unfold Regex.matchHere.
  assert (Hg : ∀ {R} ic a b (k : list N → option (list N) → option R),
             Regex.rmatch ic (Regex.Seq a (Regex.Seq b urlGroup)) s None k
             = None).
  { intros R ic a b k. rewrite rmatch_seq.
    apply rmatch_fails. intros t cap' Ht. rewrite rmatch_seq.
    apply rmatch_fails. intros t' cap'' Ht'.
    apply urlGroup_fails_http. eapply mentionsHttp_suffix; [|done].
    by etrans. }
  unfold patterns in Hp. repeat (apply elem_of_cons in Hp as [->|Hp]);
    [apply Hg..|]. by apply elem_of_nil in Hp.
Qed.

Lemma execAll_http p s skip :
  p ∈ patterns → mentionsHttp s = false →
  Regex.execAll (ignoreCase p) (re p) s skip = [].
Proof.
  intros Hp. revert skip. induction s as [|c s IH]; intros skip Hs; [done|].
  assert (Hs' : mentionsHttp s = false).
  { cbn [mentionsHttp] in Hs. by apply orb_false_iff in Hs as [_ Hs]. }
  cbn [Regex.execAll]. destruct skip as [|n]; [|by apply IH].
  rewrite pattern_fails_http by done. by apply IH.
Qed.

(** X14.  A text in which [http] does not occur, in any mix of upper and
    lower case, holds no URL for the detector: on an open socket it goes
    out as one [output] message with the text unchanged, and no
    [url_open] message is sent for it. *)
Theorem sendToWebSocket_plain ws d w :
  mentionsHttp d = false →
  isOpen ws w = true →
  detectedUrls d = []
  ∧ exec (sendToWebSocket ws d) w = deliver ws [Output d] w.
Proof.
  intros Hd Ho.
  assert (Hu : detectedUrls d = []).
  { unfold detectedUrls.
    assert (H : ∀ ps, (∀ p, p ∈ ps → p ∈ patterns) →
              flat_map (λ p, snd <$> Regex.execAll (ignoreCase p) (re p) d 0)
                ps = []).
    { induction ps as [|p ps IH]; intros Hps; [done|]. simpl.
      rewrite execAll_http; [|apply Hps; apply elem_of_cons; by left|done].
      apply IH. intros q Hq. apply Hps. apply elem_of_cons. by right. }
    by apply H. }
  split; [exact Hu|].
  assert (Hs : scanUrls d = ([], d)).
  { unfold scanUrls.
    assert (Hp : ∀ p st, p ∈ patterns → scanPattern d st p = st).
    { intros p st Hp. unfold scanPattern. by rewrite execAll_http. }
    generalize (([] : list WsMessage), d).
    induction patterns as [|p ps IH]; intros st; [done|]. simpl.
    rewrite Hp by (apply elem_of_cons; by left).
    apply IH. intros q st' Hq. apply Hp. apply elem_of_cons. by right. }
  unfold exec. rewrite sendToWebSocket_spec, Ho. cbn [snd].
  unfold wireMessages. by rewrite Hs.
Qed.

Lemma sendToWebSocket_plain_witness :
  exec (sendToWebSocket 0 (js "ssh host; ls -la")) oneSessionOneSocket
  = deliver 0 [Output (js "ssh host; ls -la")] oneSessionOneSocket.
Proof.
  assert (H1 : mentionsHttp (js "ssh host; ls -la") = false)
    by (vm_compute; reflexivity).
  assert (H2 : isOpen 0 oneSessionOneSocket = true)
    by (vm_compute; reflexivity).
  exact (proj2 (sendToWebSocket_plain 0%nat _ oneSessionOneSocket H1 H2)).
Defined.

(** ** A marker that is found *)

Lemma star_greedy {R} cls xs rest (k : list N → option R) r :
  Forall (λ c, cls c = true) xs →
  (∀ c, head rest = Some c → cls c = false) →
  k rest = Some r →
  Regex.star cls (xs ++ rest) k = Some r.
Proof.
  intros Hxs Hrest Hk. induction Hxs as [|x xs Hx _ IH]; simpl.
  - destruct rest as [|c rest']; [done|]. simpl.
    by rewrite (Hrest c eq_refl).
  - by rewrite Hx, IH.
Qed.

Lemma startsWithBy_app l t : startsWithBy id l (l ++ t) = true.
Proof.
  induction l as [|a l IH]; [done|]. simpl. by rewrite N.eqb_refl.
Qed.

Lemma rmatch_lit_app {R} l t cap (k : list N → option (list N) → option R) :
  Regex.rmatch false (Regex.Lit l) (l ++ t) cap k = k t cap.
Proof.
  cbn [Regex.rmatch].
  change (startsWithBy (Regex.canonicalize false) l (l ++ t))
    with (startsWithBy id l (l ++ t)).
  by rewrite startsWithBy_app, drop_app_length.
Qed.

Lemma take_matched (u r : list N) :
  take (length (u ++ r) - length r) (u ++ r) = u.
Proof.
  rewrite length_app. replace (length u + length r - length r)%nat
    with (length u) by lia. apply take_app_length.
Qed.

Lemma rmatch_group {R} ic a s cap (k : list N → option (list N) → option R) :
  Regex.rmatch ic (Regex.Group a) s cap k
  = Regex.rmatch ic a s cap
      (λ rest _, k rest (Some (take (length s - length rest) s))).
Proof. done. Qed.

Lemma rmatch_opt {R} ic a s cap (k : list N → option (list N) → option R) :
  Regex.rmatch ic (Regex.Opt a) s cap k
  = match Regex.rmatch ic a s cap k with
    | Some x => Some x
    | None => k s cap
    end.
Proof. done. Qed.

(** The capture group on a URL that runs up to the end of the text, or
    up to a character that cannot be part of a URL. *)
Lemma urlGroup_matches {R} scheme body rest cap
    (k : list N → option (list N) → option R) r :
  scheme ∈ [js "http://"; js "https://"] →
  body ≠ [] →
  Forall (λ c, isUrlChar c = true) body →
  (∀ c, head rest = Some c → isUrlChar c = false) →
  k rest (Some (scheme ++ body)) = Some r →
  Regex.rmatch false urlGroup ((scheme ++ body) ++ rest) cap k = Some r.
Proof.
  intros Hsch Hne Hbody Hrest Hk.
  destruct body as [|c body]; [done|].
  apply Forall_cons in Hbody as [Hc Hbody].
  unfold urlGroup. rewrite rmatch_group.
  set (K := λ (rest0 : list N) (_ : option (list N)),
              k rest0 (Some (take (length ((scheme ++ c :: body) ++ rest)
                                   - length rest0)
                               ((scheme ++ c :: body) ++ rest)))).
  assert (HK : ∀ cap', K rest cap' = Some r).
  { intros cap'. unfold K. by rewrite take_matched. }
  assert (Hplus : Regex.rmatch false (Regex.Plus isUrlChar)
                    (c :: body ++ rest) cap K = Some r).
  { cbn [Regex.rmatch]. rewrite Hc. by apply star_greedy. }
  rewrite !elem_of_cons in Hsch. destruct Hsch as [->|[->|Hsch]];
    [..|by apply elem_of_nil in Hsch].
  - change ((js "http://" ++ c :: body) ++ rest)
      with (js "http" ++ js "://" ++ c :: body ++ rest).
    rewrite rmatch_seq, rmatch_lit_app. cbv beta.
    rewrite rmatch_seq, rmatch_opt.
    assert (Hs : ∀ k', Regex.rmatch false (Regex.Lit (js "s"))
                   (js "://" ++ c :: body ++ rest) cap k' = (None : option R))
      by done.
    rewrite Hs. rewrite rmatch_seq, rmatch_lit_app. exact Hplus.
  - change ((js "https://" ++ c :: body) ++ rest)
      with (js "http" ++ js "s" ++ js "://" ++ c :: body ++ rest).
    rewrite rmatch_seq, rmatch_lit_app. cbv beta.
    rewrite rmatch_seq, rmatch_opt, rmatch_lit_app.
    rewrite rmatch_seq, rmatch_lit_app. by rewrite Hplus.
Qed.
Lemma openUrlPattern_matches sp scheme body rest :
  Forall (λ c, isSpace c = true) sp →
  scheme ∈ [js "http://"; js "https://"] →
  body ≠ [] →
  Forall (λ c, isUrlChar c = true) body →
  (∀ c, head rest = Some c → isUrlChar c = false) →
  Regex.matchHere (ignoreCase openUrlPattern) (re openUrlPattern)
    ((js "OPEN_URL:" ++ sp ++ scheme ++ body) ++ rest)
  = Some (length (js "OPEN_URL:" ++ sp ++ scheme ++ body), scheme ++ body).
Proof.
  intros Hsp Hsch Hne Hbody Hrest.
  unfold Regex.matchHere, openUrlPattern. cbn [re ignoreCase].
  set (d := (js "OPEN_URL:" ++ sp ++ scheme ++ body) ++ rest).
  assert (Hd : d = js "OPEN_URL:" ++ sp ++ (scheme ++ body) ++ rest).
  { unfold d. by rewrite <- !app_assoc. }
  rewrite Hd at 1. rewrite rmatch_seq, rmatch_lit_app. cbv beta.
  rewrite rmatch_seq. cbn [Regex.rmatch].
  apply star_greedy; [done| |].
  - intros c Hc. assert (c = 104) as ->; [|done].
    rewrite !elem_of_cons in Hsch. destruct Hsch as [->|[->|Hsch]];
      [..|by apply elem_of_nil in Hsch]; vm_compute in Hc; congruence.
  - apply urlGroup_matches; try done. cbn [default]. do 2 f_equal.
    unfold d. rewrite (length_app _ rest). apply Nat.add_sub.
Qed.

Lemma execAll_skip ic r s : ∀ n,
  (n ≤ length s)%nat →
  Regex.execAll ic r s n = Regex.execAll ic r (drop n s) 0.
Proof.
  induction s as [|c s IH]; intros [|n] H.
  - done.
  - simpl in H. lia.
  - by rewrite drop_0.
  - cbn [Regex.execAll drop]. apply IH. simpl in H. lia.
Qed.

Lemma execAll_match ic r u rest g :
  u ≠ [] →
  Regex.matchHere ic r (u ++ rest) = Some (length u, g) →
  Regex.execAll ic r (u ++ rest) 0 = (u, g) :: Regex.execAll ic r rest 0.
Proof.
  intros Hu Hm. destruct u as [|c u]; [done|].
  change ((c :: u) ++ rest) with (c :: u ++ rest) in *.
  cbn [Regex.execAll]. rewrite Hm.
  replace (length (c :: u) - 1)%nat with (length u) by (simpl; lia).
  rewrite execAll_skip by (rewrite length_app; lia).
  rewrite drop_app_length. f_equal. f_equal.
  change (c :: u ++ rest) with ((c :: u) ++ rest).
  by rewrite take_app_length.
Qed.

Lemma scanPattern_keeps d st p :
  includes (js "OPEN_URL") (source p) = false →
  (scanPattern d st p).2 = st.2.
Proof.
  intros Hp. unfold scanPattern. rewrite Hp. revert st.
  induction (Regex.execAll (ignoreCase p) (re p) d 0) as [|[m0 url] ms IH];
    intros [sent outputData]; [done|]. simpl. by rewrite IH.
Qed.

Lemma indexOf_unfold p s :
  indexOf p s = if startsWithBy id p s then Some 0%nat
                else match s with
                     | [] => None
                     | _ :: s' => S <$> indexOf p s'
                     end.
Proof. by destruct s. Qed.

Lemma replaceString_prefix m rest tmpl :
  replaceString (m ++ rest) m tmpl = getSubstitution m [] rest tmpl ++ rest.
Proof.
  unfold replaceString. rewrite indexOf_unfold, startsWithBy_app.
  cbv zeta. rewrite Nat.add_0_l, take_0, drop_app_length. done.
Qed.

Lemma getSubstitution_plain m b a tmpl :
  Forall (λ c, c ≠ 36) tmpl → getSubstitution m b a tmpl = tmpl.
Proof.
  induction 1 as [|c t Hc _ IH]; [done|].
  cbn [getSubstitution].
  repeat case_match; subst; try done; by rewrite IH.
Qed.

Lemma openingInBrowser_plain url :
  Forall (λ c, c ≠ 36) url → Forall (λ c, c ≠ 36) (openingInBrowser url).
Proof.
  intros H. unfold openingInBrowser. repeat apply Forall_app_2; [..|done].
  - repeat constructor; done.
  - apply Forall_forall. intros c Hc.
    assert (Hb : forallb (λ c, negb (c =? 36))
                   (js " Opening in browser: ") = true)
      by (vm_compute; reflexivity).
    rewrite forallb_forall in Hb. specialize (Hb c).
    rewrite <- list_elem_of_In in Hb. specialize (Hb Hc).
    by apply negb_true_iff, N.eqb_neq in Hb.
Qed.

(** X15.  A chunk that starts with [OPEN_URL:], optional white space and
    a URL, the URL ending at the end of the chunk or at white space, ESC
    or BEL, with no second marker after it: the URL is announced in a
    [url_open] message, complete and without what follows it, and in the
    text sent the marker and the URL are replaced by the globe line;
    what follows the URL is kept.  (The URL is taken to hold no dollar
    sign: [replace] gives a dollar sign in the replacement a meaning of
    its own.) *)
Theorem open_url_marker sp scheme body rest :
  Forall (λ c, isSpace c = true) sp →
  scheme ∈ [js "http://"; js "https://"] →
  body ≠ [] →
  Forall (λ c, isUrlChar c = true) body →
  Forall (λ c, c ≠ 36) body →
  (∀ c, head rest = Some c → isUrlChar c = false) →
  includes (js "OPEN_URL:") rest = false →
  let url := scheme ++ body in
  let d := (js "OPEN_URL:" ++ sp ++ url) ++ rest in
  UrlOpen url ∈ wireMessages d
  ∧ outputText d = openingInBrowser url ++ rest.
Proof.
  intros Hsp Hsch Hne Hbody Hplain Hrest Hmark url d.
  assert (Hex : Regex.execAll (ignoreCase openUrlPattern) (re openUrlPattern)
                  d 0 = [(js "OPEN_URL:" ++ sp ++ url, url)]).
  { unfold d. rewrite (execAll_match _ _ _ _ url).
    - f_equal. apply execAll_no_marker. by apply includes_false.
    - by destruct sp.
    - by apply openUrlPattern_matches. }
  split.
  - unfold wireMessages.
    pose proof (scanUrls_sent d) as Hs.
    destruct (scanUrls d) as [sent0 out]. cbn [fst] in Hs. subst sent0.
    apply elem_of_app. left. apply list_elem_of_fmap. exists url.
    split; [done|]. unfold detectedUrls. apply list_elem_of_In.
    apply in_flat_map. exists openUrlPattern. split.
    + apply list_elem_of_In. unfold patterns. apply elem_of_cons. right.
      apply elem_of_cons. by left.
    + apply list_elem_of_In. rewrite Hex. cbn. apply elem_of_cons. by left.
  - unfold outputText, scanUrls, patterns. cbn [foldl].
    rewrite !scanPattern_keeps by (by vm_compute).
    assert (Ho : ∀ st, (scanPattern d st openUrlPattern).2
                       = replaceString st.2 (js "OPEN_URL:" ++ sp ++ url)
                           (openingInBrowser url)).
    { intros [sent0 out]. unfold scanPattern. rewrite Hex. cbn [foldl snd].
      assert (includes (js "OPEN_URL") (source openUrlPattern) = true) as ->
        by (by vm_compute). done. }
    rewrite Ho, scanPattern_keeps by (by vm_compute). cbn [snd].
    unfold d. rewrite replaceString_prefix. f_equal.
    apply getSubstitution_plain, openingInBrowser_plain.
    apply Forall_app_2; [|done].
    rewrite !elem_of_cons in Hsch. destruct Hsch as [->|[->|Hsch]];
      [..|by apply elem_of_nil in Hsch]; repeat constructor; done.
Qed.

Lemma open_url_marker_witness :
  UrlOpen (js "https://x.y/z") ∈ wireMessages (js "OPEN_URL: https://x.y/z ok")
  ∧ outputText (js "OPEN_URL: https://x.y/z ok")
    = openingInBrowser (js "https://x.y/z") ++ js " ok".
Proof.
  assert (H1 : Forall (λ c, isSpace c = true) (js " "))
    by (repeat constructor).
  assert (H2 : js "https://" ∈ [js "http://"; js "https://"]).
  { apply elem_of_cons. right. apply elem_of_cons. by left. }
  assert (H3 : js "x.y/z" ≠ []) by discriminate.
  assert (H4 : Forall (λ c, isUrlChar c = true) (js "x.y/z"))
    by (repeat constructor).
  assert (H5 : Forall (λ c, c ≠ 36) (js "x.y/z"))
    by (repeat constructor; discriminate).
  assert (H6 : ∀ c, head (js " ok") = Some c → isUrlChar c = false).
  { intros c Hc. vm_compute in Hc. injection Hc as <-. reflexivity. }
  assert (H7 : includes (js "OPEN_URL:") (js " ok") = false)
    by (vm_compute; reflexivity).
  exact (open_url_marker (js " ") (js "https://") (js "x.y/z") (js " ok")
           H1 H2 H3 H4 H5 H6 H7).
Defined.

(** ** The Claude settings *)

Lemma lookup_fromProcessEnv env n m k :
  ClaudeConfig.fromProcessEnv env n m !! k
  = if decide (k = n)
    then match env !! n with
         | Some (c :: s) => Some (ClaudeConfig.JString (c :: s))
         | _ => m !! k
         end
    else m !! k.
Proof.
  unfold ClaudeConfig.fromProcessEnv.
  destruct (decide (k = n)) as [->|Hne].
  - destruct (env !! n) as [[|c s]|]; try done. apply lookup_insert_eq.
  - destruct (env !! n) as [[|c s]|]; try done. by apply lookup_insert_ne.
Qed.

Lemma lookup_fromFile v n m k :
  ClaudeConfig.fromFile v n m !! k
  = if decide (k = n)
    then if ClaudeConfig.toBoolean v
            && negb (ClaudeConfig.toBoolean (m !! n))
         then v else m !! k
    else m !! k.
Proof.
  unfold ClaudeConfig.fromFile.
  destruct (decide (k = n)) as [->|Hne].
  - destruct v as [j|]; [|done].
    destruct (_ && _); [apply lookup_insert_eq|done].
  - destruct v as [j|]; [|done].
    destruct (_ && _); [by apply lookup_insert_ne|done].
Qed.

Lemma fromFile_falsy v n m :
  ClaudeConfig.toBoolean v = false → ClaudeConfig.fromFile v n m = m.
Proof.
  intros H. unfold ClaudeConfig.fromFile. destruct v; [|done]. by rewrite H.
Qed.

(** The first inner [try] as two guarded assignments. *)
Lemma settings_phase sf m :
  ClaudeConfig.tryWith sf ClaudeConfig.fromSettings m
  = ClaudeConfig.fromFile
      (settingsValue sf (js "ANTHROPIC_SMALL_FAST_MODEL"))
      (js "ANTHROPIC_SMALL_FAST_MODEL")
      (ClaudeConfig.fromFile (settingsValue sf (js "ANTHROPIC_MODEL"))
         (js "ANTHROPIC_MODEL") m).
Proof.
  unfold settingsValue.
  rewrite !bool_decide_true
    by (rewrite !elem_of_cons; auto).
  destruct sf as [j|]; [|done]. unfold ClaudeConfig.tryWith,
    ClaudeConfig.fromSettings.
  destruct (ClaudeConfig.getProp j (js "env")) as [[e|]|] eqn:E; try done.
  cbn [mbind option_bind].
  destruct (ClaudeConfig.toBoolean (Some e)) eqn:T; [|done].
  assert (He : ∀ name, ClaudeConfig.getProp e name
                       = Some (default None (ClaudeConfig.getProp e name))).
  { intros name. by destruct e. }
  rewrite (He (js "ANTHROPIC_MODEL")). cbn [mbind option_bind].
  rewrite (He (js "ANTHROPIC_SMALL_FAST_MODEL")). cbn [mbind option_bind].
  done.
Qed.
Lemma webuiKeys_lookup :
  (list_to_map webuiKeys : gmap _ _) !! js "ANTHROPIC_BASE_URL"
    = Some (js "baseUrl")
  ∧ (list_to_map webuiKeys : gmap _ _) !! js "ANTHROPIC_AUTH_TOKEN"
    = Some (js "authToken")
  ∧ (list_to_map webuiKeys : gmap _ _) !! js "ANTHROPIC_MODEL"
    = Some (js "model")
  ∧ (list_to_map webuiKeys : gmap _ _) !! js "ANTHROPIC_SMALL_FAST_MODEL"
    = Some (js "smallModel")
  ∧ (list_to_map webuiKeys : gmap _ _) !! js "HTTP_PROXY"
    = Some (js "httpProxy")
  ∧ (list_to_map webuiKeys : gmap _ _) !! js "HTTPS_PROXY"
    = Some (js "httpsProxy").
Proof. vm_compute. repeat split; reflexivity. Qed.

(** The second inner [try] as six guarded assignments. *)
Lemma webui_phase wf m :
  ClaudeConfig.tryWith wf ClaudeConfig.fromWebuiConfig m
  = ClaudeConfig.fromFile (webuiValue wf (js "HTTPS_PROXY")) (js "HTTPS_PROXY")
      (ClaudeConfig.fromFile (webuiValue wf (js "HTTP_PROXY"))
         (js "HTTP_PROXY")
      (ClaudeConfig.fromFile
         (webuiValue wf (js "ANTHROPIC_SMALL_FAST_MODEL"))
         (js "ANTHROPIC_SMALL_FAST_MODEL")
      (ClaudeConfig.fromFile (webuiValue wf (js "ANTHROPIC_MODEL"))
         (js "ANTHROPIC_MODEL")
      (ClaudeConfig.fromFile (webuiValue wf (js "ANTHROPIC_AUTH_TOKEN"))
         (js "ANTHROPIC_AUTH_TOKEN")
      (ClaudeConfig.fromFile (webuiValue wf (js "ANTHROPIC_BASE_URL"))
         (js "ANTHROPIC_BASE_URL") m))))).
Proof.
  destruct webuiKeys_lookup as (K1 & K2 & K3 & K4 & K5 & K6).
  unfold webuiValue. destruct wf as [j|]; [|done].
  rewrite K1, K2, K3, K4, K5, K6.
  unfold ClaudeConfig.tryWith, ClaudeConfig.fromWebuiConfig.
  assert (Hj : j = ClaudeConfig.JNull
               ∨ ∀ name, ClaudeConfig.getProp j name
                   = Some (default None (ClaudeConfig.getProp j name))).
  { destruct j; auto. }
  destruct Hj as [->|He]; [done|].
  rewrite (He (js "baseUrl")). cbn [mbind option_bind].
  rewrite (He (js "authToken")). cbn [mbind option_bind].
  rewrite (He (js "model")). cbn [mbind option_bind].
  rewrite (He (js "smallModel")). cbn [mbind option_bind].
  rewrite (He (js "httpProxy")). cbn [mbind option_bind].
  rewrite (He (js "httpsProxy")). cbn [mbind option_bind].
  done.
Qed.

Lemma truthy_not_empty v :
  ClaudeConfig.toBoolean (Some v) = true → ClaudeConfig.isEmptyValue v = false.
Proof.
  intros H. unfold ClaudeConfig.isEmptyValue. rewrite H.
  destruct v as [| | |[|c s]| |]; done.
Qed.
Lemma firstTruthy_truthy a b c v :
  firstTruthy a b c = Some v → ClaudeConfig.toBoolean (Some v) = true.
Proof.
  unfold firstTruthy.
  destruct (ClaudeConfig.toBoolean a) eqn:Ha; [by intros ->|].
  destruct (ClaudeConfig.toBoolean b) eqn:Hb; [by intros ->|].
  destruct (ClaudeConfig.toBoolean c) eqn:Hc; [by intros ->|done].
Qed.

(** Comparison of variable names that are known to differ. *)
Ltac name_decide :=
  repeat match goal with
  | |- context [decide (?a = ?b)] =>
      let H := fresh in
      destruct (decide (a = b)) as [H|H];
      [ try (exfalso; congruence)
      | try (exfalso; apply H; reflexivity) ];
      cbv iota
  end.

Ltac lookup_step :=
  first [ rewrite lookup_fromFile
        | rewrite lookup_fromProcessEnv
        | rewrite lookup_empty ];
  name_decide.

Lemma names_NoDup : NoDup ClaudeConfig.names.
Proof. apply (bool_decide_unpack _). vm_compute. exact I. Qed.

(** The map before the final filter, for six names that differ. *)
Lemma envVars_lookup_gen (n1 n2 n3 n4 n5 n6 name : list N)
    (env : gmap (list N) (list N))
    (sv wv : list N → option ClaudeConfig.Json) :
  NoDup [n1; n2; n3; n4; n5; n6] →
  name ∈ [n1; n2; n3; n4; n5; n6] →
  sv n1 = None → sv n2 = None → sv n5 = None → sv n6 = None →
  ClaudeConfig.fromFile (wv n6) n6
    (ClaudeConfig.fromFile (wv n5) n5
    (ClaudeConfig.fromFile (wv n4) n4
    (ClaudeConfig.fromFile (wv n3) n3
    (ClaudeConfig.fromFile (wv n2) n2
    (ClaudeConfig.fromFile (wv n1) n1
    (ClaudeConfig.fromFile (sv n4) n4
    (ClaudeConfig.fromFile (sv n3) n3
    (ClaudeConfig.fromProcessEnv env n6
    (ClaudeConfig.fromProcessEnv env n5
    (ClaudeConfig.fromProcessEnv env n4
    (ClaudeConfig.fromProcessEnv env n3
    (ClaudeConfig.fromProcessEnv env n2
    (ClaudeConfig.fromProcessEnv env n1 ∅))))))))))))) !! name
  = firstTruthy (ClaudeConfig.JString <$> env !! name) (sv name) (wv name).
Proof.
  intros Hd Hn S1 S2 S5 S6.
  repeat match goal with
  | H : NoDup (_ :: _) |- _ => apply NoDup_cons in H as [? H]
  end.
  rewrite ?not_elem_of_cons in *. destruct_and!.
  rewrite !elem_of_cons in Hn.
  destruct Hn as [->|[->|[->|[->|[->|[->|Hn]]]]]];
    [..|by apply elem_of_nil in Hn];
    repeat lookup_step;
    unfold firstTruthy; rewrite ?S1, ?S2, ?S5, ?S6;
    match goal with
    | |- context [env !! ?k] =>
        destruct (env !! k) as [[|c s]|];
        destruct (ClaudeConfig.toBoolean (sv k)) eqn:Hs;
        destruct (ClaudeConfig.toBoolean (wv k)) eqn:Hw
    end;
    repeat (cbn [fmap option_fmap option_map ClaudeConfig.toBoolean andb negb];
            rewrite ?Hs, ?Hw);
    try done.
Qed.
Lemma envVars_lookup_other (n1 n2 n3 n4 n5 n6 name : list N)
    (env : gmap (list N) (list N))
    (sv wv : list N → option ClaudeConfig.Json) :
  name ∉ [n1; n2; n3; n4; n5; n6] →
  ClaudeConfig.fromFile (wv n6) n6
    (ClaudeConfig.fromFile (wv n5) n5
    (ClaudeConfig.fromFile (wv n4) n4
    (ClaudeConfig.fromFile (wv n3) n3
    (ClaudeConfig.fromFile (wv n2) n2
    (ClaudeConfig.fromFile (wv n1) n1
    (ClaudeConfig.fromFile (sv n4) n4
    (ClaudeConfig.fromFile (sv n3) n3
    (ClaudeConfig.fromProcessEnv env n6
    (ClaudeConfig.fromProcessEnv env n5
    (ClaudeConfig.fromProcessEnv env n4
    (ClaudeConfig.fromProcessEnv env n3
    (ClaudeConfig.fromProcessEnv env n2
    (ClaudeConfig.fromProcessEnv env n1 ∅))))))))))))) !! name
  = None.
Proof.
  intros Hn. rewrite !not_elem_of_cons in Hn. destruct_and!.
  by repeat lookup_step.
Qed.

Lemma settingsValue_other sf name :
  name ∉ [js "ANTHROPIC_MODEL"; js "ANTHROPIC_SMALL_FAST_MODEL"] →
  settingsValue sf name = None.
Proof. intros H. unfold settingsValue. by rewrite bool_decide_false. Qed.

Lemma not_model_name name :
  name ∈ [js "ANTHROPIC_BASE_URL"; js "ANTHROPIC_AUTH_TOKEN";
          js "HTTP_PROXY"; js "HTTPS_PROXY"] →
  name ∉ [js "ANTHROPIC_MODEL"; js "ANTHROPIC_SMALL_FAST_MODEL"].
Proof.
  intros H1 H2.
  assert (E : name = js "ANTHROPIC_MODEL"
              ∨ name = js "ANTHROPIC_SMALL_FAST_MODEL").
  { apply elem_of_cons in H2 as [E|H2]; [by left|].
    apply elem_of_cons in H2 as [E|H2]; [by right|].
    by apply elem_of_nil in H2. }
  rewrite !elem_of_cons in H1.
  destruct H1 as [->|[->|[->|[->|H1]]]]; [..|by apply elem_of_nil in H1];
    destruct E as [E|E]; vm_compute in E; discriminate E.
Qed.

Lemma filter_truthy (m : gmap (list N) ClaudeConfig.Json) k :
  (∀ v, m !! k = Some v → ClaudeConfig.toBoolean (Some v) = true) →
  filter (λ kv, ClaudeConfig.isEmptyValue kv.2 = false) m !! k = m !! k.
Proof.
  intros H. destruct (m !! k) as [v|] eqn:E.
  - apply map_lookup_filter_Some. split; [done|]. cbn.
    by apply truthy_not_empty, H.
  - apply map_lookup_filter_None. by left.
Qed.

(** The result, variable by variable. *)
Lemma generateClaudeEnvVars_lookup env sf wf name :
  ClaudeConfig.generateClaudeEnvVars env sf wf !! name
  = if decide (name ∈ ClaudeConfig.names)
    then firstTruthy (ClaudeConfig.JString <$> env !! name)
           (settingsValue sf name) (webuiValue wf name)
    else None.
Proof.
  unfold ClaudeConfig.generateClaudeEnvVars. cbv zeta.
  rewrite settings_phase, webui_phase.
  assert (S : ∀ n, n ∈ [js "ANTHROPIC_BASE_URL"; js "ANTHROPIC_AUTH_TOKEN";
                        js "HTTP_PROXY"; js "HTTPS_PROXY"] →
                   settingsValue sf n = None).
  { intros n Hn. by apply settingsValue_other, not_model_name. }
  destruct (decide (name ∈ ClaudeConfig.names)) as [Hin|Hout].
  - pose proof (envVars_lookup_gen _ _ _ _ _ _ name env
                  (settingsValue sf) (webuiValue wf) names_NoDup Hin) as L.
    rewrite filter_truthy.
    + apply L; apply S; rewrite !elem_of_cons; auto.
    + intros v. rewrite L by (apply S; rewrite !elem_of_cons; auto).
      apply firstTruthy_truthy.
  - apply map_lookup_filter_None. left.
    by apply (envVars_lookup_other _ _ _ _ _ _ name env
                (settingsValue sf) (webuiValue wf)).
Qed.

(** X16.  Each of the six variables is resolved on its own, and the
    first source that offers a truthy value wins: the environment of the
    server, then [settings.json] (which is only asked for the two model
    variables), then [claude-webui.json].  A variable that is set but
    empty in the environment counts as not set there. *)
Theorem generateClaudeEnvVars_priority env sf wf name :
  name ∈ ClaudeConfig.names →
  ClaudeConfig.generateClaudeEnvVars env sf wf !! name
  = firstTruthy (ClaudeConfig.JString <$> env !! name)
      (settingsValue sf name) (webuiValue wf name).
Proof.
  intros H. rewrite generateClaudeEnvVars_lookup. by rewrite decide_True.
Qed.

Lemma generateClaudeEnvVars_priority_witness :
  let env : gmap (list N) (list N) :=
    {[ js "ANTHROPIC_MODEL" := js "from-env"; js "HTTP_PROXY" := [] ]} in
  let settings := ClaudeConfig.JObject
    [ (js "env", ClaudeConfig.JObject
        [ (js "ANTHROPIC_MODEL", ClaudeConfig.JString (js "from-settings"));
          (js "ANTHROPIC_SMALL_FAST_MODEL",
           ClaudeConfig.JString (js "small-from-settings")) ]) ] in
  let webui := ClaudeConfig.JObject
    [ (js "model", ClaudeConfig.JString (js "from-webui"));
      (js "smallModel", ClaudeConfig.JString (js "small-from-webui"));
      (js "httpProxy", ClaudeConfig.JString (js "proxy-from-webui")) ] in
  let r := ClaudeConfig.generateClaudeEnvVars env (Some settings) (Some webui) in
  r !! js "ANTHROPIC_MODEL" = Some (ClaudeConfig.JString (js "from-env"))
  ∧ r !! js "ANTHROPIC_SMALL_FAST_MODEL"
    = Some (ClaudeConfig.JString (js "small-from-settings"))
  ∧ r !! js "HTTP_PROXY" = Some (ClaudeConfig.JString (js "proxy-from-webui")).
Proof.
  intros env settings webui r.
  assert (H1 : js "ANTHROPIC_MODEL" ∈ ClaudeConfig.names).
  { unfold ClaudeConfig.names. rewrite !elem_of_cons. auto. }
  assert (H2 : js "ANTHROPIC_SMALL_FAST_MODEL" ∈ ClaudeConfig.names).
  { unfold ClaudeConfig.names. rewrite !elem_of_cons. auto 6. }
  assert (H3 : js "HTTP_PROXY" ∈ ClaudeConfig.names).
  { unfold ClaudeConfig.names. rewrite !elem_of_cons. auto 8. }
  unfold r. split; [|split].
  - rewrite (generateClaudeEnvVars_priority env _ _ _ H1).
    vm_compute. reflexivity.
  - rewrite (generateClaudeEnvVars_priority env _ _ _ H2).
    vm_compute. reflexivity.
  - rewrite (generateClaudeEnvVars_priority env _ _ _ H3).
    vm_compute. reflexivity.
Defined.

(** X17.  The result only ever holds the six variables, and never with
    an empty or otherwise falsy value: whatever the environment and the
    two files contain, every entry is truthy. *)
Theorem generateClaudeEnvVars_entries env sf wf name v :
  ClaudeConfig.generateClaudeEnvVars env sf wf !! name = Some v →
  name ∈ ClaudeConfig.names
  ∧ ClaudeConfig.toBoolean (Some v) = true
  ∧ v ≠ ClaudeConfig.JString [].
Proof.
  rewrite generateClaudeEnvVars_lookup.
  destruct (decide (name ∈ ClaudeConfig.names)) as [Hin|Hout]; [|done].
  intros H. apply firstTruthy_truthy in H.
  split; [done|]. split; [done|]. by intros ->.
Qed.

Lemma generateClaudeEnvVars_entries_witness :
  js "HTTP_PROXY" ∈ ClaudeConfig.names
  ∧ ClaudeConfig.toBoolean (Some (ClaudeConfig.JString (js "p"))) = true.
Proof.
  assert (H : ClaudeConfig.generateClaudeEnvVars
                {[ js "HTTP_PROXY" := js "p" ]} None None !! js "HTTP_PROXY"
              = Some (ClaudeConfig.JString (js "p")))
    by (vm_compute; reflexivity).
  destruct (generateClaudeEnvVars_entries _ _ _ _ _ H) as (H1 & H2 & _).
  split; [exact H1|exact H2].
Defined.

(** X18.  A settings file that cannot be read or parsed, that holds
    [null] (where the code runs into a [TypeError] which it swallows),
    or that holds anything but an object, contributes nothing: the
    result is the one for a missing file.  And [settings.json] never
    sets the base URL, the token or a proxy, whatever it contains. *)
Theorem generateClaudeEnvVars_robust env sf wf :
  (∀ j, (∀ members, j ≠ ClaudeConfig.JObject members) →
     ClaudeConfig.generateClaudeEnvVars env (Some j) wf
     = ClaudeConfig.generateClaudeEnvVars env None wf
     ∧ ClaudeConfig.generateClaudeEnvVars env sf (Some j)
       = ClaudeConfig.generateClaudeEnvVars env sf None)
  ∧ (∀ name,
       name ∈ [js "ANTHROPIC_BASE_URL"; js "ANTHROPIC_AUTH_TOKEN";
               js "HTTP_PROXY"; js "HTTPS_PROXY"] →
       ClaudeConfig.generateClaudeEnvVars env sf wf !! name
       = ClaudeConfig.generateClaudeEnvVars env None wf !! name)
  ∧ (∀ name,
       ClaudeConfig.generateClaudeEnvVars env None None !! name
       = if decide (name ∈ ClaudeConfig.names)
         then match env !! name with
              | Some (c :: s) => Some (ClaudeConfig.JString (c :: s))
              | _ => None
              end
         else None).
Proof.
  split_and!.
  - intros j Hj. split.
    + unfold ClaudeConfig.generateClaudeEnvVars. cbv zeta. do 2 f_equal.
      destruct j; try done. by destruct (Hj members).
    + unfold ClaudeConfig.generateClaudeEnvVars. cbv zeta. f_equal.
      destruct j; try done. by destruct (Hj members).
  - intros name Hn. rewrite !generateClaudeEnvVars_lookup.
    destruct (decide _); [|done].
    by rewrite !(settingsValue_other _ name) by (by apply not_model_name).
  - intros name. rewrite generateClaudeEnvVars_lookup.
    destruct (decide _); [|done]. unfold firstTruthy, settingsValue, webuiValue.
    destruct (env !! name) as [[|c s]|]; cbn; try case_bool_decide; done.
Qed.

Lemma generateClaudeEnvVars_robust_witness :
  ClaudeConfig.generateClaudeEnvVars {[ js "HTTP_PROXY" := js "p" ]}
    (Some ClaudeConfig.JNull) (Some (ClaudeConfig.JNumber 7))
  = ClaudeConfig.generateClaudeEnvVars {[ js "HTTP_PROXY" := js "p" ]}
      None None.
Proof.
  destruct (generateClaudeEnvVars_robust {[ js "HTTP_PROXY" := js "p" ]}
              None (Some (ClaudeConfig.JNumber 7))) as (H & _).
  assert (H1 : ∀ members,
            ClaudeConfig.JNull ≠ ClaudeConfig.JObject members)
    by (intros members; discriminate).
  assert (H2 : ∀ members,
            ClaudeConfig.JNumber 7 ≠ ClaudeConfig.JObject members)
    by (intros members; discriminate).
  rewrite (proj1 (H _ H1)).
  destruct (generateClaudeEnvVars_robust {[ js "HTTP_PROXY" := js "p" ]}
              None None) as (H' & _).
  exact (proj2 (H' _ H2)).
Defined.

(** ** Keys and paths *)

Lemma steady_refl w : steady w w.
Proof. split; [intros l s' H; by exists s'|done]. Qed.

Lemma steady_trans w1 w2 w3 : steady w1 w2 → steady w2 w3 → steady w1 w3.
Proof.
  intros [H1 H2] [G1 G2]. split.
  - intros l s3 Hs3. destruct (G1 _ _ Hs3) as (s2 & Hs2 & E2).
    destruct (H1 _ _ Hs2) as (s1 & Hs1 & E1). exists s1. split; congruence.
  - intros k l H. by apply H2, G2.
Qed.

Lemma steady_keyed w w' : keyed w → steady w w' → keyed w'.
Proof.
  intros Hk [H1 H2] k l s' Hm Hs'. destruct (H1 _ _ Hs') as (s & Hs & ->).
  eapply Hk; [by apply H2|done].
Qed.

Lemma Steady_ret {A} (x : A) : Steady (mret x).
Proof. intros w. apply steady_refl. Qed.

Lemma Steady_gets {A} (f : World → A) : Steady (gets f).
Proof. intros w. apply steady_refl. Qed.

Lemma Steady_bind {A B} (m : M A) (f : A → M B) :
  Steady m → (∀ x, Steady (f x)) → Steady (m ≫= f).
Proof.
  intros Hm Hf w. rewrite exec_bind.
  eapply steady_trans; [apply Hm|apply Hf].
Qed.

Lemma Steady_forEach {A} (f : A → M ()) l :
  (∀ x, Steady (f x)) → Steady (forEach f l).
Proof.
  intros H. induction l as [|x l IH]; simpl.
  - apply Steady_ret.
  - apply Steady_bind; [apply H|]. intros _. apply IH.
Qed.

Lemma Steady_frame (f : World → World) :
  (∀ w, heap (f w) = heap w) → (∀ w, sessions (f w) = sessions w) →
  Steady (modify f).
Proof.
  intros Hh Hm w. unfold exec, modify. cbn. split.
  - intros l s'. rewrite Hh. intros H. by exists s'.
  - intros k l. by rewrite Hm.
Qed.

Lemma Steady_updateSession l f :
  (∀ s, projectPath (f s) = projectPath s) → Steady (updateSession l f).
Proof.
  intros Hf w. unfold exec, updateSession, modify. cbn. split; [|done].
  intros l' s'. cbn. rewrite list_lookup_alter. case_decide as E.
  - subst. destruct (heap w !! l') as [s|]; simpl; [|done].
    intros [= <-]. by exists s.
  - intros H. by exists s'.
Qed.

Lemma Steady_sessions_delete (k : World → list N) :
  Steady (modify (λ w, withSessions (delete (k w) (sessions w)) w)).
Proof.
  intros w. unfold exec, modify. cbn. split.
  - intros l s' H. by exists s'.
  - intros k' l H. cbn in H. by apply lookup_delete_Some in H as [_ H].
Qed.

Lemma Steady_acceptSocket : Steady acceptSocket.
Proof.
  intros w. unfold exec, acceptSocket. cbn. split; [|done].
  intros l s' H. by exists s'.
Qed.

Ltac solve_Steady :=
  repeat
    lazymatch goal with
    | |- Steady (mret _) => apply Steady_ret
    | |- Steady (gets _) => apply Steady_gets
    | |- Steady (mbind _ _) => apply Steady_bind; [|intros ?]
    | |- Steady (forEach _ _) => apply Steady_forEach; intros ?
    | |- Steady (updateSession _ trimBuffer) =>
        apply Steady_updateSession; intros ?; unfold trimBuffer;
        case_bool_decide; reflexivity
    | |- Steady (updateSession _ _) =>
        apply Steady_updateSession; intros ?; reflexivity
    | |- Steady (updatePty _ _) =>
        unfold updatePty; apply Steady_frame; intros ?; reflexivity
    | |- Steady (modify (λ w, withSessions (delete _ _) w)) =>
        apply (Steady_sessions_delete (λ _, _))
    | |- Steady (modify _) => apply Steady_frame; intros ?; reflexivity
    | |- Steady acceptSocket => apply Steady_acceptSocket
    | |- Steady (match ?x with _ => _ end) => destruct x
    end.

Lemma createSession_keyed P sid c r cmd w :
  wellFormed w → keyed w →
  keyed (exec (createSession (generateSessionKey P) P sid c r cmd) w).
Proof.
  intros (W1 & _) Hk.
  destruct (createSession_spec (generateSessionKey P) P sid c r cmd w)
    as (_ & Hm & Hh & _).
  intros k l s. rewrite Hm, Hh.
  intros [[<- <-]|[Hne H]]%lookup_insert_Some.
  - rewrite lookup_app_r by lia. rewrite Nat.sub_diag. by intros [= <-].
  - rewrite lookup_app_l by (by eapply W1). by apply Hk.
Qed.

Lemma step_keyed e w :
  wellFormed w → keyed w → keyed (exec (step e) w).
Proof.
  intros Hw Hk.
  assert (St : ∀ m : M (), Steady m → keyed (exec m w)).
  { intros m Hm. eapply steady_keyed; [exact Hk|apply Hm]. }
  destruct e as [P sid c r|P sid c r|P ws|P|P d|P c r|P f|P| |p d|p c|dt| |ws];
    unfold step.
  - rewrite exec_bind, exec_ret.
    destruct (sessions w !! generateSessionKey P) as [l|] eqn:E.
    + rewrite (getOrCreateSession_reuse_exec w P sid c r l E).
      destruct (heap w !! l) as [s|] eqn:Hs; [|done].
      destruct ((0 <? c) && (0 <? r))%Z; cbn;
        (eapply steady_keyed; [exact Hk|]; split; [|done]; cbn;
         intros l' s'; rewrite list_lookup_alter; case_decide as El;
         [subst; rewrite Hs; cbn; intros [= <-]; by exists s
         |intros H; by exists s']).
    + unfold exec at 1. rewrite (getOrCreateSession_free P sid c r w E).
      cbn [snd]. by apply createSession_keyed.
  - rewrite exec_bind, exec_ret. unfold resumeCreate.
    by apply createSession_keyed.
  - apply St. unfold attachWebSocket, replayRecentOutput, sendToWebSocket,
      readSession, dateNow, wsClose, wsSend. solve_Steady.
  - apply St. unfold detachWebSocket, dateNow. solve_Steady.
  - apply St. unfold writeToSession, readSession, dateNow, ptyWrite.
    solve_Steady.
  - apply St. unfold resizeSession, readSession, dateNow, ptyResize, andThen.
    solve_Steady.
  - apply St. unfold killSession, setKillTimeout, readSession, ptyKill,
      ptyWrite. solve_Steady.
  - apply St. unfold getSessionStatus, readSession. solve_Steady.
  - apply St. unfold cleanupInactiveSessions, readSession, dateNow, ptyKill.
    solve_Steady.
  - apply St. unfold emitData, onDataListener, sendToWebSocket, readSession,
      dateNow, wsSend. solve_Steady.
  - apply St. unfold emitExit, markExited, onExitListener. solve_Steady.
  - apply St. unfold advanceTime, killTimerCallback, readSession, dateNow,
      ptyKill. solve_Steady.
  - apply St. solve_Steady.
  - apply St. unfold socketClosed. solve_Steady.
Qed.

Lemma reachable_keyed w : reachable w → keyed w.
Proof.
  intros (t & e & es & ->).
  assert (H : ∀ es w, wellFormed w → keyed w → keyed (run es w)).
  { clear. induction es as [|e es IH]; intros w Hw Hk; [done|].
    unfold run. rewrite exec_forEach_cons. apply IH.
    - by apply step_wellFormed.
    - by apply step_keyed. }
  apply H.
  - apply (reachable_wellFormed (init t e)). by exists t, e, [].
  - intros k l s Hm. unfold init in Hm. cbn [sessions] in Hm.
    by rewrite lookup_empty in Hm.
Qed.

(** ** Listing and shutting down *)

Lemma collect_pure {A B} (f : A → M (option B)) (g : A → B) l w :
  (∀ x, x ∈ l → f x w = (Some (g x), w)) →
  collect f l w = (g <$> l, w).
Proof.
  induction l as [|x l IH]; intros H; [done|].
  cbn [collect]. unfold mbind, M_bind.
  rewrite (H x) by (apply elem_of_cons; by left).
  rewrite IH; [done|]. intros y Hy. apply H. apply elem_of_cons. by right.
Qed.

(** X19.  In every state the server can reach, [getAllSessions] changes
    nothing and lists every registered session exactly once, each with
    a status that says [exists: true], carries the key of the entry and
    describes the record of that entry: looking the status up again
    through the stored path always leads back to the same session. *)
Theorem getAllSessions_lists_registry w :
  reachable w →
  exec getAllSessions w = w
  ∧ (eval getAllSessions w).*1 = (map_to_list (sessions w)).*1
  ∧ NoDup (eval getAllSessions w).*1
  ∧ ∀ k st, (k, st) ∈ eval getAllSessions w →
      ∃ l s, sessions w !! k = Some l ∧ heap w !! l = Some s
        ∧ st = statusOf k s.
Proof.
  intros Hr.
  set (g := λ kl : list N * nat,
              (kl.1, match heap w !! kl.2 with
                     | Some s => statusOf kl.1 s
                     | None => Missing kl.1
                     end)).
  assert (Hrun : getAllSessions w = (g <$> map_to_list (sessions w), w)).
  { unfold getAllSessions, gets. unfold mbind at 1, M_bind at 1.
    apply collect_pure. intros [k l] Hin.
    apply elem_of_map_to_list in Hin.
    destruct (reachable_registered w k l Hr Hin) as (s & y & Hs & _).
    pose proof (reachable_keyed w Hr k l s Hin Hs) as Hkey.
    unfold readSession, gets, mbind, M_bind. rewrite Hs.
    rewrite (getSessionStatus_existing (projectPath s) w l s);
      [|by rewrite Hkey|done].
    unfold g. cbn. rewrite Hs, Hkey. done. }
  unfold exec, eval. rewrite Hrun. cbn [fst snd].
  assert (Hkeys : (g <$> map_to_list (sessions w)).*1
                  = (map_to_list (sessions w)).*1).
  { rewrite <- list_fmap_compose. by apply list_fmap_ext. }
  split; [done|]. split; [done|]. split.
  { rewrite Hkeys. apply NoDup_fst_map_to_list. }
  intros k st Hin. apply list_elem_of_fmap in Hin as ([k' l] & E & Hin).
  apply elem_of_map_to_list in Hin.
  destruct (reachable_registered w k' l Hr Hin) as (s & y & Hs & _).
  unfold g in E. cbn in E. rewrite Hs in E. injection E as -> ->.
  by exists l, s.
Qed.

Lemma getAllSessions_lists_registry_witness :
  exec getAllSessions oneSession = oneSession
  ∧ NoDup (eval getAllSessions oneSession).*1.
Proof.
  assert (Hr : reachable oneSession).
  { exists 0%Z, [], [EGetOrCreate (js "/p") None 80 24].
    vm_compute. reflexivity. }
  destruct (getAllSessions_lists_registry oneSession Hr) as (H1 & _ & H3 & _).
  split; [exact H1|exact H3].
Defined.
Lemma signalled_add n m y : signalled n (signalled m y) = signalled (m + n) y.
Proof.
  unfold signalled, signalledWith. simpl.
  by rewrite <- app_assoc, replicate_add.
Qed.

(** The loop of [cleanup] over a list of entries. *)
Lemma cleanup_loop es : ∀ w,
  let w' := exec (forEach (λ '(_, session),
                     sd ← readSession session;
                     match sd with
                     | Some s => ptyKill (ptyProcess s) None
                     | None => mret ()
                     end) (es : list (list N * nat))) w in
  heap w' = heap w ∧ sessions w' = sessions w ∧ sockets w' = sockets w
  ∧ timers w' = timers w
  ∧ ∀ p y, ptys w !! p = Some y →
      ptys w' !! p = Some (signalled (timesIn w p es) y).
Proof.
  induction es as [|[k l] es IH]; intros w.
  { cbn zeta. unfold exec. cbn. split_and!; try done.
    intros p y Hy. by rewrite signalled_0. }
  cbn zeta. rewrite exec_forEach_cons.
  set (w1 := exec _ w).
  assert (Hw1 : heap w1 = heap w ∧ sessions w1 = sessions w
                ∧ sockets w1 = sockets w ∧ timers w1 = timers w
                ∧ ∀ p y, ptys w !! p = Some y →
                    ptys w1 !! p
                    = Some (signalled
                              (if decide (ptyProcess <$> heap w !! l = Some p)
                               then 1 else 0) y)).
  { unfold w1, exec, readSession, ptyKill, updatePty, gets, modify, mbind,
      M_bind. cbn.
    destruct (heap w !! l) as [s|]; cbn.
    - split_and!; try done. intros p y Hy.
      destruct (decide (Some (ptyProcess s) = Some p)) as [[= ->]|Hne].
      + by rewrite list_lookup_alter_eq, Hy.
      + rewrite list_lookup_alter_ne by congruence.
        by rewrite signalled_0.
    - split_and!; try done. intros p y Hy.
      rewrite decide_False by done. by rewrite signalled_0. }
  destruct Hw1 as (Hh & Hm & Hso & Ht & Hp).
  destruct (IH w1) as (Gh & Gm & Gso & Gt & Gp).
  split_and!; try congruence.
  intros p y Hy. rewrite (Gp _ _ (Hp _ _ Hy)), signalled_add.
  do 2 f_equal. unfold timesIn. rewrite Hh, filter_cons. cbn [snd].
  by destruct (decide (ptyProcess <$> heap w !! l = Some p)).
Qed.

(** X20.  [cleanup], run when the server is told to stop, empties the
    registry after calling [kill()], with no signal argument, on the
    process of every session that is registered.  It touches neither
    the session records nor the sockets (clients are not closed or
    told) nor pending kill timers, and it does not signal a process
    whose session is no longer registered. *)
Theorem cleanup_kills_registered w :
  let w' := exec cleanup w in
  sessions w' = ∅
  ∧ heap w' = heap w ∧ sockets w' = sockets w ∧ timers w' = timers w
  ∧ (∀ p y, ptys w !! p = Some y →
       ptys w' !! p = Some (signalled (registeredTimes w p) y))
  ∧ (∀ k l s, sessions w !! k = Some l → heap w !! l = Some s →
       (1 ≤ registeredTimes w (ptyProcess s))%nat)
  ∧ (∀ p, (∀ k l s, sessions w !! k = Some l → heap w !! l = Some s →
             ptyProcess s ≠ p) →
       registeredTimes w p = 0%nat).
Proof.
  cbn zeta. unfold cleanup. rewrite exec_bind, exec_bind.
  unfold gets at 1 2, eval, exec at 2 3. cbn [fst snd].
  destruct (cleanup_loop (map_to_list (sessions w)) w)
    as (Hh & Hm & Hso & Ht & Hp).
  split_and!; try done.
  - intros k l s Hk Hs. unfold registeredTimes.
    assert (Hin : (k, l) ∈ filter
                    (λ kl : list N * nat,
                       ptyProcess <$> heap w !! kl.2 = Some (ptyProcess s))
                    (map_to_list (sessions w))).
    { apply list_elem_of_filter. split; [cbn; by rewrite Hs|].
      by apply elem_of_map_to_list. }
    destruct (filter _ _) as [|x xs]; [by apply elem_of_nil in Hin|].
    simpl. lia.
  - intros p Hnone. unfold registeredTimes.
    destruct (filter _ _) as [|[k l] xs] eqn:E; [done|].
    assert (Hin : (k, l) ∈ filter
                    (λ kl : list N * nat,
                       ptyProcess <$> heap w !! kl.2 = Some p)
                    (map_to_list (sessions w))).
    { rewrite E. apply elem_of_cons. by left. }
    apply list_elem_of_filter in Hin as [Hpty Hin].
    apply elem_of_map_to_list in Hin. cbn in Hpty.
    destruct (heap w !! l) as [s|] eqn:Hs; [|done].
    injection Hpty as Hpty. by destruct (Hnone k l s Hin Hs).
Qed.

Lemma cleanup_kills_registered_witness :
  let w := exec (resumeCreate (js "/p") None 80 24)
             (exec (resumeCreate (js "/p") None 80 24) (init 0 [])) in
  let w' := exec cleanup w in
  sessions w' = ∅
  ∧ signals <$> ptys w' !! 1%nat = Some [None]
  ∧ signals <$> ptys w' !! 0%nat = Some [].
Proof.
  intros w w'.
  destruct (cleanup_kills_registered w) as (H1 & _ & _ & _ & H5 & _).
  fold w' in H1, H5.
  destruct (ptys w !! 1%nat) as [y1|] eqn:Hy1;
    [|vm_compute in Hy1; discriminate].
  destruct (ptys w !! 0%nat) as [y0|] eqn:Hy0;
    [|vm_compute in Hy0; discriminate].
  assert (Hsig1 : signals y1 = []).
  { vm_compute in Hy1. injection Hy1 as <-. reflexivity. }
  assert (Hsig0 : signals y0 = []).
  { vm_compute in Hy0. injection Hy0 as <-. reflexivity. }
  assert (Hn1 : registeredTimes w 1 = 1%nat) by (vm_compute; reflexivity).
  assert (Hn0 : registeredTimes w 0 = 0%nat) by (vm_compute; reflexivity).
  split; [exact H1|]. split.
  - rewrite (H5 _ _ Hy1), Hn1. cbn. by rewrite Hsig1.
  - rewrite (H5 _ _ Hy0), Hn0. cbn. by rewrite Hsig0, app_nil_r.
Defined.

(** X21.  In every state the server can reach, the status of a path with
    a registered session is a full report on the record of that session:
    it says [exists: true], its process id names a process that was
    spawned, the path it reports generates the key that was asked for
    (it is the path asked for, or one that collides with it), and a
    socket the record refers to is one the server accepted, the record
    being flagged as connected exactly when it refers to one. *)
Theorem reachable_status w P l :
  reachable w →
  sessions w !! generateSessionKey P = Some l →
  ∃ s y, heap w !! l = Some s
    ∧ eval (getSessionStatus P) w = statusOf (generateSessionKey P) s
    ∧ ptys w !! ptyProcess s = Some y
    ∧ generateSessionKey (projectPath s) = generateSessionKey P
    ∧ (isConnected s = true ↔ is_Some (currentWs s))
    ∧ (∀ ws, currentWs s = Some ws → is_Some (sockets w !! ws)).
Proof.
  intros Hr Hk.
  destruct (reachable_registered w _ l Hr Hk) as (s & y & Hs & Hy).
  exists s, y. split; [done|]. split.
  { unfold eval. by rewrite (getSessionStatus_existing P w l s Hk Hs). }
  split; [done|]. split; [by apply (reachable_keyed w Hr _ l)|].
  split; [by apply (reachable_consistent w Hr l)|].
  intros ws Hws. destruct (reachable_wellFormed w Hr) as (_ & W2 & _).
  destruct (W2 _ _ Hs) as [_ Hv]. apply lookup_lt_is_Some_2. by apply Hv.
Qed.

Lemma reachable_status_witness :
  ∃ s, heap attachedSession !! 0%nat = Some s
    ∧ eval (getSessionStatus (js "/p")) attachedSession
      = statusOf (generateSessionKey (js "/p")) s.
Proof.
  assert (Hr : reachable attachedSession).
  { exists 0%Z, [],
      [EGetOrCreate (js "/p") None 80 24; EAccept; EData 0 (js "hello");
       EData 0 (js "OPEN_URL: http://x.y/z ok"); EAttach (js "/p") 0;
       EAccept].
    vm_compute. reflexivity. }
  assert (Hk : sessions attachedSession !! generateSessionKey (js "/p")
               = Some 0%nat) by (vm_compute; reflexivity).
  destruct (reachable_status attachedSession (js "/p") 0%nat Hr Hk)
    as (s & y & Hs & Hst & _).
  exists s. split; [exact Hs|exact Hst].
Defined.

(** ** The [/shell] endpoint *)

Lemma wsSend_exec ws m w : exec (wsSend ws m) w = deliver ws [m] w.
Proof. done. Qed.

(** An [init] message: create or reuse, attach, then the welcome; or,
    when [getOrCreateSession] throws, the text of the error. *)
Lemma onMessage_init cwd ws c path sid cols rows w :
  let P := if truthy path then default [] path else cwd in
  let m := getOrCreateSession P sid (ShellConnection.orElse cols 80)
             (ShellConnection.orElse rows 24) in
  exec (ShellConnection.onMessage cwd ws c
          (ShellConnection.Init path sid cols rows)) w
  = match eval m w with
    | Returned (_, isNew) =>
        deliver ws
          [Output (if (isNew : bool) then ShellConnection.startedMessage
                   else ShellConnection.reconnectedMessage)]
          (exec (attachWebSocket P ws) (exec m w))
    | Thrown message =>
        deliver ws [Output (ShellConnection.errorMessage message)] (exec m w)
    end
  ∧ eval (ShellConnection.onMessage cwd ws c
            (ShellConnection.Init path sid cols rows)) w
    = {| ShellConnection.currentSessionId := sid;
         ShellConnection.currentProjectPath := Some P |}.
Proof.
  cbn zeta. unfold ShellConnection.onMessage.
  rewrite exec_bind, eval_bind.
  destruct (eval (getOrCreateSession _ sid _ _) w) as [[l isNew]|message].
  - cbv beta iota. rewrite !exec_bind, !eval_bind. done.
  - cbv beta iota. rewrite !exec_bind, !eval_bind. done.
Qed.
(** The state after an [init] message for a path that has a session,
    with a positive size. *)
Lemma onMessage_init_existing cwd ws c path sid cols rows w l s :
  let P := if truthy path then default [] path else cwd in
  sessions w !! generateSessionKey P = Some l →
  heap w !! l = Some s →
  (0 < ShellConnection.orElse cols 80)%Z →
  (0 < ShellConnection.orElse rows 24)%Z →
  let w' := exec (ShellConnection.onMessage cwd ws c
                    (ShellConnection.Init path sid cols rows)) w in
  heap w' !! l
    = Some (withLastActiveAt (now w) (withConnection true (Some ws) s))
  ∧ sessions w' = sessions w
  ∧ length (ptys w') = length (ptys w)
  ∧ sockets w'
    = alter (pushSent [Output ShellConnection.reconnectedMessage]) ws
        (if isOpen ws (closePrevious s w)
         then alter (pushSent (replayMessages (outputBuffer s))) ws
                (sockets (closePrevious s w))
         else sockets (closePrevious s w)).
Proof.
  intros P Hk Hs Hcols Hrows w'.
  destruct (onMessage_init cwd ws c path sid cols rows w) as [He _].
  fold P in He. unfold w'. rewrite He. clear He.
  set (m := getOrCreateSession P sid (ShellConnection.orElse cols 80)
              (ShellConnection.orElse rows 24)).
  assert (Hm : m w = (Returned (l, false),
                withPtys (alter (resized (ShellConnection.orElse cols 80)
                                   (ShellConnection.orElse rows 24))
                            (ptyProcess s) (ptys w))
                  (withHeap (alter (withLastActiveAt (now w)) l (heap w)) w))).
  { unfold m. rewrite (getOrCreateSession_reuse w P sid _ _ l Hk Hcols Hrows).
    by rewrite Hs. }
  assert (Hev : eval m w = Returned (l, false))
    by (unfold eval; by rewrite Hm).
  assert (Hex : exec m w
                = withPtys (alter (resized (ShellConnection.orElse cols 80)
                                     (ShellConnection.orElse rows 24))
                              (ptyProcess s) (ptys w))
                    (withHeap (alter (withLastActiveAt (now w)) l (heap w)) w))
    by (unfold exec; by rewrite Hm).
  rewrite Hev, Hex. cbn [snd]. clear Hm Hev Hex.
  set (w1 := withPtys _ _).
  assert (Hk1 : sessions w1 !! generateSessionKey P = Some l) by exact Hk.
  assert (Hs1 : heap w1 !! l = Some (withLastActiveAt (now w) s)).
  { unfold w1. cbn. by rewrite list_lookup_alter_eq, Hs. }
  destruct (attachWebSocket_frame P ws w1 l _ Hk1 Hs1)
    as (Hh & Hp & Hse & _ & _ & Hso).
  assert (Hcp : sockets (closePrevious (withLastActiveAt (now w) s) w1)
                = sockets (closePrevious s w)).
  { unfold closePrevious. cbn. by destruct (isConnected s), (currentWs s). }
  assert (Hop : isOpen ws (closePrevious (withLastActiveAt (now w) s) w1)
                = isOpen ws (closePrevious s w)).
  { unfold isOpen. by rewrite Hcp. }
  rewrite Hcp, Hop in Hso. cbn [outputBuffer withLastActiveAt] in Hso.
  unfold deliver. cbn [heap sessions ptys sockets withSockets].
  split_and!.
  - rewrite Hh. done.
  - by rewrite Hse.
  - rewrite Hp. unfold w1. cbn. by rewrite length_alter.
  - by rewrite Hso.
Qed.

(** X22.  An [init] message for a path without a session, on an open
    socket: one process is spawned, with the size asked for (80 by 24
    where the message gives none, or gives 0), the session is registered
    and bound to the socket, the listeners of the connection remember
    the path, and the socket is sent exactly one message, the welcome
    for a new session; no replay markers precede it. *)
Theorem init_creates_session cwd ws c path sid cols rows w sb :
  let P := if truthy path then default [] path else cwd in
  sessions w !! generateSessionKey P = None →
  sockets w !! ws = Some sb →
  readyState sb = OPEN →
  let m := ShellConnection.onMessage cwd ws c
             (ShellConnection.Init path sid cols rows) in
  let w' := exec m w in
  ShellConnection.currentProjectPath (eval m w) = Some P
  ∧ sessions w' !! generateSessionKey P = Some (length (heap w))
  ∧ length (ptys w') = S (length (ptys w))
  ∧ (∃ y, ptys w' !! length (ptys w) = Some y
       ∧ ptyCols y = ShellConnection.orElse cols 80
       ∧ ptyRows y = ShellConnection.orElse rows 24)
  ∧ (∃ s, heap w' !! length (heap w) = Some s
       ∧ isConnected s = true ∧ currentWs s = Some ws
       ∧ projectPath s = P ∧ sessionId s = sid
       ∧ ptyProcess s = length (ptys w))
  ∧ sockets w' !! ws
    = Some (pushSent [Output ShellConnection.startedMessage] sb).
Proof.
  intros P Hk Hb Ho m w'.
  destruct (onMessage_init cwd ws c path sid cols rows w) as [He Hv].
  fold P in He, Hv. fold m in He, Hv. unfold w'. rewrite He, Hv. clear He Hv.
  set (g := getOrCreateSession P sid (ShellConnection.orElse cols 80)
              (ShellConnection.orElse rows 24)).
  destruct (getOrCreateSession_free_spec P sid
              (ShellConnection.orElse cols 80)
              (ShellConnection.orElse rows 24) w Hk)
    as (Hev & Hm & Hh & Hn & Hp & (y & Hy & _ & _ & _ & Hc & Hr & _)
        & Hso & _).
  fold g in Hev, Hm, Hh, Hn, Hp, Hy, Hso. rewrite Hev.
  set (w1 := exec g w) in *.
  assert (Hk1 : sessions w1 !! generateSessionKey P = Some (length (heap w))).
  { rewrite Hm. apply lookup_insert_eq. }
  assert (Hs1 : ∃ s1, heap w1 !! length (heap w) = Some s1
                  ∧ isConnected s1 = false ∧ outputBuffer s1 = []
                  ∧ projectPath s1 = P ∧ sessionId s1 = sid
                  ∧ ptyProcess s1 = length (ptys w)).
  { eexists. split.
    - rewrite Hh, lookup_app_r by lia. by rewrite Nat.sub_diag.
    - done. }
  destruct Hs1 as (s1 & Hs1 & Hc1 & Hb1 & Hp1 & Hi1 & Hy1).
  destruct (attachWebSocket_frame P ws w1 _ s1 Hk1 Hs1)
    as (Hh2 & Hp2 & Hm2 & _ & _ & Hso2).
  assert (Hcp : closePrevious s1 w1 = w1).
  { unfold closePrevious. by rewrite Hc1. }
  rewrite Hcp, Hb1 in Hso2. cbn [replayMessages] in Hso2.
  assert (Hso2' : sockets (exec (attachWebSocket P ws) w1) = sockets w).
  { rewrite Hso2, Hso. destruct (isOpen ws w1); [|done].
    apply list_alter_id. intros x. apply pushSent_nil. }
  unfold deliver. cbn [heap sessions ptys sockets withSockets].
  split; [done|]. split; [by rewrite Hm2|]. split; [by rewrite Hp2|].
  split.
  { exists y. rewrite Hp2. done. }
  split.
  { eexists. split; [exact Hh2|]. done. }
  rewrite Hso2'. by rewrite list_lookup_alter_eq, Hb.
Qed.

Lemma init_creates_session_witness :
  let w := run [EAccept] (init 0 []) in
  let m := ShellConnection.onMessage (js "/srv") 0 ShellConnection.initial
             (ShellConnection.Init None None (Some 0%Z) None) in
  ShellConnection.currentProjectPath (eval m w) = Some (js "/srv")
  ∧ sessions (exec m w) !! generateSessionKey (js "/srv") = Some 0%nat
  ∧ sockets (exec m w) !! 0%nat
    = Some {| readyState := OPEN;
              sent := [Output ShellConnection.startedMessage] |}.
Proof.
  intros w m.
  assert (H1 : sessions w !! generateSessionKey (js "/srv") = None)
    by (vm_compute; reflexivity).
  assert (H2 : sockets w !! 0%nat = Some {| readyState := OPEN; sent := [] |})
    by (vm_compute; reflexivity).
  destruct (init_creates_session (js "/srv") 0%nat ShellConnection.initial
              None None (Some 0%Z) None w _ H1 H2 eq_refl)
    as (Ha & Hb & _ & _ & _ & Hc).
  split; [exact Ha|]. split; [exact Hb|exact Hc].
Defined.

(** The state after an [init] message for a path that has a session,
    with a size that is not positive: the error of [resize] is caught
    and its text sent; [attachWebSocket] is not reached. *)
Lemma onMessage_init_existing_throws cwd ws c path sid cols rows w l s :
  let P := if truthy path then default [] path else cwd in
  sessions w !! generateSessionKey P = Some l →
  heap w !! l = Some s →
  ¬ (0 < ShellConnection.orElse cols 80
     ∧ 0 < ShellConnection.orElse rows 24)%Z →
  exec (ShellConnection.onMessage cwd ws c
          (ShellConnection.Init path sid cols rows)) w
  = deliver ws [Output (ShellConnection.errorMessage resizeError)]
      (withHeap (alter (withLastActiveAt (now w)) l (heap w)) w).
Proof.
  intros P Hk Hs Hsz.
  destruct (onMessage_init cwd ws c path sid cols rows w) as [He _].
  fold P in He. rewrite He. unfold eval, exec.
  by rewrite (getOrCreateSession_reuse_throws w P sid _ _ l s Hk Hs Hsz).
Qed.

(** X23.  An [init] message for a path that has a session, on an open
    socket other than the one bound to it.  With a positive size (the
    size asked for, or 80 by 24 where the message gives none): no
    process is spawned, the socket bound before is told to close, the
    new socket is bound, and it is sent the replay of the buffer first
    and the welcome for a reconnection after it.  With a size that is
    not positive [getOrCreateSession] ends with the error of [resize]:
    the socket is sent the text of the error and nothing else, it is not
    bound, the socket bound before is not told to close, and the
    listeners of the connection remember the path all the same. *)
Theorem init_reconnects cwd ws c path sid cols rows w l s sb :
  let P := if truthy path then default [] path else cwd in
  sessions w !! generateSessionKey P = Some l →
  heap w !! l = Some s →
  currentWs s ≠ Some ws →
  sockets w !! ws = Some sb →
  readyState sb = OPEN →
  let m := ShellConnection.onMessage cwd ws c
             (ShellConnection.Init path sid cols rows) in
  let w' := exec m w in
  ((0 < ShellConnection.orElse cols 80)%Z →
   (0 < ShellConnection.orElse rows 24)%Z →
   length (ptys w') = length (ptys w)
   ∧ sessions w' = sessions w
   ∧ heap w' !! l
     = Some (withLastActiveAt (now w) (withConnection true (Some ws) s))
   ∧ sockets w' !! ws
     = Some (pushSent (replayMessages (outputBuffer s)
                       ++ [Output ShellConnection.reconnectedMessage]) sb)
   ∧ (∀ a sa, isConnected s = true → currentWs s = Some a →
        sockets w !! a = Some sa → sockets w' !! a = Some (closing sa)))
  ∧ (¬ (0 < ShellConnection.orElse cols 80
        ∧ 0 < ShellConnection.orElse rows 24)%Z →
     ptys w' = ptys w
     ∧ sessions w' = sessions w
     ∧ heap w' !! l = Some (withLastActiveAt (now w) s)
     ∧ sockets w' !! ws
       = Some (pushSent
                 [Output (ShellConnection.errorMessage resizeError)] sb)
     ∧ (∀ a, a ≠ ws → sockets w' !! a = sockets w !! a)
     ∧ ShellConnection.currentProjectPath (eval m w) = Some P).
Proof.
  intros P Hk Hs Hne Hb Ho m w'. split.
  - intros Hcols Hrows.
    destruct (onMessage_init_existing cwd ws c path sid cols rows w l s
                Hk Hs Hcols Hrows) as (Hh & Hm & Hp & Hso).
    fold m in Hh, Hm, Hp, Hso. fold w' in Hh, Hm, Hp, Hso.
    assert (Hcb : sockets (closePrevious s w) !! ws = Some sb).
    { unfold closePrevious. destruct (isConnected s); [|done].
      destruct (currentWs s) as [a|]; [|done]. cbn.
      rewrite list_lookup_alter_ne; [done|]. congruence. }
    assert (Hopen : isOpen ws (closePrevious s w) = true).
    { unfold isOpen. rewrite Hcb. by apply bool_decide_true. }
    rewrite Hopen in Hso.
    split; [done|]. split; [done|]. split; [done|]. split.
    + rewrite Hso, !list_lookup_alter_eq, Hcb. cbn. by rewrite pushSent_app.
    + intros a sa Hc Ha Hsa. assert (a ≠ ws) by congruence.
      rewrite Hso, !list_lookup_alter_ne by done.
      unfold closePrevious. rewrite Hc, Ha. cbn.
      by rewrite list_lookup_alter_eq, Hsa.
  - intros Hsz.
    pose proof (onMessage_init_existing_throws cwd ws c path sid cols rows
                  w l s Hk Hs Hsz) as He.
    fold m in He. fold w' in He.
    destruct (onMessage_init cwd ws c path sid cols rows w) as [_ Hv].
    fold P in Hv. fold m in Hv.
    rewrite He, Hv. unfold deliver. cbn.
    split_and!; try done.
    + by rewrite list_lookup_alter_eq, Hs.
    + by rewrite list_lookup_alter_eq, Hb.
    + intros a Ha. by rewrite list_lookup_alter_ne.
Qed.

Lemma init_reconnects_witness :
  let w' := exec (ShellConnection.onMessage (js "/srv") 1
                    ShellConnection.initial
                    (ShellConnection.Init (Some (js "/p")) None None None))
              attachedSession in
  let w'' := exec (ShellConnection.onMessage (js "/srv") 1
                     ShellConnection.initial
                     (ShellConnection.Init (Some (js "/p")) None
                        (Some (-1)%Z) None))
               attachedSession in
  readyState <$> sockets w' !! 0%nat = Some CLOSING
  ∧ (λ sb', outputsOf (sent sb')) <$> sockets w' !! 1%nat
    = Some [restoringMarker 2; outputText (js "hello");
            outputText (js "OPEN_URL: http://x.y/z ok"); endMarker;
            ShellConnection.reconnectedMessage]
  ∧ sent <$> sockets w'' !! 1%nat
    = Some [Output (ShellConnection.errorMessage resizeError)]
  ∧ sockets w'' !! 0%nat = sockets attachedSession !! 0%nat.
Proof.
  intros w' w''.
  assert (Hk : sessions attachedSession !! generateSessionKey (js "/p")
               = Some 0%nat) by (vm_compute; reflexivity).
  destruct (heap attachedSession !! 0%nat) as [s|] eqn:Hs;
    [|vm_compute in Hs; discriminate].
  assert (Hc : isConnected s = true ∧ currentWs s = Some 0%nat
               ∧ outputBuffer s
                 = [ {| data := js "hello"; timestamp := 0 |};
                     {| data := js "OPEN_URL: http://x.y/z ok";
                        timestamp := 0 |} ]).
  { vm_compute in Hs. injection Hs as <-. repeat split; reflexivity. }
  destruct Hc as (Hc & Ha & Hbuf).
  assert (Hne : currentWs s ≠ Some 1%nat) by (rewrite Ha; discriminate).
  assert (Hb : sockets attachedSession !! 1%nat
               = Some {| readyState := OPEN; sent := [] |})
    by (vm_compute; reflexivity).
  destruct (sockets attachedSession !! 0%nat) as [sa|] eqn:Hsa;
    [|vm_compute in Hsa; discriminate].
  assert (Hra : readyState sa = OPEN).
  { vm_compute in Hsa. injection Hsa as <-. reflexivity. }
  assert (Hcols : (0 < ShellConnection.orElse None 80)%Z)
    by (vm_compute; reflexivity).
  assert (Hrows : (0 < ShellConnection.orElse None 24)%Z)
    by (vm_compute; reflexivity).
  assert (Hbad : ¬ (0 < ShellConnection.orElse (Some (-1)%Z) 80
                    ∧ 0 < ShellConnection.orElse None 24)%Z).
  { intros [H _]. vm_compute in H. discriminate. }
  destruct (proj1 (init_reconnects (js "/srv") 1%nat ShellConnection.initial
                     (Some (js "/p")) None None None attachedSession 0%nat
                     s _ Hk Hs Hne Hb eq_refl) Hcols Hrows)
    as (_ & _ & _ & H4 & H5).
  destruct (proj2 (init_reconnects (js "/srv") 1%nat ShellConnection.initial
                     (Some (js "/p")) None (Some (-1)%Z) None
                     attachedSession 0%nat s _ Hk Hs Hne Hb eq_refl) Hbad)
    as (_ & _ & _ & H6 & H7 & _).
  fold w' in H4, H5. fold w'' in H6, H7. split_and!.
  - rewrite (H5 0%nat sa Hc Ha Hsa). cbn. by rewrite Hra.
  - rewrite H4. cbn [fmap option_fmap option_map pushSent sent].
    rewrite app_nil_l, outputsOf_app, Hbuf.
    rewrite outputsOf_replayMessages by discriminate. reflexivity.
  - rewrite H6. reflexivity.
  - rewrite (H7 0%nat) by discriminate. by rewrite Hsa.
Defined.
(** Output of a session whose socket is not open only goes to the
    buffer. *)
Lemma emitData_unheard p y l s d w :
  ptys w !! p = Some y → exited y = false → dataListener y = Some l →
  heap w !! l = Some s →
  (∀ ws, isConnected s = true → currentWs s = Some ws →
         isOpen ws w = false) →
  sockets (exec (emitData p d) w) = sockets w
  ∧ outputBuffer <$> heap (exec (emitData p d) w) !! l
    = Some (appendOutput (outputBuffer s) {| data := d; timestamp := now w |}).
Proof.
  intros Hp He Hl Hs Hno. unfold exec.
  rewrite (emitData_listener _ _ _ _ _ Hp He Hl), onDataListener_spec, Hs.
  cbv zeta.
  assert (Hb : ∀ w1 : World,
            heap w1 = alter (λ s, withOutputBuffer
                               (appendOutput (outputBuffer s)
                                  {| data := d; timestamp := now w |}) s)
                        l (heap w) →
            outputBuffer <$> heap w1 !! l
            = Some (appendOutput (outputBuffer s)
                      {| data := d; timestamp := now w |})).
  { intros w1 ->. by rewrite list_lookup_alter_eq, Hs. }
  destruct (isConnected s) eqn:Hc; [|split; [done|by apply Hb]].
  destruct (currentWs s) as [ws|] eqn:Hws; [|split; [done|by apply Hb]].
  rewrite (Hno ws eq_refl eq_refl). split; [done|by apply Hb].
Qed.

(** X24.  A second [init] message for the same path, with a positive
    size, on the socket that is already bound to its session makes the
    server close that very socket: [attachWebSocket] closes the socket
    bound before, which is the one being attached.  The session stays
    bound to the closing socket; nothing is replayed, the one message
    handed to the socket being the welcome, after it was told to close;
    and output produced afterwards reaches nobody (it is still
    buffered). *)
Theorem init_twice_closes_socket cwd ws c path sid cols rows w l s sb :
  let P := if truthy path then default [] path else cwd in
  sessions w !! generateSessionKey P = Some l →
  heap w !! l = Some s →
  isConnected s = true →
  currentWs s = Some ws →
  sockets w !! ws = Some sb →
  readyState sb = OPEN →
  (0 < ShellConnection.orElse cols 80)%Z →
  (0 < ShellConnection.orElse rows 24)%Z →
  let w' := exec (ShellConnection.onMessage cwd ws c
                    (ShellConnection.Init path sid cols rows)) w in
  readyState <$> sockets w' !! ws = Some CLOSING
  ∧ sent <$> sockets w' !! ws
    = Some (sent sb ++ [Output ShellConnection.reconnectedMessage])
  ∧ heap w' !! l
    = Some (withLastActiveAt (now w) (withConnection true (Some ws) s))
  ∧ (∀ p y d, ptys w' !! p = Some y → exited y = false →
       dataListener y = Some l →
       sockets (exec (emitData p d) w') = sockets w'
       ∧ outputBuffer <$> heap (exec (emitData p d) w') !! l
         = Some (appendOutput (outputBuffer s)
                   {| data := d; timestamp := now w' |})).
Proof.
  intros P Hk Hs Hc Ha Hb Ho Hcols Hrows w'.
  destruct (onMessage_init_existing cwd ws c path sid cols rows w l s Hk Hs
              Hcols Hrows) as (Hh & Hm & Hp & Hso).
  fold w' in Hh, Hm, Hp, Hso.
  assert (Hcb : sockets (closePrevious s w) !! ws = Some (closing sb)).
  { unfold closePrevious. rewrite Hc, Ha. cbn.
    by rewrite list_lookup_alter_eq, Hb. }
  assert (Hclosed : isOpen ws (closePrevious s w) = false).
  { unfold isOpen. rewrite Hcb. apply bool_decide_false.
    apply readyState_closing. }
  rewrite Hclosed in Hso.
  assert (Hws : sockets w' !! ws
                = Some (pushSent [Output ShellConnection.reconnectedMessage]
                          (closing sb))).
  { by rewrite Hso, list_lookup_alter_eq, Hcb. }
  split; [|split; [|split; [done|]]].
  - rewrite Hws. cbn. by rewrite Ho.
  - rewrite Hws. done.
  - intros p y d Hy He Hl.
    apply (emitData_unheard p y l _ d w' Hy He Hl Hh).
    intros ws' _ [= <-]. unfold isOpen. rewrite Hws.
    apply bool_decide_false. cbn. by rewrite Ho.
Qed.

Lemma init_twice_closes_socket_witness :
  let w := run [EAttach (js "/p") 0] oneSessionOneSocket in
  let w' := exec (ShellConnection.onMessage (js "/srv") 0
                    ShellConnection.initial
                    (ShellConnection.Init (Some (js "/p")) None None None))
              w in
  readyState <$> sockets w' !! 0%nat = Some CLOSING.
Proof.
  intros w w'.
  assert (Hk : sessions w !! generateSessionKey (js "/p") = Some 0%nat)
    by (vm_compute; reflexivity).
  destruct (heap w !! 0%nat) as [s|] eqn:Hs;
    [|vm_compute in Hs; discriminate].
  assert (Hc : isConnected s = true ∧ currentWs s = Some 0%nat).
  { vm_compute in Hs. injection Hs as <-. split; reflexivity. }
  destruct Hc as (Hc & Ha).
  assert (Hb : sockets w !! 0%nat = Some {| readyState := OPEN; sent := [] |})
    by (vm_compute; reflexivity).
  assert (Hcols : (0 < ShellConnection.orElse None 80)%Z)
    by (vm_compute; reflexivity).
  assert (Hrows : (0 < ShellConnection.orElse None 24)%Z)
    by (vm_compute; reflexivity).
  exact (proj1 (init_twice_closes_socket (js "/srv") 0%nat
                  ShellConnection.initial (Some (js "/p")) None None None
                  w 0%nat s _ Hk Hs Hc Ha Hb eq_refl Hcols Hrows)).
Defined.

(** X25.  The [close] listener of a connection detaches whatever socket
    is bound to its path at that moment.  When a second connection
    takes over a session, the server closes the first socket; once that
    close is reported, the listener of the first connection runs
    [detachWebSocket] on the path and unbinds the second socket: the
    second client stays connected, its socket open, but the session is
    flagged as not connected and output produced from then on is only
    buffered.  The [init] message of the second connection carries a
    positive size, or none. *)
Theorem stale_close_detaches_successor
    cwd a b cA cB path sid cols rows w l s sa sb :
  let P := if truthy path then default [] path else cwd in
  P ≠ [] →
  sessions w !! generateSessionKey P = Some l →
  heap w !! l = Some s →
  isConnected s = true →
  currentWs s = Some a →
  a ≠ b →
  sockets w !! a = Some sa →
  sockets w !! b = Some sb →
  readyState sb = OPEN →
  ShellConnection.currentProjectPath cA = Some P →
  (0 < ShellConnection.orElse cols 80)%Z →
  (0 < ShellConnection.orElse rows 24)%Z →
  let w1 := exec (ShellConnection.onMessage cwd b cB
                    (ShellConnection.Init path sid cols rows)) w in
  let w2 := exec (socketClosed a;; ShellConnection.onClose cA) w1 in
  (currentWs <$> heap w1 !! l = Some (Some b))
  ∧ (∃ s2, heap w2 !! l = Some s2
       ∧ isConnected s2 = false ∧ currentWs s2 = None)
  ∧ readyState <$> sockets w2 !! b = Some OPEN
  ∧ connected (eval (getSessionStatus P) w2) = false
  ∧ (∀ p y d, ptys w2 !! p = Some y → exited y = false →
       dataListener y = Some l →
       sockets (exec (emitData p d) w2) = sockets w2).
Proof.
  intros P HP Hk Hs Hc Ha Hab Hsa Hsb Ho HcA Hcols Hrows w1 w2.
  assert (Hne : currentWs s ≠ Some b) by congruence.
  destruct (onMessage_init_existing cwd b cB path sid cols rows w l s Hk Hs
              Hcols Hrows) as (Hh & Hm & Hp & Hso).
  fold w1 in Hh, Hm, Hp, Hso.
  assert (Hcb : sockets (closePrevious s w) !! b = Some sb).
  { unfold closePrevious. rewrite Hc, Ha. cbn.
    by rewrite list_lookup_alter_ne. }
  assert (Hopen : isOpen b (closePrevious s w) = true).
  { unfold isOpen. rewrite Hcb. by apply bool_decide_true. }
  rewrite Hopen in Hso.
  assert (Hb1 : ∃ sb1, sockets w1 !! b = Some sb1 ∧ readyState sb1 = OPEN).
  { eexists. split.
    - rewrite Hso, !list_lookup_alter_eq, Hcb. reflexivity.
    - done. }
  destruct Hb1 as (sb1 & Hb1 & Ho1).
  assert (Htruthy : truthy (ShellConnection.currentProjectPath cA) = true).
  { rewrite HcA. by destruct P. }
  assert (Hw2 : w2 = withHeap
                       (alter (λ s, withLastActiveAt (now w1)
                                      (withConnection false None s))
                          l (heap w1))
                       (withSockets
                          (alter (λ s, {| readyState := CLOSED;
                                          sent := sent s |}) a (sockets w1))
                          w1)).
  { unfold w2. rewrite exec_bind. unfold ShellConnection.onClose.
    rewrite Htruthy, HcA. cbn [default]. rewrite exec_bind, exec_ret.
    unfold exec at 1. rewrite (detachWebSocket_spec P _ l).
    - done.
    - unfold socketClosed, exec, modify. cbn. by rewrite Hm. }
  assert (Hh2 : heap w2 !! l
                = Some (withLastActiveAt (now w1)
                          (withConnection false None
                             (withLastActiveAt (now w)
                                (withConnection true (Some b) s))))).
  { rewrite Hw2. cbn. by rewrite list_lookup_alter_eq, Hh. }
  assert (Hk2 : sessions w2 !! generateSessionKey P = Some l).
  { rewrite Hw2. cbn. by rewrite Hm. }
  split; [by rewrite Hh|]. split; [by eexists|]. split.
  { rewrite Hw2. cbn. rewrite list_lookup_alter_ne by done.
    by rewrite Hb1, <- Ho1. }
  split.
  { unfold eval. by rewrite (getSessionStatus_existing P w2 l _ Hk2 Hh2). }
  intros p y d Hy He Hl.
  apply (emitData_unheard p y l _ d w2 Hy He Hl Hh2). by intros ws' [=].
Qed.

Lemma stale_close_detaches_successor_witness :
  let w1 := exec (ShellConnection.onMessage (js "/srv") 1
                    ShellConnection.initial
                    (ShellConnection.Init (Some (js "/p")) None None None))
              attachedSession in
  let cA := {| ShellConnection.currentSessionId := None;
               ShellConnection.currentProjectPath := Some (js "/p") |} in
  let w2 := exec (socketClosed 0;; ShellConnection.onClose cA) w1 in
  readyState <$> sockets w2 !! 1%nat = Some OPEN
  ∧ connected (eval (getSessionStatus (js "/p")) w2) = false.
Proof.
  intros w1 cA w2.
  assert (Hk : sessions attachedSession !! generateSessionKey (js "/p")
               = Some 0%nat) by (vm_compute; reflexivity).
  destruct (heap attachedSession !! 0%nat) as [s|] eqn:Hs;
    [|vm_compute in Hs; discriminate].
  assert (Hc : isConnected s = true ∧ currentWs s = Some 0%nat).
  { vm_compute in Hs. injection Hs as <-. split; reflexivity. }
  destruct Hc as (Hc & Ha).
  destruct (sockets attachedSession !! 0%nat) as [sa|] eqn:Hsa;
    [|vm_compute in Hsa; discriminate].
  assert (Hb : sockets attachedSession !! 1%nat
               = Some {| readyState := OPEN; sent := [] |})
    by (vm_compute; reflexivity).
  assert (HP : js "/p" ≠ []) by discriminate.
  assert (Hab : 0%nat ≠ 1%nat) by discriminate.
  assert (Hcols : (0 < ShellConnection.orElse None 80)%Z)
    by (vm_compute; reflexivity).
  assert (Hrows : (0 < ShellConnection.orElse None 24)%Z)
    by (vm_compute; reflexivity).
  destruct (stale_close_detaches_successor (js "/srv") 0%nat 1%nat cA
              ShellConnection.initial (Some (js "/p")) None None None
              attachedSession 0%nat s sa _
              HP Hk Hs Hc Ha Hab Hsa Hb eq_refl eq_refl Hcols Hrows)
    as (_ & _ & H3 & H4 & _).
  split; [exact H3|exact H4].
Defined.

(** ** Keys of paths *)

Lemma replaceSeparators_char_inj c1 c2 :
  c1 ≠ 92 → c1 ≠ 95 → c2 ≠ 92 → c2 ≠ 95 →
  (if (c1 =? 47) || (c1 =? 92) then 95 else c1)
  = (if (c2 =? 47) || (c2 =? 92) then 95 else c2) →
  c1 = c2.
Proof.
  intros H1 H2 H3 H4.
  destruct (c1 =? 47) eqn:E1; destruct (c1 =? 92) eqn:E2;
    destruct (c2 =? 47) eqn:E3; destruct (c2 =? 92) eqn:E4; cbn;
    rewrite ?N.eqb_eq, ?N.eqb_neq in *; intros E; congruence.
Qed.

(** X26.  Two paths have the same session key exactly when they agree
    after every slash and backslash is read as an underscore.  The key
    is eight characters longer than the path and holds no slash and no
    backslash.  Paths in which neither a backslash nor an underscore
    occurs never share a key unless they are the same path. *)
Theorem generateSessionKey_injective P1 P2 :
  (generateSessionKey P1 = generateSessionKey P2
   ↔ replaceSeparators P1 = replaceSeparators P2)
  ∧ length (generateSessionKey P1) = (8 + length P1)%nat
  ∧ Forall (λ c, c ≠ 47 ∧ c ≠ 92) (generateSessionKey P1)
  ∧ (Forall (λ c, c ≠ 92 ∧ c ≠ 95) P1 →
     Forall (λ c, c ≠ 92 ∧ c ≠ 95) P2 →
     generateSessionKey P1 = generateSessionKey P2 → P1 = P2).
Proof.
  assert (Hiff : generateSessionKey P1 = generateSessionKey P2
                 ↔ replaceSeparators P1 = replaceSeparators P2).
  { unfold generateSessionKey. split; [apply app_inv_head|by intros ->]. }
  split; [exact Hiff|]. split.
  { unfold generateSessionKey, replaceSeparators.
    rewrite length_app, length_map. done. }
  split.
  { unfold generateSessionKey. apply Forall_app_2.
    - apply Forall_forall. intros c Hc.
      assert (Hb : forallb (λ c, negb (c =? 47) && negb (c =? 92))
                     (js "project-") = true) by (vm_compute; reflexivity).
      rewrite forallb_forall in Hb. specialize (Hb c).
      rewrite <- list_elem_of_In in Hb. specialize (Hb Hc).
      apply andb_true_iff in Hb as [Hb1 Hb2].
      by apply negb_true_iff, N.eqb_neq in Hb1, Hb2.
    - unfold replaceSeparators. apply Forall_fmap, Forall_forall.
      intros c _. cbn.
      destruct (c =? 47) eqn:E1; destruct (c =? 92) eqn:E2; cbn;
        rewrite ?N.eqb_eq, ?N.eqb_neq in *; split; congruence. }
  intros H1 H2 E. apply Hiff in E. unfold replaceSeparators in E.
  clear Hiff. revert P2 H2 E. induction H1 as [|c1 P1 [Ha Hb] _ IH];
    intros [|c2 P2] H2 E; try done.
  apply Forall_cons in H2 as [[Hc Hd] H2]. cbn [map] in E.
  injection E as E1 E2.
  f_equal; [by apply replaceSeparators_char_inj|by apply IH].
Qed.

Lemma generateSessionKey_injective_witness : js "/a/b" = js "/a/b".
Proof.
  assert (H1 : Forall (λ c, c ≠ 92 ∧ c ≠ 95) (js "/a/b"))
    by (repeat constructor; discriminate).
  exact (proj2 (proj2 (proj2 (generateSessionKey_injective (js "/a/b")
                                (js "/a/b")))) H1 H1 eq_refl).
Defined.

(** ** After a kill, and sockets that are not open *)

(** X27.  [killSession] cuts the session off from input but not from
    output.  For a session bound to an open socket, forced or not:
    afterwards an [input] message on that connection is dropped and
    changes nothing, while what the process still prints is buffered in
    its record and sent to the socket as before. *)
Theorem killSession_keeps_forwarding cwd b c f w l s y sb P d :
  sessions w !! generateSessionKey P = Some l →
  heap w !! l = Some s →
  isConnected s = true →
  currentWs s = Some b →
  sockets w !! b = Some sb →
  readyState sb = OPEN →
  ptys w !! ptyProcess s = Some y →
  exited y = false →
  dataListener y = Some l →
  ShellConnection.currentProjectPath c = Some P →
  let w1 := exec (killSession P f) w in
  ShellConnection.onMessage cwd b c (ShellConnection.Input d) w1 = (c, w1)
  ∧ sockets w1 = sockets w
  ∧ sockets (exec (emitData (ptyProcess s) d) w1) !! b
    = Some (pushSent (wireMessages d) sb)
  ∧ outputBuffer <$> heap (exec (emitData (ptyProcess s) d) w1) !! l
    = Some (appendOutput (outputBuffer s) {| data := d; timestamp := now w |}).
Proof.
  intros Hk Hs Hc Hb Hsb Ho Hy He Hl Hcl w1.
  assert (Hw1 : sessions w1 !! generateSessionKey P = None
                ∧ heap w1 = heap w ∧ sockets w1 = sockets w ∧ now w1 = now w
                ∧ ∃ y1, ptys w1 !! ptyProcess s = Some y1
                    ∧ exited y1 = false ∧ dataListener y1 = Some l).
  { unfold w1, exec. destruct f.
    - rewrite (killSession_force_spec P w l s Hk Hs). cbn.
      split; [apply lookup_delete_eq|]. split_and!; try done.
      eexists. rewrite list_lookup_alter_eq, Hy. cbn. done.
    - rewrite (killSession_graceful_spec P w l s Hk Hs). cbn.
      split; [apply lookup_delete_eq|]. split_and!; try done.
      eexists. rewrite list_lookup_alter_eq, Hy. cbn. done. }
  destruct Hw1 as (Hfree & Hh & Hso & Hn & y1 & Hy1 & He1 & Hl1).
  assert (Hs1 : heap w1 !! l = Some s) by (by rewrite Hh).
  split.
  { unfold ShellConnection.onMessage. rewrite Hcl. cbn [default].
    destruct (truthy (Some P)); [|done].
    apply M_eq.
    - by rewrite !eval_bind.
    - rewrite !exec_bind, !exec_ret. unfold exec, id.
      by rewrite (writeToSession_missing _ d w1 Hfree). }
  split; [done|].
  unfold exec.
  rewrite (emitData_listener _ _ _ _ _ Hy1 He1 Hl1), onDataListener_spec.
  rewrite Hs1, Hc, Hb. cbv zeta.
  assert (isOpen b w1 = true) as ->.
  { unfold isOpen. rewrite Hso, Hsb. by apply bool_decide_true. }
  cbn. rewrite Hso, Hh, Hn. split.
  - by rewrite list_lookup_alter_eq, Hsb.
  - by rewrite list_lookup_alter_eq, Hs.
Qed.

Lemma killSession_keeps_forwarding_witness :
  let w := run [EAttach (js "/p") 0] oneSessionOneSocket in
  let w1 := exec (killSession (js "/p") false) w in
  sockets (exec (emitData 0 (js "bye")) w1) !! 0%nat
  = Some {| readyState := OPEN; sent := wireMessages (js "bye") |}.
Proof.
  intros w w1.
  assert (Hk : sessions w !! generateSessionKey (js "/p") = Some 0%nat)
    by (vm_compute; reflexivity).
  destruct (heap w !! 0%nat) as [s|] eqn:Hs;
    [|vm_compute in Hs; discriminate].
  assert (Hc : isConnected s = true ∧ currentWs s = Some 0%nat
               ∧ ptyProcess s = 0%nat).
  { vm_compute in Hs. injection Hs as <-. repeat split; reflexivity. }
  destruct Hc as (Hc & Ha & Hp).
  assert (Hb : sockets w !! 0%nat = Some {| readyState := OPEN; sent := [] |})
    by (vm_compute; reflexivity).
  assert (Hy : ∃ y, ptys w !! ptyProcess s = Some y ∧ exited y = false
                    ∧ dataListener y = Some 0%nat).
  { rewrite Hp. eexists. vm_compute. repeat split; reflexivity. }
  destruct Hy as (y & Hy & He & Hl).
  pose proof (killSession_keeps_forwarding (js "/srv") 0%nat
                {| ShellConnection.currentSessionId := None;
                   ShellConnection.currentProjectPath := Some (js "/p") |}
                false w 0%nat s y _ (js "/p") (js "bye")
                Hk Hs Hc Ha Hb eq_refl Hy He Hl eq_refl) as (_ & _ & H & _).
  rewrite Hp in H. exact H.
Defined.



(** ** The sweep every ten minutes *)

Lemma cleanupInactiveSessions_heap w :
  heap (exec cleanupInactiveSessions w) = heap w
  ∧ now (exec cleanupInactiveSessions w) = now w.
Proof.
  unfold exec. rewrite cleanupInactiveSessions_unfold.
  destruct (sweep_spec (sessionsToDelete w) w (sessionsToDelete_NoDup w))
    as (_ & Hh & _ & _ & Hn & _). done.
Qed.

(** One period of the interval, seen from one session. *)
Lemma intervalTick_session w k l s :
  heap w !! l = Some s →
  isConnected s = false →
  let w' := exec intervalTick w in
  heap w' = heap w
  ∧ now w' = (now w + cleanupPeriod)%Z
  ∧ (sessions w !! k = None → sessions w' !! k = None)
  ∧ (sessions w !! k = Some l →
     sessions w' !! k
     = if decide (now w + cleanupPeriod - 2 * 60 * 60 * 1000
                  ≤ lastActiveAt s)%Z
       then Some l else None).
Proof.
  intros Hs Hc. cbn zeta. unfold intervalTick. rewrite exec_bind.
  destruct (advanceTime_frame cleanupPeriod w) as (Gh & Gm & _ & Gn).
  set (w1 := exec (advanceTime cleanupPeriod) w) in *.
  destruct (cleanupInactiveSessions_heap w1) as (Hh & Hn).
  assert (Hmax : Z.max 0 cleanupPeriod = cleanupPeriod) by done.
  rewrite Hmax in Gn.
  split; [congruence|]. split; [congruence|].
  rewrite cleanupInactiveSessions_registry. split.
  - intros Hk. destruct (decide _); [done|]. by rewrite Gm.
  - intros Hk.
    destruct (decide (now w + cleanupPeriod - 2 * 60 * 60 * 1000
                      ≤ lastActiveAt s)%Z) as [Hle|Hgt].
    + rewrite decide_False; [by rewrite Gm|].
      rewrite sessionsToDelete_elem. intros (l' & s' & Hk' & Hs' & Hi).
      rewrite Gm, Hk in Hk'. injection Hk' as <-.
      rewrite Gh, Hs in Hs'. injection Hs' as <-.
      unfold inactive in Hi. apply andb_true_iff in Hi as [Hi _].
      apply Z.ltb_lt in Hi. lia.
    + rewrite decide_True; [done|].
      apply sessionsToDelete_elem. exists l, s.
      split; [by rewrite Gm|]. split; [by rewrite Gh|].
      unfold inactive. rewrite Hc, andb_true_r. apply Z.ltb_lt. lia.
Qed.

Lemma intervalTicks_session n : ∀ w k l s,
  heap w !! l = Some s →
  isConnected s = false →
  sessions w !! k = Some l →
  let w' := exec (forEach (λ _ : (), intervalTick) (replicate (S n) ())) w in
  heap w' = heap w
  ∧ now w' = (now w + cleanupPeriod * Z.of_nat (S n))%Z
  ∧ sessions w' !! k
    = if decide (now w + cleanupPeriod * Z.of_nat (S n) - 2 * 60 * 60 * 1000
                 ≤ lastActiveAt s)%Z
      then Some l else None.
Proof.
  assert (Hpos : (0 < cleanupPeriod)%Z) by done.
  assert (Hgone : ∀ m w k l s,
            heap w !! l = Some s → isConnected s = false →
            sessions w !! k = None →
            let w' := exec (forEach (λ _ : (), intervalTick)
                              (replicate m ())) w in
            heap w' = heap w
            ∧ now w' = (now w + cleanupPeriod * Z.of_nat m)%Z
            ∧ sessions w' !! k = None).
  { induction m as [|m IHm]; intros w k l s Hs Hc Hk.
    { cbn zeta. unfold exec. cbn. split_and!; try done. lia. }
    cbn zeta. cbn [replicate]. rewrite exec_forEach_cons.
    destruct (intervalTick_session w k l s Hs Hc) as (Hh & Hn & Hno & _).
    set (w1 := exec intervalTick w) in *.
    destruct (IHm w1 k l s) as (Gh & Gn & Gk);
      [by rewrite Hh|done|by apply Hno|].
    split; [congruence|]. split; [|done]. rewrite Gn, Hn. lia. }
  induction n as [|n IH]; intros w k l s Hs Hc Hk.
  - cbn zeta. cbn [replicate]. rewrite exec_forEach_cons.
    destruct (intervalTick_session w k l s Hs Hc) as (Hh & Hn & _ & Hyes).
    unfold exec at 1 3 5. cbn [forEach mret M_ret snd].
    split; [done|]. split; [rewrite Hn; lia|].
    rewrite (Hyes Hk). by replace (cleanupPeriod * Z.of_nat 1)%Z
      with cleanupPeriod by lia.
  - cbn zeta. cbn [replicate]. rewrite exec_forEach_cons.
    destruct (intervalTick_session w k l s Hs Hc) as (Hh & Hn & _ & Hyes).
    set (w1 := exec intervalTick w) in *.
    specialize (Hyes Hk).
    destruct (decide (now w + cleanupPeriod - 2 * 60 * 60 * 1000
                      ≤ lastActiveAt s)%Z) as [Hle|Hgt].
    + destruct (IH w1 k l s) as (Gh & Gn & Gk);
        [by rewrite Hh|done|done|].
      change (() :: replicate n ()) with (replicate (S n) ()).
      split; [congruence|]. split; [rewrite Gn, Hn; lia|].
      rewrite Gk, Hn. clear Gk.
      destruct (decide _) as [H1|H1]; destruct (decide _) as [H2|H2];
        try done; lia.
    + destruct (Hgone (S n) w1 k l s) as (Gh & Gn & Gk);
        [by rewrite Hh|done|done|].
      change (() :: replicate n ()) with (replicate (S n) ()).
      split; [congruence|]. split; [rewrite Gn, Hn; lia|].
      rewrite Gk. rewrite decide_False; [done|]. lia.
Qed.

(** X29.  With the sweep running every ten minutes and nothing else
    happening, a session that is not connected stays registered at every
    run of the sweep up to two hours after its last activity and is gone
    at every later run: it is reclaimed at the first run that comes more
    than two hours after the last activity, so less than two hours and
    ten minutes after it when the runs have started by then. *)
Theorem idle_session_reclaimed_in_time w P l s n :
  sessions w !! generateSessionKey P = Some l →
  heap w !! l = Some s →
  isConnected s = false →
  let w' := exec (forEach (λ _ : (), intervalTick) (replicate (S n) ())) w in
  let t := (now w + cleanupPeriod * Z.of_nat (S n))%Z in
  now w' = t
  ∧ ((t ≤ lastActiveAt s + 2 * 60 * 60 * 1000)%Z →
     sessions w' !! generateSessionKey P = Some l)
  ∧ ((lastActiveAt s + 2 * 60 * 60 * 1000 < t)%Z →
     sessions w' !! generateSessionKey P = None).
Proof.
  intros Hk Hs Hc.
  destruct (intervalTicks_session n w _ l s Hs Hc Hk) as (_ & Hn & Hm).
  cbn zeta. split; [done|]. rewrite Hm. split; intros Ht.
  - rewrite decide_True; [done|lia].
  - rewrite decide_False; [done|lia].
Qed.

Lemma idle_session_reclaimed_in_time_witness :
  sessions (exec (forEach (λ _ : (), intervalTick) (replicate 12 ()))
              oneSession) !! generateSessionKey (js "/p") = Some 0%nat
  ∧ sessions (exec (forEach (λ _ : (), intervalTick) (replicate 13 ()))
                oneSession) !! generateSessionKey (js "/p") = None.
Proof.
  assert (H1 : sessions oneSession !! generateSessionKey (js "/p")
               = Some 0%nat) by (vm_compute; reflexivity).
  assert (H2 : heap oneSession !! 0%nat = Some sampleRecord)
    by (vm_compute; reflexivity).
  assert (Hn : now oneSession = 0%Z) by (vm_compute; reflexivity).
  split.
  - refine (proj1 (proj2 (idle_session_reclaimed_in_time oneSession (js "/p")
                            0%nat sampleRecord 11 H1 H2 eq_refl)) _).
    rewrite Hn. vm_compute. discriminate.
  - refine (proj2 (proj2 (idle_session_reclaimed_in_time oneSession (js "/p")
                            0%nat sampleRecord 12 H1 H2 eq_refl)) _).
    rewrite Hn. vm_compute. reflexivity.
Defined.

(** ** A connection that moves to another project *)

Lemma attachWebSocket_heap P b w l s :
  sessions w !! generateSessionKey P = Some l →
  heap w !! l = Some s →
  heap (exec (attachWebSocket P b) w)
  = alter (λ s, withLastActiveAt (now w) (withConnection true (Some b) s))
      l (heap w).
Proof.
  intros Hk Hs. unfold exec.
  rewrite (attachWebSocket_spec _ _ _ _ _ Hk Hs). cbn.
  by destruct (isOpen b (closePrevious s w)).
Qed.

(** X30.  The listeners of a connection remember one path only, and an
    [init] message does not detach the session of the path remembered
    before.  When a connection whose socket is bound to the session of
    one path sends [init] for another path that has no session, the new
    session is bound to the same socket and the first one stays bound to
    it as well.  When the socket closes, only the session of the second
    path is detached; the first keeps its connected flag, with the
    closed socket, and so is never removed by the idle sweep. *)
Theorem init_for_other_path_keeps_first_bound
    cwd ws c path sid cols rows w P1 l1 s1 dt :
  let P := if truthy path then default [] path else cwd in
  P ≠ [] →
  sessions w !! generateSessionKey P1 = Some l1 →
  heap w !! l1 = Some s1 →
  isConnected s1 = true →
  currentWs s1 = Some ws →
  sessions w !! generateSessionKey P = None →
  let m := ShellConnection.onMessage cwd ws c
             (ShellConnection.Init path sid cols rows) in
  let w1 := exec m w in
  let w2 := exec (socketClosed ws;; ShellConnection.onClose (eval m w)) w1 in
  let w3 := exec (advanceTime dt;; cleanupInactiveSessions) w2 in
  heap w1 !! l1 = Some s1
  ∧ (∃ s2, sessions w1 !! generateSessionKey P = Some (length (heap w))
       ∧ heap w1 !! length (heap w) = Some s2
       ∧ isConnected s2 = true ∧ currentWs s2 = Some ws)
  ∧ (∃ s2, heap w2 !! length (heap w) = Some s2
       ∧ isConnected s2 = false ∧ currentWs s2 = None)
  ∧ heap w2 !! l1 = Some s1
  ∧ sessions w3 !! generateSessionKey P1 = Some l1.
Proof.
  intros P HP Hk1 Hs1 Hc1 Ha1 Hk m w1 w2 w3.
  assert (Hl1 : (l1 < length (heap w))%nat) by (by eapply lookup_lt_Some).
  assert (Hkk : generateSessionKey P1 ≠ generateSessionKey P)
    by congruence.
  destruct (onMessage_init cwd ws c path sid cols rows w) as [He Hv].
  fold P in He, Hv. fold m in He, Hv.
  set (g := getOrCreateSession P sid (ShellConnection.orElse cols 80)
              (ShellConnection.orElse rows 24)) in *.
  destruct (getOrCreateSession_free_spec P sid
              (ShellConnection.orElse cols 80)
              (ShellConnection.orElse rows 24) w Hk)
    as (Hev & Hm & Hh & _ & _ & _ & _ & Hn & _).
  fold g in Hev, Hm, Hh, Hn. rewrite Hev in He.
  set (wa := exec g w) in *.
  assert (Hka : sessions wa !! generateSessionKey P = Some (length (heap w))).
  { rewrite Hm. apply lookup_insert_eq. }
  assert (Hsa : ∃ sa, heap wa !! length (heap w) = Some sa).
  { eexists. rewrite Hh, lookup_app_r by lia. by rewrite Nat.sub_diag. }
  destruct Hsa as (sa & Hsa).
  pose proof (attachWebSocket_heap P ws wa _ sa Hka Hsa) as Hhb.
  destruct (attachWebSocket_frame P ws wa _ sa Hka Hsa)
    as (_ & _ & Hmb & Hnb & _ & _).
  assert (Hh1 : heap w1
                = alter (λ s, withLastActiveAt (now wa)
                                (withConnection true (Some ws) s))
                    (length (heap w)) (heap wa)).
  { unfold w1. rewrite He. unfold deliver. cbn [heap withSockets]. done. }
  assert (Hm1 : sessions w1 = sessions wa).
  { unfold w1. rewrite He. unfold deliver. cbn [sessions withSockets]. done. }
  assert (H1 : heap w1 !! l1 = Some s1).
  { rewrite Hh1, list_lookup_alter_ne by lia.
    by rewrite Hh, lookup_app_l. }
  assert (Htruthy : truthy (Some P) = true) by (by destruct P).
  assert (Hw2 : w2 = withHeap
                       (alter (λ s, withLastActiveAt (now w1)
                                      (withConnection false None s))
                          (length (heap w)) (heap w1))
                       (withSockets
                          (alter (λ s, {| readyState := CLOSED;
                                          sent := sent s |}) ws (sockets w1))
                          w1)).
  { unfold w2. rewrite exec_bind, Hv. unfold ShellConnection.onClose.
    cbn [ShellConnection.currentProjectPath].
    rewrite Htruthy. cbn [default]. rewrite exec_bind, exec_ret.
    unfold exec at 1. rewrite (detachWebSocket_spec P _ (length (heap w))).
    - done.
    - unfold socketClosed, exec, modify. cbn. by rewrite Hm1. }
  assert (H2 : heap w2 !! l1 = Some s1).
  { rewrite Hw2. cbn. by rewrite list_lookup_alter_ne by lia. }
  assert (Hk2 : sessions w2 !! generateSessionKey P1 = Some l1).
  { rewrite Hw2. cbn. rewrite Hm1, Hm. by rewrite lookup_insert_ne. }
  split; [done|]. split.
  { eexists. split; [by rewrite Hm1|]. split.
    - rewrite Hh1, list_lookup_alter_eq, Hsa. reflexivity.
    - done. }
  split.
  { eexists. split.
    - rewrite Hw2. cbn. rewrite list_lookup_alter_eq, Hh1,
        list_lookup_alter_eq, Hsa. reflexivity.
    - done. }
  split; [done|].
  unfold w3. rewrite exec_bind.
  destruct (advanceTime_frame dt w2) as (Gh & Gm & _ & _).
  set (w2' := exec (advanceTime dt) w2) in *.
  rewrite cleanupInactiveSessions_registry.
  rewrite decide_False; [by rewrite Gm|].
  rewrite sessionsToDelete_elem. intros (l' & s' & Hk' & Hs' & Hi).
  rewrite Gm, Hk2 in Hk'. injection Hk' as <-.
  rewrite Gh, H2 in Hs'. injection Hs' as <-.
  unfold inactive in Hi. by rewrite Hc1, andb_false_r in Hi.
Qed.

Lemma init_for_other_path_keeps_first_bound_witness :
  let m := ShellConnection.onMessage (js "/srv") 0 ShellConnection.initial
             (ShellConnection.Init (Some (js "/q")) None None None) in
  let w1 := exec m attachedSession in
  let w2 := exec (socketClosed 0;; ShellConnection.onClose
                                     (eval m attachedSession)) w1 in
  (isConnected <$> heap w2 !! 0%nat) = Some true
  ∧ sessions (exec (advanceTime 86400000;; cleanupInactiveSessions) w2)
      !! generateSessionKey (js "/p") = Some 0%nat.
Proof.
  intros m w1 w2.
  assert (Hk : sessions attachedSession !! generateSessionKey (js "/p")
               = Some 0%nat) by (vm_compute; reflexivity).
  destruct (heap attachedSession !! 0%nat) as [s|] eqn:Hs;
    [|vm_compute in Hs; discriminate].
  assert (Hc : isConnected s = true ∧ currentWs s = Some 0%nat).
  { vm_compute in Hs. injection Hs as <-. split; reflexivity. }
  destruct Hc as (Hc & Ha).
  assert (Hq : sessions attachedSession !! generateSessionKey (js "/q")
               = None) by (vm_compute; reflexivity).
  assert (HP : js "/q" ≠ []) by discriminate.
  destruct (init_for_other_path_keeps_first_bound (js "/srv") 0%nat
              ShellConnection.initial (Some (js "/q")) None None None
              attachedSession (js "/p") 0%nat s 86400000%Z
              HP Hk Hs Hc Ha Hq) as (_ & _ & _ & H4 & H5).
  split; [|exact H5].
  fold m in H4. fold w1 in H4. fold w2 in H4. rewrite H4. cbn. by rewrite Hc.
Defined.
